(** * urbanpy: geometry and utility helpers

    A shallow embedding of [urbanpy/utils/utils.py] and
    [urbanpy/geom/geom.py].  Python exceptions are values of [Exn] carried by
    the [result] type; floating point cells are idealised as rationals
    ([Q]); data frames are lists of labelled rows; the objects a caller can
    alias (the frames handed to [merge_shape_hex] and
    [osmnx_graph_download]) live in a store of references. *)

From Stdlib Require Import ZArith QArith Qabs Qround Qminmax Sorted.
From stdpp Require Import base option list gmap strings.

Local Close Scope Q_scope.
Local Open Scope Z_scope.

(** ** Exceptions and fallible results *)

Inductive Exn : Type :=
| KeyError (what : string)
| ValueError (what : string)
| TypeError (what : string)
| AttributeError (what : string)
| NotImplementedError (what : string)
| LibraryError (what : string).

Inductive result (A : Type) : Type :=
| Ok (a : A)
| Err (e : Exn).
Arguments Ok {A} a.
Arguments Err {A} e.

Definition rbind {A B} (r : result A) (k : A -> result B) : result B :=
  match r with
  | Ok a => k a
  | Err e => Err e
  end.

#[global] Instance result_bind : MBind result := fun A B k r => rbind r k.
#[global] Instance result_ret : MRet result := fun A a => Ok a.

Section mapR.
Context {A B : Type} (f : A -> result B).

(** A list comprehension whose body may raise: the first exception wins. *)
Fixpoint mapR (l : list A) : result (list B) :=
  match l with
  | [] => Ok []
  | a :: l' => b ← f a; bs ← mapR l'; Ok (b :: bs)
  end.
End mapR.

Definition is_ok {A} (r : result A) : bool :=
  match r with Ok _ => true | Err _ => false end.

(** [sorted(set(l))]: ascending order, each value once. *)
Fixpoint insert_sorted (x : Z) (l : list Z) : list Z :=
  match l with
  | [] => [x]
  | y :: l' =>
      if x <? y then x :: l
      else if x =? y then l
      else y :: insert_sorted x l'
  end.

Definition sorted_set (l : list Z) : list Z := foldr insert_sorted [] l.

(** ** Geometries (shapely)

    A geometry object has a class, reported as a string by [geom.type], and
    one of three payloads: a coordinate sequence ([geom.coords]), a shell
    with holes ([geom.exterior], [geom.interiors]) or parts
    ([geom.geoms]).  A coordinate is a 2-tuple or a 3-tuple. *)

Inductive Coord : Type :=
| XY (x y : Q)
| XYZ (x y z : Q).

#[warnings="-register-all"]
Inductive Geometry : Type :=
| Coords (cls : string) (coords : list Coord)
| Polygon (exterior : list Coord) (interiors : list (list Coord))
| Collection (cls : string) (geoms : list Geometry).

(** Equality of cells and geometries is equality of their components. *)
#[global] Instance Q_eq_dec : EqDecision Q.
Proof. solve_decision. Defined.

#[global] Instance Coord_eq_dec : EqDecision Coord.
Proof. solve_decision. Defined.

#[global] Instance Geometry_eq_dec : EqDecision Geometry.
Proof.
  refine (fix go (g1 g2 : Geometry) {struct g1} : Decision (g1 = g2) :=
    match g1, g2 with
    | Coords c1 cs1, Coords c2 cs2 =>
        cast_if_and (decide (c1 = c2)) (decide (cs1 = cs2))
    | Polygon s1 h1, Polygon s2 h2 =>
        cast_if_and (decide (s1 = s2)) (decide (h1 = h2))
    | Collection c1 p1, Collection c2 p2 =>
        cast_if_and (decide (c1 = c2)) (@list_eq_dec _ go p1 p2)
    | _, _ => right _
    end); abstract congruence.
Defined.

Definition geom_type (geom : Geometry) : string :=
  match geom with
  | Coords cls _ => cls
  | Polygon _ _ => "Polygon"
  | Collection cls _ => cls
  end.

Fixpoint all_coords (geom : Geometry) : list Coord :=
  match geom with
  | Coords _ cs => cs
  | Polygon shell holes => shell ++ concat holes
  | Collection _ parts => concat (map all_coords parts)
  end.

(** [geom.is_empty]: the geometry has no coordinate at all. *)
Definition is_empty (geom : Geometry) : bool :=
  match all_coords geom with [] => true | _ => false end.

(** [geom.has_z]: the first coordinate carries a third component. *)
Definition has_z (geom : Geometry) : bool :=
  match all_coords geom with XYZ _ _ _ :: _ => true | _ => false end.

Definition coords (geom : Geometry) : result (list Coord) :=
  match geom with
  | Coords _ cs => Ok cs
  | Polygon _ _ =>
      Err (NotImplementedError "Component rings have coordinate sequences")
  | Collection _ _ =>
      Err (NotImplementedError "Multi-part geometries do not provide a coordinate sequence")
  end.

Definition exterior (geom : Geometry) : result (list Coord) :=
  match geom with
  | Polygon shell _ => Ok shell
  | _ => Err (AttributeError "exterior")
  end.

Definition interiors (geom : Geometry) : result (list (list Coord)) :=
  match geom with
  | Polygon _ holes => Ok holes
  | _ => Err (AttributeError "interiors")
  end.

(** [type(geom)(coords)] for a geometry built from one coordinate sequence. *)
Definition rebuild (geom : Geometry) (cs : list Coord) : result Geometry :=
  match geom with
  | Coords cls _ => Ok (Coords cls cs)
  | _ => Err (TypeError "constructor")
  end.

(** ** Data frames (pandas, geopandas)

    A frame is a list of rows in order.  A row has an index label, the
    cell of the designated geometry column and its other cells by column
    name; a cell that is absent from [attrs] is unset (NaN).  The frame also
    records which columns it has, so that reading a column it lacks raises
    [KeyError]. *)

Inductive Cell : Type :=
| Num (q : Q)
| Str (s : string).

#[global] Instance Cell_eq_dec : EqDecision Cell.
Proof. solve_decision. Defined.

Record Row : Type := mkRow {
  index : Z;
  geometry : option Geometry;
  attrs : gmap string Cell;
}.

Record Frame : Type := mkFrame {
  columns : list string;
  crs : option string;
  rows : list Row;
}.

Definition labels (df : Frame) : list Z := index <$> rows df.

(** [df[c]] *)
Definition column (df : Frame) (c : string) : result (list (option Cell)) :=
  if bool_decide (c ∈ columns df)
  then Ok ((fun r => attrs r !! c) <$> rows df)
  else Err (KeyError c).

(** [row['geometry']] *)
Definition row_geometry (r : Row) : result Geometry :=
  match geometry r with
  | Some g => Ok g
  | None => Err (KeyError "geometry")
  end.

(** [series.between(left, right)], both ends included; a comparison with
    NaN on either side is false, a string cannot be compared to a number. *)
Definition between (c : option Cell) (left right : option Q) : result bool :=
  match c with
  | Some (Str _) =>
      Err (TypeError "'>=' not supported between instances of 'str' and 'float'")
  | Some (Num q) =>
      match left, right with
      | Some l, Some r => Ok (Qle_bool l q && Qle_bool q r)
      | _, _ => Ok false
      end
  | None => Ok false
  end.

(** [df[mask]] *)
Fixpoint select {A} (mask : list bool) (l : list A) : list A :=
  match mask, l with
  | b :: mask', a :: l' => if b then a :: select mask' l' else select mask' l'
  | _, _ => []
  end.

Definition coord_x (c : Coord) : Q :=
  match c with XY x _ => x | XYZ x _ _ => x end.
Definition coord_y (c : Coord) : Q :=
  match c with XY _ y => y | XYZ _ y _ => y end.

(** [gdf.geometry.total_bounds]: (minx, miny, maxx, maxy) over every
    coordinate of every geometry, four NaN when there is none. *)
Definition bounds_of (cs : list Coord) : option (Q * Q * Q * Q) :=
  match cs with
  | [] => None
  | c :: cs' =>
      Some (foldl (fun '(minx, miny, maxx, maxy) c' =>
                     (Qmin minx (coord_x c'), Qmin miny (coord_y c'),
                      Qmax maxx (coord_x c'), Qmax maxy (coord_y c')))
                  (coord_x c, coord_y c, coord_x c, coord_y c) cs')
  end.

Definition total_bounds (gdf : Frame) : option (Q * Q * Q * Q) :=
  bounds_of (concat ((fun r => from_option all_coords [] (geometry r)) <$> rows gdf)).

(** [gpd.points_from_xy(x, y)] *)
Definition point_from_xy (x y : option Cell) : result Geometry :=
  match x, y with
  | Some (Num x), Some (Num y) => Ok (Coords "Point" [XY x y])
  | _, _ => Err (TypeError "must be real number")
  end.

Definition set_geometry (r : Row) (g : Geometry) : Row :=
  mkRow (index r) (Some g) (attrs r).

(** [df.drop_duplicates()]: a row is dropped when an earlier row has the
    same cells in every column; labels do not take part. *)
Definition same_cells (r1 r2 : Row) : bool :=
  bool_decide (geometry r1 = geometry r2 ∧ attrs r1 = attrs r2).

(** ** Objects and references

    Python passes frames by reference.  A [World] holds the frames that are
    alive, by reference, and what has been printed.  A computation may
    raise; what it wrote before raising stays written. *)

Definition ref := positive.

Inductive LogLine : Type :=
| OnRecord (index : Z) (err : Exn).

Record World : Type := mkWorld {
  heap : gmap ref Frame;
  stdout : list LogLine;
}.

Definition M (A : Type) : Type := World -> result A * World.

#[global] Instance M_ret : MRet M := fun A a w => (Ok a, w).
#[global] Instance M_bind : MBind M := fun A B k c w =>
  match c w with
  | (Ok a, w') => k a w'
  | (Err e, w') => (Err e, w')
  end.

Definition lift {A} (r : result A) : M A := fun w => (r, w).

(** Reading the frame behind a reference. *)
Definition deref (r : ref) : M Frame := fun w =>
  match heap w !! r with
  | Some df => (Ok df, w)
  | None => (Err (ValueError "no such object"), w)
  end.

(** A new object. *)
Definition alloc (df : Frame) : M ref := fun w =>
  let r := fresh (dom (heap w)) in
  (Ok r, mkWorld (<[r := df]> (heap w)) (stdout w)).

(** In-place update of the object behind a reference. *)
Definition modify (r : ref) (f : Frame -> result Frame) : M unit := fun w =>
  match heap w !! r with
  | Some df =>
      match f df with
      | Ok df' => (Ok tt, mkWorld (<[r := df']> (heap w)) (stdout w))
      | Err e => (Err e, w)
      end
  | None => (Err (ValueError "no such object"), w)
  end.

Definition print (line : LogLine) : M unit := fun w =>
  (Ok tt, mkWorld (heap w) (stdout w ++ [line])).

(** [try: body except Exception as err: handler(err)] *)
Definition try_except (body : M unit) (handler : Exn -> M unit) : M unit :=
  fun w =>
    match body w with
    | (Ok tt, w') => (Ok tt, w')
    | (Err err, w') => handler err w'
    end.

(** [for x in l: body(x)] *)
Fixpoint for_each {A} (l : list A) (body : A -> M unit) : M unit :=
  match l with
  | [] => mret tt
  | x :: l' => _ ← body x; for_each l' body
  end.

(** [df.copy()] *)
Definition copy (r : ref) : M ref := df ← deref r; alloc df.

(** ** Python values (GeoJSON)

    The coordinates of a feature are nested sequences of numbers; a
    sequence is a tuple or a list.  The operations on them answer [None]
    where Python raises. *)

#[warnings="-register-all"]
Inductive PyVal : Type :=
| PNum (q : Q)
| PTuple (items : list PyVal)
| PList (items : list PyVal).

(** [for x in v]; a number is not iterable ([TypeError]). *)
Definition iter (v : PyVal) : option (list PyVal) :=
  match v with
  | PNum _ => None
  | PTuple items => Some items
  | PList items => Some items
  end.

(** [list(v)] *)
Definition py_list (v : PyVal) : option PyVal :=
  items ← iter v; Some (PList items).

Record FeatureGeometry : Type := mkFeatureGeometry {
  geometry_type : string;
  coordinates : PyVal;
}.

Record Feature : Type := mkFeature {
  feature_id : string;
  feature_properties : gmap string Cell;
  feature_geometry : option FeatureGeometry;
}.

Record FeatureCollection : Type := mkFeatureCollection {
  features : list Feature;
}.

(** ** utils.py *)

Module utils.

(** *** create_duration_labels *)

Definition default_bins : list Z := [0; 15; 30; 45; 60; 90; 120].

Definition default_labels : list string :=
  ["De 0 a 15"; "De 15 a 30"; "De 30 a 45"; "De 45 a 60";
   "De 60 a 90"; "De 90 a 120"; "Más de 120"]%string.

(** [durations.max()]: the largest entry, [None] (NaN) on an empty series. *)
Definition series_max (durations : list Q) : option Q :=
  match durations with
  | [] => None
  | d :: ds => Some (foldl (fun m x => if Qle_bool m x then x else m) d ds)
  end.

(** [l.index(x)]: position of the first occurrence. *)
Fixpoint index_of (x : Z) (l : list Z) : option nat :=
  match l with
  | [] => None
  | y :: l' => if x =? y then Some O else S <$> index_of x l'
  end.

Definition create_duration_labels (durations : list Q)
  : result (list Z * list string) :=
  match series_max durations with
  | None => Err (ValueError "cannot convert float NaN to integer")
  | Some max_duration_raw =>
      let bins_ := default_bins in
      let max_duration_asint := Qceiling max_duration_raw in
      let bins_ := max_duration_asint :: bins_ in
      let bins_ := sorted_set bins_ in
      match index_of max_duration_asint bins_ with
      | None => Err (ValueError "value is not in list")
      | Some ix =>
          let default_bins' :=
            if (length default_bins <=? ix + 1)%nat
               && negb (max_duration_asint =? List.last default_bins 0)
            then default_bins ++ [max_duration_asint]
            else default_bins in
          let custom_bins := take (ix + 1) default_bins' in
          let custom_labels := take ix default_labels in
          Ok (custom_bins, custom_labels)
      end
  end.

(** *** swap_xy *)

(** The two local generators [swap_xy_coords]; unpacking a tuple of the
    wrong length raises [ValueError]. *)
Definition swap_xy_coord (with_z : bool) (c : Coord) : result Coord :=
  match with_z, c with
  | true, XYZ x y z => Ok (XYZ y x z)
  | true, XY _ _ =>
      Err (ValueError "not enough values to unpack (expected 3, got 2)")
  | false, XY x y => Ok (XY y x)
  | false, XYZ _ _ _ =>
      Err (ValueError "too many values to unpack (expected 2)")
  end.

Definition swap_xy_coords (with_z : bool) (cs : list Coord)
  : result (list Coord) :=
  mapR (swap_xy_coord with_z) cs.

Definition coords_types : list string := ["Point"; "LineString"; "LinearRing"].

(** ['%r' % name] for the name of a class: the name between single
    quotes.  (A string with a quote, a backslash or an unprintable
    character in it is escaped by Python; no class name has one.) *)
Definition repr (name : string) : string := "'" +:+ name +:+ "'".

Fixpoint swap_xy (geom : Geometry) : result Geometry :=
  if is_empty geom then Ok geom
  else
    let swap_xy_coords := swap_xy_coords (has_z geom) in
    if bool_decide (geom_type geom ∈ coords_types) then
      cs ← coords geom;
      cs' ← swap_xy_coords cs;
      rebuild geom cs'
    else if String.eqb (geom_type geom) "Polygon" then
      ring ← exterior geom;
      shell ← swap_xy_coords ring;
      holes ← interiors geom;
      holes' ← mapR swap_xy_coords holes;
      Ok (Polygon shell holes')
    else if String.prefix "Multi" (geom_type geom)
            || String.eqb (geom_type geom) "GeometryCollection" then
      match geom with
      | Collection cls parts =>
          parts' ← mapR swap_xy parts;
          Ok (Collection cls parts')
      | _ => Err (AttributeError "geoms")
      end
    else
      Err (ValueError ("Type " +:+ repr (geom_type geom) +:+ " not recognized")).

(** *** nn_search *)

Section nn_search.
(** numpy's conversion from degrees to radians, and the ball tree of
    scikit-learn: building a tree over points under a metric, and asking
    it, for each query point, for the distance to the nearest point of the
    tree and for the position of that point.  Building and asking may
    raise.  Floats are idealised as rationals. *)
Variable radians : Q -> Q.
Variable Tree : Type.
Variable BallTree : list (Q * Q) -> string -> result Tree.
Variable query : Tree -> list (Q * Q) -> result (list Q * list nat).

(** [np.radians] on an array of (lat, lon) rows. *)
Definition np_radians (features : list (Q * Q)) : list (Q * Q) :=
  (fun '(lat, lon) => (radians lat, radians lon)) <$> features.

Definition nn_search (tree_features query_features : list (Q * Q))
    (metric : string) : result (list Q * list nat) :=
  if String.eqb metric "haversine" then
    let tf := np_radians tree_features in
    tree ← BallTree tf metric;
    let qf := np_radians query_features in
    '(dist, ind) ← query tree qf;
    (Ok ((fun d => d * 6371000 / 1000)%Q <$> dist, ind)
     : result (list Q * list nat))
  else
    tree ← BallTree tree_features metric;
    '(dist, ind) ← query tree query_features;
    (Ok (dist, ind) : result (list Q * list nat)).
End nn_search.

(** *** tuples_to_lists *)

(** The body of the loop, for the feature at one position: the rings
    become lists, and the coordinates become the first of them alone,
    with its points as lists.  [None] stands for the exception of a
    feature without geometry or with a number in the place of a sequence
    ([TypeError]) and of coordinates without a ring ([IndexError]). *)
Definition tuples_to_lists_feature (feature : Feature) : option Feature :=
  g ← feature_geometry feature;
  rings ← iter (coordinates g);
  t ← mapM py_list rings;
  first ← head t;
  points ← iter first;
  ring ← mapM py_list points;
  let poly := PList [PList ring] in
  Some (mkFeature (feature_id feature) (feature_properties feature)
                  (Some (mkFeatureGeometry (geometry_type g) poly))).

(** The features are rewritten one after the other and the collection
    is handed back; the decorator leaves the meaning of the function as
    it is. *)
Definition tuples_to_lists (json : FeatureCollection)
  : option FeatureCollection :=
  features' ← mapM tuples_to_lists_feature (features json);
  Some (mkFeatureCollection features').

(** *** shell_from_geometry *)

Definition shell_from_geometry (geometry : list (gmap string Q))
  : result (list (list Q)) :=
  mapR (fun record =>
          lon ← match record !! "lon" with
                | Some lon => Ok lon
                | None => Err (KeyError "lon")
                end;
          lat ← match record !! "lat" with
                | Some lat => Ok lat
                | None => Err (KeyError "lat")
                end;
          Ok [lon; lat]) geometry.

End utils.

(** ** geom.py *)

Module geom.

(** *** filter_population *)

Definition filter_population (pop_df polygon_gdf : Frame) : result Frame :=
  let bounds := total_bounds polygon_gdf in
  let minx := (fun '(minx, _, _, _) => minx) <$> bounds in
  let miny := (fun '(_, miny, _, _) => miny) <$> bounds in
  let maxx := (fun '(_, _, maxx, _) => maxx) <$> bounds in
  let maxy := (fun '(_, _, _, maxy) => maxy) <$> bounds in
  longitude ← column pop_df "longitude";
  in_x ← mapR (fun c => between c minx maxx) longitude;
  latitude ← column pop_df "latitude";
  in_y ← mapR (fun c => between c miny maxy) latitude;
  let limits_filter := zip_with andb in_x in_y in
  let filtered_points := select limits_filter (rows pop_df) in
  geometry_ ← mapR (fun r => point_from_xy (attrs r !! "longitude")
                                           (attrs r !! "latitude"))
                   filtered_points;
  Ok (mkFrame (columns pop_df) (Some "EPSG:4326")
              (zip_with set_geometry filtered_points geometry_)).

(** *** remove_features *)

Definition remove_features (gdf : Frame) (bounds : Q * Q * Q * Q)
  : result Frame :=
  let '(miny, maxy, minx, maxx) := bounds in
  latitude ← column gdf "latitude";
  in_y ← mapR (fun c => between c (Some miny) (Some maxy)) latitude;
  longitude ← column gdf "longitude";
  in_x ← mapR (fun c => between c (Some minx) (Some maxx)) longitude;
  let filter := zip_with andb in_y in_x in
  let drop_ix := index <$> select filter (rows gdf) in
  Ok (mkFrame (columns gdf) (crs gdf)
        (List.filter (fun r => negb (bool_decide (index r ∈ drop_ix)))
                     (rows gdf))).

(** *** gen_hexagons *)

(** [df.drop_duplicates()] keeps the first of the rows that agree on every
    cell. *)
Fixpoint drop_duplicates_rows (seen todo : list Row) : list Row :=
  match todo with
  | [] => []
  | r :: todo' =>
      if existsb (same_cells r) seen
      then drop_duplicates_rows seen todo'
      else r :: drop_duplicates_rows (r :: seen) todo'
  end.

Definition drop_duplicates (df : Frame) : Frame :=
  mkFrame (columns df) (crs df) (drop_duplicates_rows [] (rows df)).

(** [gpd.GeoDataFrame(data, geometry=geoms)]: one unnamed column, called 0,
    a default index 0, 1, 2, ... *)
Definition frame_of (data : list string) (geoms : list Geometry) : Frame :=
  mkFrame ["0"] None
    (imap (fun i '(d, g) => mkRow (Z.of_nat i) (Some g) {[ "0" := Str d ]})
          (zip data geoms)).

(** [city.explode().reset_index(drop=True)]: the parts of every multi-part
    geometry, one per row. *)
Definition explode (city : Frame) : list (option Geometry) :=
  concat ((fun r => match geometry r with
                    | Some (Collection _ parts) => Some <$> parts
                    | g => [g]
                    end) <$> rows city).

Section gen_hexagons.
(** The hexagonal indexing library. [polyfill] answers with the cells
    of a polygon, or raises; the two conversions answer in (lat, lon)
    order. *)
Variable polyfill : Geometry -> Z -> result (list string).
Variable h3_to_geo : string -> Q * Q.
Variable h3_to_geo_boundary : string -> list (Q * Q).

Definition hexagon_centroid (hexagon : string) : Geometry :=
  let '(centroid_lat, centroid_lon) := h3_to_geo hexagon in
  Coords "Point" [XY centroid_lon centroid_lat].

Definition hexagon_polygon (hexagon : string) : Geometry :=
  let h3_geo_boundary := h3_to_geo_boundary hexagon in
  let h3_geo_boundary :=
    (fun '(lat, lon) => XY lon lat) <$> h3_geo_boundary in
  Polygon h3_geo_boundary [].

(** The body of the inner loop: one centroid, one polygon and one
    identifier are appended for the cell. *)
Definition add_hexagon (acc : list Geometry * list Geometry * list string)
    (hexagon : string) : list Geometry * list Geometry * list string :=
  let '(h3_centroids, h3_polygons, h3_indexes) := acc in
  (h3_centroids ++ [hexagon_centroid hexagon],
   h3_polygons ++ [hexagon_polygon hexagon],
   h3_indexes ++ [hexagon]).

(** The outer loop over the exploded polygons. *)
Fixpoint polyfill_rows (resolution : Z) (city_poly : list (option Geometry))
    (acc : list Geometry * list Geometry * list string)
  : result (list Geometry * list Geometry * list string) :=
  match city_poly with
  | [] => Ok acc
  | geo :: city_poly' =>
      g ← match geo with
          | Some g => Ok g
          | None => Err (AttributeError "__geo_interface__")
          end;
      hexagons ← polyfill g resolution;
      polyfill_rows resolution city_poly' (foldl add_hexagon acc hexagons)
  end.

Definition gen_hexagons (resolution : Z) (city : Frame)
  : result (Frame * Frame) :=
  let city_poly := explode city in
  '(h3_centroids, h3_polygons, h3_indexes) ←
    polyfill_rows resolution city_poly ([], [], []);
  let city_hexagons := drop_duplicates (frame_of h3_indexes h3_polygons) in
  let city_hexagons :=
    mkFrame (columns city_hexagons) (Some "EPSG:4326") (rows city_hexagons) in
  let city_centroids := drop_duplicates (frame_of h3_indexes h3_centroids) in
  let city_centroids :=
    mkFrame (columns city_centroids) (Some "EPSG:4326") (rows city_centroids) in
  Ok (city_hexagons, city_centroids).
End gen_hexagons.

(** *** merge_shape_hex *)

(** What [gpd.sjoin] answers: a frame whose rows may carry, in column
    [index_right], the label of the right-hand row they were matched with
    (unset for a row without a match); [has_index_right] tells whether the
    frame has that column at all. *)
Record Joined : Type := mkJoined {
  jcolumns : list string;
  has_index_right : bool;
  jrows : list (option Z * Row);
}.

(** The result of [groupby(...).agg(...)]: the group keys, which form its
    index, and one list of values per aggregated column. *)
Record Grouped : Type := mkGrouped {
  gindex : list Z;
  gcolumns : list (string * list (option Cell));
}.

(** A reducer of the aggregation engine, looked up by name. *)
Definition Reducer : Type := list (option Cell) -> result (option Cell).

(** [row[key] = v]; storing NaN leaves the cell unset. *)
Definition set_cell (key : string) (v : option Cell) (r : Row) : Row :=
  mkRow (index r) (geometry r)
        (match v with
         | Some c => <[key := c]> (attrs r)
         | None => delete key (attrs r)
         end).

Definition with_column (cols : list string) (key : string) : list string :=
  if bool_decide (key ∈ cols) then cols else cols ++ [key].

(** The position of the row that a label of the indexer selects: a label
    that selects no row is a [KeyError]; values are given one per label, so
    a label that selects several rows leaves too few of them. *)
Definition position_of (df : Frame) (label : Z) : result nat :=
  match (fun p => p.1) <$>
        filter (fun p => index p.2 = label) (imap pair (rows df)) with
  | [] => Err (KeyError "not in index")
  | [p] => Ok p
  | _ => Err (ValueError "Must have equal len keys and value when setting with an iterable")
  end.

(** [df.loc[labels, key] = values] *)
Definition loc_assign (labels : list Z) (key : string)
    (values : list (option Cell)) (df : Frame) : result Frame :=
  targets ← mapR (position_of df) labels;
  Ok (mkFrame (with_column (columns df) key) (crs df)
        (foldl (fun rs '(p, v) => alter (set_cell key v) p rs)
               (rows df) (zip targets values))).

(** [df.loc[index, stat] = v] with one label and one value: every row
    that carries the label receives the value. *)
Definition loc_set (label : Z) (stat : string) (v : option Cell) (df : Frame)
  : Frame :=
  mkFrame (with_column (columns df) stat) (crs df)
    ((fun r => if bool_decide (index r = label) then set_cell stat v r else r)
       <$> rows df).

Section merge_shape_hex.
(** The spatial join and the reducers of the aggregation engine. *)
Variable sjoin : Frame -> Frame -> string -> string -> result Joined.
Variable reducer : string -> option Reducer.

(** [joined.groupby('index_right')]: one group per label, in ascending
    order; a row whose label is unset belongs to no group. *)
Definition group_keys (joined : Joined) : list Z :=
  sorted_set (omap (fun p => p.1) (jrows joined)).

Definition group (joined : Joined) (k : Z) : list Row :=
  (fun p => p.2) <$> filter (fun p => p.1 = Some k) (jrows joined).

(** One entry of the aggregation map: the column must exist, the
    reducer is whatever the engine knows under that name. *)
Definition agg_column (joined : Joined) (keys : list Z)
    (key fname : string) : result (list (option Cell)) :=
  if bool_decide (key ∈ jcolumns joined) then
    match reducer fname with
    | Some f =>
        mapR (fun k => f ((fun r => attrs r !! key) <$> group joined k)) keys
    | None => Err (AttributeError fname)
    end
  else Err (KeyError key).

Definition groupby_agg (joined : Joined) (agg : list (string * string))
  : result Grouped :=
  if has_index_right joined then
    let keys := group_keys joined in
    cols ← mapR (fun '(key, fname) =>
                   vals ← agg_column joined keys key fname;
                   Ok (key, vals)) agg;
    Ok (mkGrouped keys cols)
  else Err (KeyError "index_right").

(** [hex_merge[key].values] *)
Definition gcolumn (g : Grouped) (key : string)
  : result (list (option Cell)) :=
  match list_find (fun p => p.1 = key) (gcolumns g) with
  | Some (_, (_, vals)) => Ok vals
  | None => Err (KeyError key)
  end.

Definition merge_shape_hex (hex shape : ref) (how op : string)
    (agg : list (string * string)) : M ref :=
  shape_df ← deref shape;
  hex_df ← deref hex;
  joined ← lift (sjoin shape_df hex_df how op);
  hex_merge ← lift (groupby_agg joined agg);
  ret_hex ← copy hex;
  _ ← for_each (agg.*1) (fun key =>
        values ← lift (gcolumn hex_merge key);
        modify ret_hex (loc_assign (gindex hex_merge) key values));
  mret ret_hex.
End merge_shape_hex.

(** *** osmnx_graph_download *)

(** A statistic as the street network library computes it.  Most are
    numbers; some are dicts or lists (the streets per node by count and by
    proportion, for instance).  pandas stores a number or a string in a
    cell; asked to store a dict or a list in one cell it raises, and
    [err] is the exception it raises for the value. *)
Inductive Stat : Type :=
| Scalar (c : Cell)
| Composite (err : Exn).

(** [gdf.loc[index, stat] = value] with one label and one value; the
    value is [None] for a statistic that the dict of the library lacks.
    Every row that carries the label receives the value; a write that
    raises has stored nothing. *)
Definition loc_write (label : Z) (stat : string) (value : option Stat)
    (df : Frame) : result Frame :=
  match value with
  | Some (Composite err) => Err err
  | Some (Scalar c) => Ok (loc_set label stat (Some c) df)
  | None => Ok (loc_set label stat None df)
  end.

Section osmnx_graph_download.
(** The street network library: building a graph and computing its
    statistics may each raise. *)
Variable Graph : Type.
Variable ox_graph_from_polygon : Geometry -> string -> result Graph.
Variable ox_basic_stats : Graph -> result (gmap string Stat).
Variable ox_extended_stats :
  Graph -> bool -> bool -> bool -> bool -> bool -> result (gmap string Stat).

(** The body of the [try] block for one row: the three calls of the
    library, then one write per requested statistic, each of which may
    raise after the writes before it have been made. *)
Definition annotate_row (gdf : ref) (net_type : string)
    (basic_stats extended_stats : list string)
    (connectivity anc ecc bc cc : bool) (index : Z) (row : Row) : M unit :=
  geom ← lift (row_geometry row);
  graph ← lift (ox_graph_from_polygon geom net_type);
  b_stats ← lift (ox_basic_stats graph);
  ext_stats ← lift (ox_extended_stats graph connectivity anc ecc bc cc);
  _ ← for_each basic_stats (fun stat =>
        modify gdf (loc_write index stat (b_stats !! stat)));
  for_each extended_stats (fun stat =>
    modify gdf (loc_write index stat (ext_stats !! stat))).

Definition osmnx_graph_download (gdf : ref) (net_type : string)
    (basic_stats extended_stats : list string)
    (connectivity anc ecc bc cc : bool) : M ref :=
  df ← deref gdf;
  _ ← for_each (rows df) (fun row =>
        let index := index row in
        try_except
          (annotate_row gdf net_type basic_stats extended_stats
                        connectivity anc ecc bc cc index row)
          (fun err => print (OnRecord index err)));
  mret gdf.
End osmnx_graph_download.

(** The cell identifiers of an output of [gen_hexagons]: column 0. *)
Definition hex_ids (df : Frame) : list (option Cell) :=
  (fun r => attrs r !! "0") <$> rows df.

End geom.

(** ** Reference collaborators

    Executable stand-ins for the libraries the functions above are
    parameterised by, used to run them on concrete data.  They follow the
    documented behaviour of the libraries on the inputs used below and are
    not part of urbanpy. *)

Module reference.

(** The numbers among the cells of a group, NaN skipped. *)
Definition numbers (cells : list (option Cell)) : result (list Q) :=
  mapR (fun c => match c with
                 | Num q => Ok q
                 | Str _ => Err (TypeError "unsupported operand type")
                 end) (omap id cells).

Definition Qsum (qs : list Q) : Q := Qred (foldr Qplus 0%Q qs).

Definition Qextreme (f : Q -> Q -> Q) (qs : list Q) : option Cell :=
  match qs with
  | [] => None
  | q :: qs' => Some (Num (Qred (foldl f q qs')))
  end.

(** Some of the reducer names that the pandas engine knows. *)
Definition pandas_reducer (name : string) : option geom.Reducer :=
  if String.eqb name "sum" then
    Some (fun cells => qs ← numbers cells; Ok (Some (Num (Qsum qs))))
  else if String.eqb name "min" then
    Some (fun cells => qs ← numbers cells; Ok (Qextreme Qmin qs))
  else if String.eqb name "max" then
    Some (fun cells => qs ← numbers cells; Ok (Qextreme Qmax qs))
  else if String.eqb name "count" then
    Some (fun cells => Ok (Some (Num (inject_Z (Z.of_nat (length (omap id cells)))))))
  else if String.eqb name "mean" then
    Some (fun cells =>
            qs ← numbers cells;
            Ok (match qs with
                | [] => None
                | _ => Some (Num (Qred (Qsum qs / inject_Z (Z.of_nat (length qs)))))
                end))
  else None.

(** A point lies in a cell when it lies in the bounding box of the cell:
    exact for the axis-parallel rectangles used as cells below. *)
Definition in_bounding_box (point cell : Geometry) : bool :=
  match all_coords point, bounds_of (all_coords cell) with
  | [c], Some (minx, miny, maxx, maxy) =>
      Qle_bool minx (coord_x c) && Qle_bool (coord_x c) maxx
      && Qle_bool miny (coord_y c) && Qle_bool (coord_y c) maxy
  | _, _ => false
  end.

Definition matched (left_row right_row : Row) : bool :=
  match geometry left_row, geometry right_row with
  | Some p, Some c => in_bounding_box p c
  | _, _ => false
  end.

(** Overlapping column names receive the suffixes of the join. *)
Definition suffixed (others : list string) (suffix : string)
    (cols : list string) : list string :=
  (fun c => if bool_decide (c ∈ others) then c +:+ suffix else c) <$> cols.

Definition suffixed_attrs (others : list string) (suffix : string)
    (m : gmap string Cell) : gmap string Cell :=
  list_to_map ((fun '(c, v) =>
                  (if bool_decide (c ∈ others) then c +:+ suffix else c, v))
                 <$> map_to_list m).

(** The spatial join on points (left) and cells (right). ['inner'] keeps
    the matched pairs, ['left'] also the points without a cell; both keep
    the label of the cell in [index_right].  ['right'] keeps every cell,
    labels its rows by the cell and records the point in [index_left]. *)
Definition sjoin (left_df right_df : Frame) (how op : string)
  : result geom.Joined :=
  if negb (bool_decide (op ∈ ["intersects"; "contains"; "within"])) then
    Err (ValueError "`op` was not a recognised predicate")
  else
    let lcols := suffixed (columns right_df) "_left" (columns left_df) in
    let rcols := suffixed (columns left_df) "_right" (columns right_df) in
    let lattrs l := suffixed_attrs (columns right_df) "_left" (attrs l) in
    let rattrs r := suffixed_attrs (columns left_df) "_right" (attrs r) in
    let pair_left l r :=
      (Some (index r), mkRow (index l) (geometry l) (lattrs l ∪ rattrs r)) in
    let cells_of l := List.filter (matched l) (rows right_df) in
    let points_of r := List.filter (fun l => matched l r) (rows left_df) in
    if String.eqb how "inner" then
      Ok (geom.mkJoined (lcols ++ ["index_right"] ++ rcols) true
            (concat ((fun l => pair_left l <$> cells_of l) <$> rows left_df)))
    else if String.eqb how "left" then
      Ok (geom.mkJoined (lcols ++ ["index_right"] ++ rcols) true
            (concat ((fun l => match cells_of l with
                               | [] => [(None, mkRow (index l) (geometry l) (lattrs l))]
                               | cs => pair_left l <$> cs
                               end) <$> rows left_df)))
    else if String.eqb how "right" then
      Ok (geom.mkJoined (["index_left"] ++ lcols ++ rcols) false
            (concat ((fun r =>
                        match points_of r with
                        | [] => [(None, mkRow (index r) (geometry r) (rattrs r))]
                        | ps => (fun l =>
                                   (None,
                                    mkRow (index r) (geometry r)
                                          (<["index_left" := Num (inject_Z (index l))]>
                                             (lattrs l ∪ rattrs r)))) <$> ps
                        end) <$> rows right_df)))
    else Err (ValueError "`how` was not one of left, right, inner").

(** A street network library on toy data: the graph of a polygon is its
    number of vertices; an empty polygon has no network to download. *)
Definition graph_from_polygon (g : Geometry) (net_type : string) : result nat :=
  match all_coords g with
  | [] => Err (LibraryError "EmptyOverpassResponse")
  | cs => Ok (length cs)
  end.

Definition basic_stats (graph : nat) : result (gmap string geom.Stat) :=
  Ok {[ "n" := geom.Scalar (Num (inject_Z (Z.of_nat graph)));
        "m" := geom.Scalar (Num (inject_Z (Z.of_nat (2 * graph))));
        "streets_per_node_counts" :=
          geom.Composite
            (ValueError
               "Must have equal len keys and value when setting with an iterable") ]}.

Definition extended_stats (graph : nat) (connectivity anc ecc bc cc : bool)
  : result (gmap string geom.Stat) :=
  if ecc && (graph <? 3)%nat then Err (LibraryError "graph is not connected")
  else Ok (if connectivity
           then {[ "node_connectivity" := geom.Scalar (Num 1) ]}
           else ∅).

(** A search structure on toy data: the points themselves, gone through
    one by one under the distance of the taxi; the first of the nearest
    points is answered. *)
Definition radians (x : Q) : Q := (x * (355 # 20340))%Q.

Definition distance (p q : Q * Q) : Q :=
  (Qabs (p.1 - q.1) + Qabs (p.2 - q.2))%Q.

Definition ball_tree (points : list (Q * Q)) (metric : string)
  : result (list (Q * Q)) :=
  match points with
  | [] => Err (ValueError "Found array with 0 sample(s)")
  | _ => Ok points
  end.

Fixpoint closest (i : nat) (points : list (Q * Q)) (q : Q * Q)
  : option (Q * nat) :=
  match points with
  | [] => None
  | p :: points' =>
      match closest (S i) points' q with
      | Some (d', j) =>
          if Qle_bool (distance p q) d' then Some (distance p q, i)
          else Some (d', j)
      | None => Some (distance p q, i)
      end
  end.

Definition tree_query (tree : list (Q * Q)) (queries : list (Q * Q))
  : result (list Q * list nat) :=
  answers ← mapR (fun q => match closest 0 tree q with
                           | Some answer => Ok answer
                           | None => Err (ValueError "no point to answer")
                           end) queries;
  Ok (answers.*1, answers.*2).

End reference.

(** ** Sample data *)

Module sample.

(** The unit square with lower left corner (x, 0). *)
Definition square (x : Z) : Geometry :=
  Polygon [XY (inject_Z x) 0; XY (inject_Z (x + 1)) 0;
           XY (inject_Z (x + 1)) 1; XY (inject_Z x) 1; XY (inject_Z x) 0] [].

Definition cell (label x : Z) (id : string) : Row :=
  mkRow label (Some (square x)) {[ "0" := Str id ]}.

(** Three cells, labelled as [drop_duplicates] may leave them. *)
Definition hexagons : Frame :=
  mkFrame ["0"] (Some "EPSG:4326") [cell 0 0 "a"; cell 2 2 "b"; cell 5 4 "c"].

Definition point (label : Z) (lon lat population : Q) : Row :=
  mkRow label None
        {[ "longitude" := Num lon; "latitude" := Num lat;
           "population" := Num population ]}.

(** Four measurements: two in cell a, one in cell b, one far away. *)
Definition population : Frame :=
  mkFrame ["latitude"; "longitude"; "population"] None
    [point 0 (1 # 2) (1 # 2) 10; point 1 (1 # 3) (1 # 3) 20;
     point 2 (5 # 2) (1 # 2) 5; point 3 9 9 7].

(** The measurements as points, as [filter_population] makes them. *)
Definition points : Frame :=
  mkFrame (columns population) (Some "EPSG:4326")
    ((fun r => match attrs r !! "longitude", attrs r !! "latitude" with
               | Some (Num lon), Some (Num lat) =>
                   set_geometry r (Coords "Point" [XY lon lat])
               | _, _ => r
               end) <$> rows population).

Definition hex : ref := 1%positive.
Definition shape : ref := 2%positive.

Definition world (cells : Frame) : World :=
  mkWorld {[ hex := cells; shape := points ]} [].

(** Three areas of interest; the second has an empty polygon, for which
    no street network can be downloaded. *)
Definition areas : Frame :=
  mkFrame ["name"] (Some "EPSG:4326")
    [mkRow 0 (Some (square 0)) {[ "name" := Str "north" ]};
     mkRow 1 (Some (Polygon [] [])) {[ "name" := Str "void" ]};
     mkRow 2 (Some (square 2)) {[ "name" := Str "south" ]}].

Definition gdf : ref := 1%positive.

Definition city : World := mkWorld {[ gdf := areas ]} [].

(** A toy indexing library: the cells are the unit squares a, b, c above;
    a polygon is filled with the cells whose lower left corner lies in
    its bounding box. *)
Definition grid : list (string * Z) := [("a", 0); ("b", 2); ("c", 4)]%string.

Definition polyfill (g : Geometry) (resolution : Z) : result (list string) :=
  if bool_decide (0 <= resolution <= 15) then
    Ok ((fun c => c.1)
          <$> List.filter (fun c => reference.in_bounding_box
                                      (Coords "Point" [XY (inject_Z c.2) 0]) g)
                          grid)
  else Err (ValueError "resolution out of range").

Definition corner (id : string) : Z :=
  from_option (fun c => c.2) 0 (List.find (fun c => String.eqb c.1 id) grid).

Definition h3_to_geo (id : string) : Q * Q :=
  ((1 # 2)%Q, (inject_Z (corner id) + (1 # 2))%Q).

Definition h3_to_geo_boundary (id : string) : list (Q * Q) :=
  [(0%Q, inject_Z (corner id)); (0%Q, inject_Z (corner id + 1));
   (1%Q, inject_Z (corner id + 1)); (1%Q, inject_Z (corner id))].

(** Two overlapping strips: the first covers a and b, the second b and c. *)
Definition strip (x0 x1 : Z) : Geometry :=
  Polygon [XY (inject_Z x0) 0; XY (inject_Z x1) 0; XY (inject_Z x1) 1;
           XY (inject_Z x0) 1; XY (inject_Z x0) 0] [].

Definition overlapping : Frame :=
  mkFrame [] None
    [mkRow 0 (Some (Collection "MultiPolygon" [strip 0 3; strip 2 5])) ∅].

(** The cells and centroids of the two strips at resolution 8. *)
Definition tiled : Frame * Frame :=
  match geom.gen_hexagons polyfill h3_to_geo h3_to_geo_boundary 8 overlapping with
  | Ok outputs => outputs
  | Err _ => (mkFrame [] None [], mkFrame [] None [])
  end.

(** The points joined to the cells they lie in. *)
Definition joined : geom.Joined :=
  match reference.sjoin points hexagons "inner" "within" with
  | Ok j => j
  | Err _ => geom.mkJoined [] false []
  end.

(** The calls of the aggregator and of the annotator used below. *)
Definition merged (cells : Frame) (agg : list (string * string))
  : result ref * World :=
  geom.merge_shape_hex reference.sjoin reference.pandas_reducer
                       hex shape "inner" "within" agg (world cells).

Definition annotated_city : result ref * World :=
  geom.osmnx_graph_download nat reference.graph_from_polygon
    reference.basic_stats reference.extended_stats
    gdf "drive" ["n"; "m"] ["node_connectivity"] true false false false false
    city.

(** The same call with a request for the streets per node, a dict. *)
Definition annotated_counts : result ref * World :=
  geom.osmnx_graph_download nat reference.graph_from_polygon
    reference.basic_stats reference.extended_stats
    gdf "drive" ["n"; "streets_per_node_counts"; "m"] ["node_connectivity"]
    true false false false false city.

(** Two downloads put one after the other, as [pd.concat] does: both rows
    carry the label 0; the polygon of the second is empty. *)
Definition twins : Frame :=
  mkFrame ["name"] (Some "EPSG:4326")
    [mkRow 0 (Some (square 0)) {[ "name" := Str "lima" ]};
     mkRow 0 (Some (Polygon [] [])) {[ "name" := Str "callao" ]}].

Definition annotated_twins : result ref * World :=
  geom.osmnx_graph_download nat reference.graph_from_polygon
    reference.basic_stats reference.extended_stats
    gdf "drive" ["n"; "m"] ["node_connectivity"] true false false false false
    (mkWorld {[ gdf := twins ]} []).

(** Two areas for which no street network can be downloaded. *)
Definition voids : Frame :=
  mkFrame ["name"] (Some "EPSG:4326")
    [mkRow 0 (Some (Polygon [] [])) {[ "name" := Str "void" ]};
     mkRow 1 None {[ "name" := Str "lost" ]}].

Definition barren : World := mkWorld {[ gdf := voids ]} [].

(** A park as [__geo_interface__] gives it: a square with a hole, in
    tuples. *)
Definition ring (points : list (Q * Q)) : PyVal :=
  PTuple ((fun '(x, y) => PTuple [PNum x; PNum y]) <$> points).

Definition park : FeatureCollection :=
  mkFeatureCollection
    [mkFeature "0" {[ "name" := Str "park" ]}
       (Some (mkFeatureGeometry "Polygon"
                (PTuple [ring [(0, 0); (4, 0); (4, 4); (0, 0)]%Q;
                         ring [(1, 1); (2, 1); (2, 2); (1, 1)]%Q])))].

(** Two stations and one home, which stands where the second station
    does, as (lat, lon). *)
Definition stations : list (Q * Q) :=
  [(-12, -77)%Q; (-121 # 10, -771 # 10)%Q].

Definition homes : list (Q * Q) := [(-121 # 10, -771 # 10)%Q].

(** The nodes of a way as the Overpass API lists them. *)
Definition way : list (gmap string Q) :=
  [{[ "lat" := (-12)%Q; "lon" := (-77)%Q ]};
   {[ "lat" := (-121 # 10)%Q; "lon" := (-771 # 10)%Q ]}].

(** The measurements within the bounds of the cells. *)
Definition filtered : Frame :=
  match geom.filter_population population hexagons with
  | Ok out => out
  | Err _ => mkFrame [] None []
  end.

(** Two tables of measurements put one after the other: the labels 0 and
    1 occur twice. *)
Definition stacked : Frame :=
  mkFrame (columns population) None
    [point 0 (1 # 2) (1 # 2) 10; point 1 (5 # 2) (1 # 2) 5;
     point 0 9 9 7; point 1 8 8 3].

End sample.

(** ** Vocabulary of the statements *)

Import utils geom.

(** The number of default edges strictly below [m]. *)
Definition edges_below (m : Z) : nat :=
  length (List.filter (fun e => e <? m) default_bins).

(** Whether a coordinate is a 3-tuple. *)
Definition is_xyz (c : Coord) : bool :=
  match c with XYZ _ _ _ => true | XY _ _ => false end.

(** The coordinates of one geometry all have as many components as the
    first of them. *)
Definition uniform (cs : list Coord) : bool :=
  match cs with
  | [] => true
  | c :: cs' => forallb (fun c' => Bool.eqb (is_xyz c') (is_xyz c)) cs'
  end.

(** The geometries that shapely builds: a point, line or ring, a polygon
    with its holes, or a multi-part geometry or collection of such, each
    single part with coordinates of one dimension. *)
Fixpoint shapely_geometry (geom : Geometry) : bool :=
  match geom with
  | Coords cls cs => bool_decide (cls ∈ coords_types) && uniform cs
  | Polygon shell holes => uniform (shell ++ concat holes)
  | Collection cls parts =>
      bool_decide (cls ∈ ["MultiPoint"; "MultiLineString"; "MultiPolygon";
                          "GeometryCollection"])
      && forallb shapely_geometry parts
  end.

(** A row lies within the box (minx, miny, maxx, maxy): its longitude and
    latitude are numbers between the bounds, the bounds included. *)
Definition within_bounds (box : Q * Q * Q * Q) (r : Row) : Prop :=
  let '(minx, miny, maxx, maxy) := box in
  match attrs r !! "longitude", attrs r !! "latitude" with
  | Some (Num lon), Some (Num lat) =>
      (minx <= lon)%Q /\ (lon <= maxx)%Q /\ (miny <= lat)%Q /\ (lat <= maxy)%Q
  | _, _ => False
  end.

#[global] Instance Qle_decision (a b : Q) : Decision (a <= b)%Q.
Proof.
  refine (cast_if (decide (Qle_bool a b = true))); abstract (now rewrite <- Qle_bool_iff).
Defined.

#[global] Instance within_bounds_dec box r : Decision (within_bounds box r).
Proof.
  unfold within_bounds. destruct box as [[[minx miny] maxx] maxy].
  destruct (attrs r !! "longitude") as [[lon|]|]; [|apply _..].
  destruct (attrs r !! "latitude") as [[lat|]|]; apply _.
Defined.

(** [r'] is the row [r] with a point geometry built from its longitude
    and latitude, in that order. *)
Definition located (r r' : Row) : Prop :=
  index r' = index r /\ attrs r' = attrs r /\
  exists lon lat,
    attrs r !! "longitude" = Some (Num lon) /\
    attrs r !! "latitude" = Some (Num lat) /\
    geometry r' = Some (Coords "Point" [XY lon lat]).

(** Both position columns exist and hold no text. *)
Definition numeric_positions (df : Frame) : Prop :=
  "longitude" ∈ columns df /\ "latitude" ∈ columns df /\
  Forall (fun r => (forall s, attrs r !! "longitude" <> Some (Str s)) /\
                   (forall s, attrs r !! "latitude" <> Some (Str s))) (rows df).

(** The rows that [frame_of] builds from positions and cell identifiers
    when the geometry of a cell is [shape] of its identifier. *)
Definition cell_row (shape : string -> Geometry) (p : nat * string) : Row :=
  mkRow (Z.of_nat p.1) (Some (shape p.2)) {[ "0" := Str p.2 ]}.

(** The first occurrence of each identifier not yet seen. *)
Fixpoint first_occurrences (seen : list string) (todo : list (nat * string))
  : list (nat * string) :=
  match todo with
  | [] => []
  | p :: todo' =>
      if bool_decide (p.2 ∈ seen) then first_occurrences seen todo'
      else p :: first_occurrences (p.2 :: seen) todo'
  end.

(** Writing the statistics [m] named in [stats] into a row, and into the
    rows of a frame that carry a label. *)
Definition write_cells (m : gmap string Cell) (stats : list string) (r : Row)
  : Row :=
  foldl (fun r stat => set_cell stat (m !! stat) r) r stats.

Definition write_stats (label : Z) (m : gmap string Cell)
    (stats : list string) (df : Frame) : Frame :=
  foldl (fun df stat => loc_set label stat (m !! stat) df) df stats.

(** The cells that pandas stores for the statistics of a dict that are
    numbers or strings. *)
Definition cells (m : gmap string Stat) : gmap string Cell :=
  omap (fun v => match v with Scalar c => Some c | Composite _ => None end) m.

(** One loop of writes from the dict [m] over the names [stats]: the
    names written before the first write that raises, and the exception
    of that write. *)
Fixpoint written (m : gmap string Stat) (stats : list string) : list string :=
  match stats with
  | [] => []
  | stat :: stats' =>
      match m !! stat with
      | Some (Composite _) => []
      | _ => stat :: written m stats'
      end
  end.

Fixpoint raised (m : gmap string Stat) (stats : list string) : option Exn :=
  match stats with
  | [] => None
  | stat :: stats' =>
      match m !! stat with
      | Some (Composite err) => Some err
      | _ => raised m stats'
      end
  end.

Section osmnx_vocabulary.
Variable Graph : Type.
Variable ox_graph_from_polygon : Geometry -> string -> result Graph.
Variable ox_basic_stats : Graph -> result (gmap string Stat).
Variable ox_extended_stats :
  Graph -> bool -> bool -> bool -> bool -> bool -> result (gmap string Stat).
Variables (net_type : string) (basic_stats extended_stats : list string).
Variables (connectivity anc ecc bc cc : bool).

(** What the street network library answers for one row: the basic and
    the extended statistics, or the first exception. *)
Definition row_stats (row : Row)
  : result (gmap string Stat * gmap string Stat) :=
  geom ← row_geometry row;
  graph ← ox_graph_from_polygon geom net_type;
  b_stats ← ox_basic_stats graph;
  ext_stats ← ox_extended_stats graph connectivity anc ecc bc cc;
  Ok (b_stats, ext_stats).

(** The names that the two loops write for a row with the statistics
    [stats], and the exception that ends them early, if any: the loop
    over the extended names runs only when the loop over the basic ones
    has not raised. *)
Definition basic_written (stats : gmap string Stat * gmap string Stat)
  : list string :=
  written stats.1 basic_stats.

Definition extended_written (stats : gmap string Stat * gmap string Stat)
  : list string :=
  match raised stats.1 basic_stats with
  | None => written stats.2 extended_stats
  | Some _ => []
  end.

Definition write_error (stats : gmap string Stat * gmap string Stat)
  : option Exn :=
  match raised stats.1 basic_stats with
  | Some err => Some err
  | None => raised stats.2 extended_stats
  end.

(** What the [try] block raises for a row, if anything: the exception of
    the library, or else of the first write that raises. *)
Definition row_error (row : Row) : option Exn :=
  match row_stats row with
  | Err err => Some err
  | Ok stats => write_error stats
  end.

(** [r'] is [r] fully annotated: each requested extended statistic holds
    what the library computed for it, each other requested basic
    statistic likewise, and nothing else has changed. *)
Definition annotated (stats : gmap string Stat * gmap string Stat)
    (r r' : Row) : Prop :=
  index r' = index r /\ geometry r' = geometry r /\
  forall stat,
    attrs r' !! stat =
      if bool_decide (stat ∈ extended_stats) then cells stats.2 !! stat
      else if bool_decide (stat ∈ basic_stats) then cells stats.1 !! stat
      else attrs r !! stat.

(** The row [r] with the statistics [stats] written into it as far as
    the writes go: the basic ones first, the extended ones after them. *)
Definition row_written (stats : gmap string Stat * gmap string Stat)
    (r : Row) : Row :=
  write_cells (cells stats.2) (extended_written stats)
    (write_cells (cells stats.1) (basic_written stats) r).

(** The outcome for one row of the batch: untouched when the library
    raises, fully annotated when nothing raises, and written up to the
    write that raises otherwise. *)
Definition row_outcome (r r' : Row) : Prop :=
  match row_stats r with
  | Err _ => r' = r
  | Ok stats =>
      match write_error stats with
      | None => annotated stats r r'
      | Some _ => r' = row_written stats r
      end
  end.

(** One line per row that raises, in the order of the rows. *)
Definition failures (l : list Row) : list LogLine :=
  omap (fun r => OnRecord (index r) <$> row_error r) l.

(** The library answers for the row. *)
Definition succeeds (r : Row) : bool := is_ok (row_stats r).

(** Nothing raises for the row. *)
Definition completes (r : Row) : bool :=
  match row_error r with None => true | Some _ => false end.

(** The statistics computed for the row [t], written into the row [r]. *)
Definition stamp (t r : Row) : Row :=
  match row_stats t with
  | Ok stats => row_written stats r
  | Err _ => r
  end.

(** The frame after the loop has gone through the rows [todo]. *)
Definition batch (todo : list Row) (cur : Frame) : Frame :=
  foldl (fun cur t =>
           match row_stats t with
           | Ok stats =>
               write_stats (index t) (cells stats.2) (extended_written stats)
                 (write_stats (index t) (cells stats.1) (basic_written stats)
                              cur)
           | Err _ => cur
           end) cur todo.
End osmnx_vocabulary.

(** The loop of [merge_shape_hex] over the keys of the aggregation map,
    as a function of the frame it writes into. *)
Fixpoint write_back (hex_merge : Grouped) (keys : list string) (df : Frame)
  : result Frame :=
  match keys with
  | [] => Ok df
  | key :: keys' =>
      values ← gcolumn hex_merge key;
      df' ← loc_assign (gindex hex_merge) key values df;
      write_back hex_merge keys' df'
  end.

(** What a write into the column [key] may change in a row. *)
Definition same_but (keys : list string) (r r' : Row) : Prop :=
  index r' = index r /\ geometry r' = geometry r /\
  forall c, c ∉ keys -> attrs r' !! c = attrs r !! c.

(** A name of letters, digits and underscores, which Python prints
    between quotes as it is. *)
Definition name_char (a : Ascii.ascii) : bool :=
  let n := Ascii.N_of_ascii a in
  ((48 <=? n) && (n <=? 57) || (65 <=? n) && (n <=? 90) ||
   (97 <=? n) && (n <=? 122) || (n =? 95))%N.

Fixpoint is_name (s : string) : bool :=
  match s with
  | EmptyString => true
  | String a s' => name_char a && is_name s'
  end.

(** An answer of a search structure over the points [points] to the
    queries [queries] under the distance [d]: for each query, the
    distance to a point of the structure that is nearest to it, and the
    position of that point. *)
Definition nearest (d : Q * Q -> Q * Q -> Q) (points queries : list (Q * Q))
    (dist : list Q) (ind : list nat) : Prop :=
  forall k q, queries !! k = Some q ->
    exists p i dk,
      ind !! k = Some i /\ dist !! k = Some dk /\ points !! i = Some p /\
      (dk == d p q)%Q /\
      forall p', p' ∈ points -> (d p q <= d p' q)%Q.

(** The coordinate with its first two components exchanged. *)
Definition swapped (c : Coord) : Coord :=
  match c with
  | XY x y => XY y x
  | XYZ x y z => XYZ y x z
  end.

(** The row lies within the explicit box of [remove_features], given as
    (miny, maxy, minx, maxx). *)
Definition in_box (bounds : Q * Q * Q * Q) (r : Row) : Prop :=
  let '(miny, maxy, minx, maxx) := bounds in
  within_bounds (minx, miny, maxx, maxy) r.

#[global] Instance in_box_dec bounds r : Decision (in_box bounds r).
Proof.
  destruct bounds as [[[miny maxy] minx] maxx].
  exact (within_bounds_dec (minx, miny, maxx, maxy) r).
Defined.

(** A point in list form with the components of [p]. *)
Definition as_list (p p' : PyVal) : Prop :=
  exists items, iter p = Some items /\ p' = PList items.

(** The statistics that a call of the annotator asks for. *)
Definition requested (basic_stats extended_stats : list string) (stat : string)
  : Prop :=
  stat ∈ basic_stats \/ stat ∈ extended_stats.

(** Case analysis on the integer comparisons of the goal. *)
Ltac case_ints :=
  repeat (match goal with
          | |- context [Z.ltb ?a ?b] => destruct (Z.ltb_spec a b)
          | |- context [Z.eqb ?a ?b] => destruct (Z.eqb_spec a b)
          end; simpl; try lia; try reflexivity).

(** Unfolding the binds of the two monads. *)
Ltac run_binds :=
  unfold mbind, M_bind, result_bind, rbind, mret, M_ret, lift; cbn beta iota.

(** * Properties *)

(** ** Fallible list comprehensions *)

Lemma mapR_Ok_Forall2 {A B} (f : A -> result B) l l' :
  mapR f l = Ok l' <-> Forall2 (fun a b => f a = Ok b) l l'.
Proof.
  revert l'. induction l as [|a l IH]; intros l'; simpl.
  - split.
    + intros [= <-]. constructor.
    + intros H. inversion H. reflexivity.
  - split.
    + destruct (f a) as [b|e] eqn:Hfa; simpl; [|discriminate].
      destruct (mapR f l) as [bs|e] eqn:Hl; simpl; [|discriminate].
      intros [= <-]. constructor; [assumption|]. apply IH. reflexivity.
    + intros H. inversion H as [|a' b l1 l2 Hfa Hrest]; subst.
      rewrite Hfa. simpl. apply IH in Hrest. rewrite Hrest. reflexivity.
Qed.

Lemma mapR_length {A B} (f : A -> result B) l l' :
  mapR f l = Ok l' -> length l' = length l.
Proof.
  intros H. apply mapR_Ok_Forall2 in H.
  symmetry. eapply Forall2_length, H.
Qed.

Lemma mapR_total {A B} (f : A -> result B) l :
  Forall (fun a => exists b, f a = Ok b) l -> exists l', mapR f l = Ok l'.
Proof.
  induction 1 as [|a l [b Hb] _ [l' Hl']]; simpl.
  - eexists. reflexivity.
  - rewrite Hb. simpl. rewrite Hl'. simpl. eexists. reflexivity.
Qed.

(** ** create_duration_labels *)

Lemma index_of_sorted_bins (m : Z) :
  index_of m (sorted_set (m :: default_bins)) = Some (edges_below m).
Proof.
  unfold edges_below, sorted_set, default_bins. simpl.
  case_ints.
Qed.

Lemma create_duration_labels_eq durations max_raw :
  series_max durations = Some max_raw ->
  create_duration_labels durations =
    Ok (take (S (edges_below (Qceiling max_raw)))
             (if 120 <? Qceiling max_raw
              then default_bins ++ [Qceiling max_raw] else default_bins),
        take (edges_below (Qceiling max_raw)) default_labels).
Proof.
  intros Hmax. unfold create_duration_labels. rewrite Hmax.
  rewrite index_of_sorted_bins.
  set (m := Qceiling max_raw).
  replace (edges_below m + 1)%nat with (S (edges_below m)) by lia.
  unfold edges_below, default_bins. simpl.
  case_ints.
Qed.

Lemma edges_below_le (m : Z) : (edges_below m <= 7)%nat.
Proof. unfold edges_below, default_bins. simpl. case_ints. Qed.

Lemma series_max_nonempty durations :
  durations <> [] -> exists max_raw, series_max durations = Some max_raw.
Proof. destruct durations; [congruence|]. intros _. eexists. reflexivity. Qed.

Lemma foldl_max_spec (ds : list Q) (d : Q) :
  let m := foldl (fun m x => if Qle_bool m x then x else m) d ds in
  (d <= m)%Q /\ Forall (fun x => (x <= m)%Q) ds /\ (m = d \/ m ∈ ds).
Proof.
  revert d. induction ds as [|x ds IH]; intros d; simpl.
  - split; [apply Qle_refl|]. split; [constructor|]. left. reflexivity.
  - destruct (Qle_bool d x) eqn:Hdx.
    + destruct (IH x) as (H1 & H2 & H3).
      apply Qle_bool_iff in Hdx.
      split; [eapply Qle_trans; eassumption|].
      split; [constructor; assumption|].
      right. destruct H3 as [-> | H3]; [left|right]; done.
    + destruct (IH d) as (H1 & H2 & H3).
      assert (x <= d)%Q as Hxd.
      { apply Qlt_le_weak, Qnot_le_lt. intros H. apply Qle_bool_iff in H.
        congruence. }
      split; [assumption|].
      split; [constructor; [eapply Qle_trans; eassumption | assumption]|].
      destruct H3 as [-> | H3]; [left|right; right]; done.
Qed.

(** [series_max] is the maximum: an entry of the series that bounds
    every entry. *)
Lemma series_max_spec durations max_raw :
  series_max durations = Some max_raw ->
  max_raw ∈ durations /\ Forall (fun d => (d <= max_raw)%Q) durations.
Proof.
  destruct durations as [|d ds]; [discriminate|]. simpl. intros [= <-].
  destruct (foldl_max_spec ds d) as (H1 & H2 & H3). simpl in *.
  split.
  - destruct H3 as [-> | H3]; [left | right; assumption].
  - constructor; assumption.
Qed.

(** C10: whenever [create_duration_labels] returns, there is exactly one
    more edge than there are labels, so that the pair is a valid
    bins/labels argument for histogramming. *)
Theorem create_duration_labels_lengths durations bins labels :
  create_duration_labels durations = Ok (bins, labels) ->
  length bins = S (length labels).
Proof.
  intros Hrun.
  destruct (series_max durations) as [max_raw|] eqn:Hmax.
  - rewrite (create_duration_labels_eq _ _ Hmax) in Hrun.
    injection Hrun as <- <-.
    pose proof (edges_below_le (Qceiling max_raw)) as Hle.
    rewrite !length_take.
    destruct (120 <? Qceiling max_raw) eqn:Hbig.
    + unfold default_labels. simpl. lia.
    + assert (edges_below (Qceiling max_raw) <> 7%nat).
      { apply Z.ltb_ge in Hbig. unfold edges_below, default_bins. simpl.
        case_ints. }
      unfold default_bins, default_labels. simpl. lia.
  - unfold create_duration_labels in Hrun. rewrite Hmax in Hrun. discriminate.
Qed.

Lemma create_duration_labels_lengths_witness :
  length [0; 15; 30; 45; 60] =
  S (length ["De 0 a 15"; "De 15 a 30"; "De 30 a 45"; "De 45 a 60"]%string).
Proof.
  apply (create_duration_labels_lengths [50%Q; 20%Q]). reflexivity.
Defined.

(** On a series that is not empty the function always returns. *)
Lemma create_duration_labels_total durations :
  durations <> [] ->
  exists bins labels, create_duration_labels durations = Ok (bins, labels).
Proof.
  intros Hne. destruct (series_max_nonempty _ Hne) as [max_raw Hmax].
  rewrite (create_duration_labels_eq _ _ Hmax). eauto.
Qed.

(** C6, as stated, fails: every duration of the series [50] is at most
    120, yet the result has five edges and four labels, not the seven
    default edges with six labels. *)
Lemma create_duration_labels_not_default :
  Forall (fun d => (d <= 120)%Q) [50%Q] /\
  create_duration_labels [50%Q] =
    Ok ([0; 15; 30; 45; 60],
        ["De 0 a 15"; "De 15 a 30"; "De 30 a 45"; "De 45 a 60"]%string) /\
  create_duration_labels [50%Q] <> Ok (default_bins, take 6 default_labels).
Proof.
  split; [|split].
  - constructor; [|constructor]. unfold Qle. simpl. lia.
  - reflexivity.
  - discriminate.
Qed.

Lemma Qceiling_le_Z (q : Q) (z : Z) : (q <= inject_Z z)%Q -> Qceiling q <= z.
Proof.
  intros H. rewrite <- (Qceiling_Z z). apply Qceiling_resp_le. assumption.
Qed.

Lemma Qceiling_gt_Z (q : Q) (z : Z) : (inject_Z z < q)%Q -> z < Qceiling q.
Proof.
  intros H. apply Z.lt_nge. intros Hle.
  apply (Qlt_not_le _ _ H). eapply Qle_trans; [apply Qle_ceiling|].
  rewrite <- Zle_Qle. assumption.
Qed.

(** C6, amended: with [max_raw] the maximum of the series and [k] the
    number of default edges below its ceiling, a series whose durations
    are all at most 120 gets the first [k + 1] default edges and the
    first [k] labels (all seven edges and six labels exactly when the
    maximum exceeds 90); a series whose maximum is 150 gets the seven
    default edges followed by 150, with all seven labels. *)
Theorem create_duration_labels_edges durations max_raw :
  series_max durations = Some max_raw ->
  (Forall (fun d => (d <= 120)%Q) durations ->
   create_duration_labels durations =
     Ok (take (S (edges_below (Qceiling max_raw))) default_bins,
         take (edges_below (Qceiling max_raw)) default_labels) /\
   ((90 < max_raw)%Q ->
    create_duration_labels durations = Ok (default_bins, take 6 default_labels)) /\
   (create_duration_labels durations = Ok (default_bins, take 6 default_labels) ->
    (90 < max_raw)%Q)) /\
  ((max_raw == 150)%Q ->
   create_duration_labels durations = Ok (default_bins ++ [150], default_labels)).
Proof.
  intros Hmax. rewrite (create_duration_labels_eq _ _ Hmax).
  destruct (series_max_spec _ _ Hmax) as [Hin Hall].
  split.
  - intros Hsmall.
    assert (Qceiling max_raw <= 120) as Hle.
    { apply Qceiling_le_Z. rewrite Forall_forall in Hsmall. apply Hsmall, Hin. }
    destruct (120 <? Qceiling max_raw) eqn:Hbig; [apply Z.ltb_lt in Hbig; lia|].
    split; [reflexivity|]. split.
    + intros Hgt. apply (Qceiling_gt_Z _ 90) in Hgt.
      unfold edges_below, default_bins, default_labels. simpl.
      case_ints.
    + intros Heq. apply Qnot_le_lt. intros Hsmall90.
      apply (Qceiling_le_Z _ 90) in Hsmall90.
      revert Heq. unfold edges_below, default_bins, default_labels. simpl.
      case_ints; discriminate.
  - intros H150. rewrite (Qceiling_comp _ _ H150).
    change (Qceiling 150) with 150. reflexivity.
Qed.

Lemma create_duration_labels_edges_witness :
  create_duration_labels [100%Q; 30%Q] = Ok (default_bins, take 6 default_labels) /\
  create_duration_labels [20%Q; 150%Q] = Ok (default_bins ++ [150], default_labels).
Proof.
  split.
  - apply (create_duration_labels_edges [100%Q; 30%Q] 100%Q eq_refl).
    + repeat constructor; unfold Qle; simpl; lia.
    + unfold Qlt; simpl; lia.
  - apply (create_duration_labels_edges [20%Q; 150%Q] 150%Q eq_refl).
    reflexivity.
Defined.

(** ** swap_xy *)

Lemma Geometry_induction (P : Geometry -> Prop) :
  (forall cls cs, P (Coords cls cs)) ->
  (forall shell holes, P (Polygon shell holes)) ->
  (forall cls parts, Forall P parts -> P (Collection cls parts)) ->
  forall geom, P geom.
Proof.
  intros HC HP HM. fix IH 1. intros [cls cs|shell holes|cls parts].
  - apply HC.
  - apply HP.
  - apply HM. induction parts as [|g parts IHparts]; constructor.
    + apply IH.
    + apply IHparts.
Qed.

Lemma swap_xy_coord_twice z c c' :
  swap_xy_coord z c = Ok c' ->
  swap_xy_coord z c' = Ok c /\ is_xyz c' = is_xyz c /\ is_xyz c = z.
Proof. destruct z, c; simpl; intros [= <-]; auto. Qed.

Lemma swap_xy_coords_twice z cs cs' :
  swap_xy_coords z cs = Ok cs' ->
  swap_xy_coords z cs' = Ok cs /\ is_xyz <$> cs' = is_xyz <$> cs.
Proof.
  unfold swap_xy_coords. rewrite !mapR_Ok_Forall2.
  induction 1 as [|c c' cs cs' Hc _ [IH1 IH2]]; simpl.
  - split; [constructor | reflexivity].
  - apply swap_xy_coord_twice in Hc as (Hc1 & Hc2 & _).
    split; [constructor; assumption|].
    f_equal; [exact Hc2 | exact IH2].
Qed.

Lemma swap_holes_twice z (holes holes' : list (list Coord)) :
  mapR (swap_xy_coords z) holes = Ok holes' ->
  mapR (swap_xy_coords z) holes' = Ok holes /\
  is_xyz <$> concat holes' = is_xyz <$> concat holes.
Proof.
  rewrite !mapR_Ok_Forall2.
  induction 1 as [|h h' hs hs' Hh _ [IH1 IH2]]; simpl.
  - split; [constructor | reflexivity].
  - apply swap_xy_coords_twice in Hh as [Hh1 Hh2].
    split; [constructor; assumption|].
    rewrite !fmap_app. congruence.
Qed.

Lemma is_empty_dims g g' :
  is_xyz <$> all_coords g' = is_xyz <$> all_coords g ->
  is_empty g' = is_empty g /\ has_z g' = has_z g.
Proof.
  unfold is_empty, has_z.
  destruct (all_coords g) as [|c cs], (all_coords g') as [|c' cs'];
    simpl; try discriminate; [auto|].
  intros [= Hc _]. destruct c, c'; simpl in Hc; try discriminate; auto.
Qed.

(** A successful swap keeps the class and the dimension of every
    coordinate, and swapping its result gives the argument back. *)
Lemma swap_xy_twice geom :
  forall geom', swap_xy geom = Ok geom' ->
    swap_xy geom' = Ok geom /\
    is_xyz <$> all_coords geom' = is_xyz <$> all_coords geom.
Proof.
  induction geom as [cls cs|shell holes|cls parts IH] using Geometry_induction;
    intros geom'.
  - (* one coordinate sequence *)
    simpl. destruct (is_empty (Coords cls cs)) eqn:Hempty.
    { intros [= <-]. simpl. rewrite Hempty. auto. }
    destruct (bool_decide (cls ∈ coords_types)) eqn:Hcls.
    + simpl. destruct (swap_xy_coords _ cs) as [cs'|e] eqn:Hswap; [|discriminate].
      simpl. intros [= <-].
      apply swap_xy_coords_twice in Hswap as [Hback Hdims].
      destruct (is_empty_dims (Coords cls cs) (Coords cls cs') Hdims) as [He Hz].
      split; [|exact Hdims].
      simpl. rewrite He, Hempty, Hcls, Hz. simpl. rewrite Hback. reflexivity.
    + destruct (String.eqb cls "Polygon"); [discriminate|].
      destruct (_ || _); discriminate.
  - (* shell and holes *)
    simpl. destruct (is_empty (Polygon shell holes)) eqn:Hempty.
    { intros [= <-]. simpl. rewrite Hempty. auto. }
    simpl.
    destruct (swap_xy_coords _ shell) as [shell'|e] eqn:Hshell; [|discriminate].
    simpl.
    destruct (mapR _ holes) as [holes'|e] eqn:Hholes; [|discriminate].
    simpl. intros [= <-].
    apply swap_xy_coords_twice in Hshell as [Hshell Hd1].
    apply swap_holes_twice in Hholes as [Hholes Hd2].
    assert (is_xyz <$> all_coords (Polygon shell' holes') =
            is_xyz <$> all_coords (Polygon shell holes)) as Hdims.
    { simpl. rewrite !fmap_app. congruence. }
    destruct (is_empty_dims _ _ Hdims) as [He Hz].
    split; [|exact Hdims].
    simpl. rewrite He, Hempty, Hz. simpl. rewrite Hshell. simpl.
    rewrite Hholes. reflexivity.
  - (* parts *)
    simpl. destruct (is_empty (Collection cls parts)) eqn:Hempty.
    { intros [= <-]. simpl. rewrite Hempty. auto. }
    destruct (bool_decide (cls ∈ coords_types)) eqn:Hcls; [discriminate|].
    destruct (String.eqb cls "Polygon") eqn:Hpoly; [discriminate|].
    destruct (String.prefix "Multi" cls || String.eqb cls "GeometryCollection")
      eqn:Hmulti; [|discriminate].
    destruct (mapR swap_xy parts) as [parts'|e] eqn:Hparts; [|discriminate].
    simpl. intros [= <-].
    assert (mapR swap_xy parts' = Ok parts /\
            is_xyz <$> concat (map all_coords parts') =
            is_xyz <$> concat (map all_coords parts)) as [Hback Hdims].
    { clear Hempty. apply mapR_Ok_Forall2 in Hparts.
      rewrite mapR_Ok_Forall2.
      induction Hparts as [|g g' gs gs' Hg Hgs IHgs]; simpl.
      - split; [constructor | reflexivity].
      - inversion IH as [|? ? IHg IHrest]; subst.
        destruct (IHg _ Hg) as [Hg1 Hg2].
        destruct (IHgs IHrest) as [Hgs1 Hgs2].
        split; [constructor; assumption|].
        rewrite !fmap_app. congruence. }
    destruct (is_empty_dims (Collection cls parts) (Collection cls parts') Hdims)
      as [He Hz].
    split; [|exact Hdims].
    simpl. rewrite He, Hempty, Hcls, Hpoly, Hmulti, Hback. reflexivity.
Qed.

Lemma swap_xy_coords_total z cs :
  Forall (fun c => is_xyz c = z) cs -> exists cs', swap_xy_coords z cs = Ok cs'.
Proof.
  intros H. apply mapR_total. eapply Forall_impl; [exact H|].
  intros c <-. destruct c; simpl; eauto.
Qed.

Lemma uniform_Forall cs :
  uniform cs = true ->
  Forall (fun c => is_xyz c = match cs with XYZ _ _ _ :: _ => true | _ => false end) cs.
Proof.
  destruct cs as [|c cs]; [constructor|]. simpl. intros H.
  assert (Forall (fun c' => is_xyz c' = is_xyz c) (c :: cs)) as Hall.
  { constructor; [reflexivity|].
    apply Forall_forall. intros c' Hc'.
    rewrite forallb_forall in H. apply Bool.eqb_prop, H.
    apply list_elem_of_In, Hc'. }
  destruct c; exact Hall.
Qed.

Lemma swap_xy_total geom :
  shapely_geometry geom = true -> exists geom', swap_xy geom = Ok geom'.
Proof.
  induction geom as [cls cs|shell holes|cls parts IH] using Geometry_induction;
    simpl; intros Hwf.
  - destruct (is_empty (Coords cls cs)); [eauto|].
    apply andb_prop in Hwf as [Hcls Huni]. rewrite Hcls. simpl.
    destruct (swap_xy_coords_total (has_z (Coords cls cs)) cs) as [cs' ->];
      [|simpl; eauto].
    apply uniform_Forall, Huni.
  - destruct (is_empty (Polygon shell holes)); [eauto|]. simpl.
    apply uniform_Forall in Hwf.
    change (Forall (fun c => is_xyz c = has_z (Polygon shell holes))
                   (shell ++ concat holes)) in Hwf.
    apply Forall_app in Hwf as [Hshell Hholes].
    destruct (swap_xy_coords_total _ _ Hshell) as [shell' ->]. simpl.
    destruct (mapR_total (swap_xy_coords (has_z (Polygon shell holes))) holes)
      as [holes' ->]; [|simpl; eauto].
    apply Forall_forall. intros hole Hhole.
    apply swap_xy_coords_total. apply Forall_forall. intros c Hc.
    rewrite Forall_forall in Hholes. apply Hholes.
    apply list_elem_of_In, in_concat. exists hole.
    split; apply list_elem_of_In; assumption.
  - destruct (is_empty (Collection cls parts)); [eauto|].
    apply andb_prop in Hwf as [Hcls Hparts].
    apply bool_decide_eq_true in Hcls.
    assert (exists parts', mapR swap_xy parts = Ok parts') as [parts' Hswap].
    { apply mapR_total. rewrite forallb_forall in Hparts.
      rewrite Forall_forall in IH. apply Forall_forall. intros g Hg.
      apply IH; [assumption|]. apply Hparts, list_elem_of_In, Hg. }
    rewrite Hswap.
    repeat (apply elem_of_cons in Hcls as [-> | Hcls]; [simpl; eauto|]).
    inversion Hcls.
Qed.

(** C7: on every point, line, ring, polygon with or without holes,
    multi-part geometry and collection, [swap_xy] returns, and swapping
    its result returns the original geometry, coordinate by coordinate. *)
Theorem swap_xy_involution geom :
  shapely_geometry geom = true ->
  exists geom', swap_xy geom = Ok geom' /\ swap_xy geom' = Ok geom.
Proof.
  intros Hwf. destruct (swap_xy_total _ Hwf) as [geom' Hswap].
  exists geom'. split; [assumption|].
  apply swap_xy_twice, Hswap.
Qed.

Lemma swap_xy_involution_witness :
  exists geom',
    swap_xy (Collection "GeometryCollection"
               [Coords "Point" [XYZ 1 2 3];
                Coords "LineString" [XY 0 1; XY 2 3];
                Collection "MultiPolygon"
                  [Polygon [XY 0 0; XY 4 0; XY 4 5; XY 0 0]
                           [[XY 1 1; XY 2 1; XY 2 3; XY 1 1]]]]) = Ok geom' /\
    swap_xy geom' =
      Ok (Collection "GeometryCollection"
            [Coords "Point" [XYZ 1 2 3];
             Coords "LineString" [XY 0 1; XY 2 3];
             Collection "MultiPolygon"
               [Polygon [XY 0 0; XY 4 0; XY 4 5; XY 0 0]
                        [[XY 1 1; XY 2 1; XY 2 3; XY 1 1]]]]).
Proof.
  apply (swap_xy_involution
           (Collection "GeometryCollection"
              [Coords "Point" [XYZ 1 2 3];
               Coords "LineString" [XY 0 1; XY 2 3];
               Collection "MultiPolygon"
                 [Polygon [XY 0 0; XY 4 0; XY 4 5; XY 0 0]
                          [[XY 1 1; XY 2 1; XY 2 3; XY 1 1]]]])).
  reflexivity.
Defined.

Example swap_xy_polygon_with_hole :
  swap_xy (Polygon [XY 0 0; XY 4 0; XY 4 5; XY 0 0]
                   [[XY 1 1; XY 2 1; XY 2 3; XY 1 1]]) =
  Ok (Polygon [XY 0 0; XY 0 4; XY 5 4; XY 0 0]
              [[XY 1 1; XY 1 2; XY 3 2; XY 1 1]]).
Proof. reflexivity. Qed.

Example swap_xy_unrecognized :
  swap_xy (Coords "Circle" [XY 0 1]) =
    Err (ValueError "Type 'Circle' not recognized").
Proof. reflexivity. Qed.

(** ** filter_population *)

Lemma between_Ok c l r b :
  between c (Some l) (Some r) = Ok b ->
  b = true <-> exists q, c = Some (Num q) /\ (l <= q)%Q /\ (q <= r)%Q.
Proof.
  destruct c as [[q|s]|]; simpl; [|discriminate|].
  - intros [= <-]. rewrite andb_true_iff, !Qle_bool_iff. split.
    + intros [? ?]. eauto.
    + intros (q' & [= <-] & ? & ?). auto.
  - intros [= <-]. split; [discriminate|]. intros (? & [=] & _).
Qed.

Lemma between_total c l r :
  (forall s, c <> Some (Str s)) -> exists b, between c l r = Ok b.
Proof.
  intros Hc. destruct c as [[q|s]|]; simpl.
  - destruct l, r; eauto.
  - destruct (Hc s eq_refl).
  - eauto.
Qed.

Lemma select_zip_filter {A} (P : A -> Prop) `{!forall a, Decision (P a)}
    (l : list A) (m1 m2 : list bool) (f1 f2 : A -> result bool) :
  Forall2 (fun a b => f1 a = Ok b) l m1 ->
  Forall2 (fun a b => f2 a = Ok b) l m2 ->
  (forall a b1 b2, f1 a = Ok b1 -> f2 a = Ok b2 -> (b1 && b2 = true <-> P a)) ->
  select (zip_with andb m1 m2) l = filter P l.
Proof.
  intros H1. revert m2. induction H1 as [|a b1 l m1 Ha1 _ IH]; intros m2 H2 HP.
  - inversion H2. reflexivity.
  - inversion H2 as [|a' b2 l' m2' Ha2 H2']; subst. simpl.
    rewrite filter_cons. rewrite (IH _ H2' HP).
    specialize (HP a b1 b2 Ha1 Ha2).
    destruct (b1 && b2); destruct (decide (P a)) as [Hp|Hn]; try reflexivity.
    + destruct Hn. apply HP. reflexivity.
    + apply HP in Hp. discriminate.
Qed.

Lemma located_points (l : list Row) (gs : list Geometry) :
  Forall2 (fun r g => point_from_xy (attrs r !! "longitude")
                                    (attrs r !! "latitude") = Ok g) l gs ->
  Forall2 located l (zip_with set_geometry l gs).
Proof.
  induction 1 as [|r g l gs Hg _ IH]; simpl; constructor; [|exact IH].
  unfold located, set_geometry. simpl.
  split; [reflexivity|]. split; [reflexivity|].
  unfold point_from_xy in Hg.
  destruct (attrs r !! "longitude") as [[lon|]|]; try discriminate.
  destruct (attrs r !! "latitude") as [[lat|]|]; try discriminate.
  injection Hg as <-. eauto.
Qed.

Lemma within_bounds_attrs box r1 r2 :
  attrs r1 = attrs r2 -> within_bounds box r1 -> within_bounds box r2.
Proof. unfold within_bounds. intros ->. trivial. Qed.

Lemma filter_population_rows pop_df polygon_gdf box out :
  total_bounds polygon_gdf = Some box ->
  filter_population pop_df polygon_gdf = Ok out ->
  Forall2 located (filter (within_bounds box) (rows pop_df)) (rows out).
Proof.
  intros Hbox. unfold filter_population. rewrite Hbox.
  destruct box as [[[minx miny] maxx] maxy]. simpl.
  unfold column.
  destruct (bool_decide ("longitude" ∈ columns pop_df)); [|discriminate]. simpl.
  destruct (mapR _ _) as [in_x|e] eqn:Hx; [|discriminate]. simpl.
  destruct (bool_decide ("latitude" ∈ columns pop_df)); [|discriminate]. simpl.
  destruct (mapR _ ((fun r => attrs r !! "latitude") <$> rows pop_df))
    as [in_y|e] eqn:Hy; [|discriminate]. simpl.
  destruct (mapR _ (select _ _)) as [geometry_|e] eqn:Hg; [|discriminate]. simpl.
  intros [= <-]. simpl.
  apply mapR_Ok_Forall2, Forall2_fmap_l in Hx.
  apply mapR_Ok_Forall2, Forall2_fmap_l in Hy.
  apply mapR_Ok_Forall2 in Hg.
  assert (select (zip_with andb in_x in_y) (rows pop_df) =
          filter (within_bounds (minx, miny, maxx, maxy)) (rows pop_df)) as Hsel.
  { apply (select_zip_filter _ _ _ _ _ _ Hx Hy).
    intros r b1 b2 H1 H2. simpl in H1, H2.
    apply between_Ok in H1, H2. rewrite andb_true_iff, H1, H2.
    unfold within_bounds. split.
    - intros [(lon & -> & ? & ?) (lat & -> & ? & ?)]. auto.
    - destruct (attrs r !! "longitude") as [[lon|]|]; try tauto.
      destruct (attrs r !! "latitude") as [[lat|]|]; try tauto.
      intros (? & ? & ? & ?). split; eauto. }
  rewrite Hsel in Hg |- *.
  apply located_points, Hg.
Qed.

Lemma filter_population_total pop_df polygon_gdf :
  numeric_positions pop_df ->
  exists out, filter_population pop_df polygon_gdf = Ok out.
Proof.
  intros (Hlon & Hlat & Hnum). unfold filter_population, column.
  rewrite !bool_decide_eq_true_2 by assumption. simpl.
  destruct (mapR_total
              (fun c => between c ((fun '(minx, _, _, _) => minx) <$> total_bounds polygon_gdf)
                                  ((fun '(_, _, maxx, _) => maxx) <$> total_bounds polygon_gdf))
              ((fun r => attrs r !! "longitude") <$> rows pop_df)) as [in_x Hx].
  { apply Forall_fmap. eapply Forall_impl; [exact Hnum|].
    intros r [Hr _]. apply between_total, Hr. }
  rewrite Hx. simpl.
  destruct (mapR_total
              (fun c => between c ((fun '(_, miny, _, _) => miny) <$> total_bounds polygon_gdf)
                                  ((fun '(_, _, _, maxy) => maxy) <$> total_bounds polygon_gdf))
              ((fun r => attrs r !! "latitude") <$> rows pop_df)) as [in_y Hy].
  { apply Forall_fmap. eapply Forall_impl; [exact Hnum|].
    intros r [_ Hr]. apply between_total, Hr. }
  rewrite Hy. simpl.
  destruct (mapR_total
              (fun r => point_from_xy (attrs r !! "longitude") (attrs r !! "latitude"))
              (select (zip_with andb in_x in_y) (rows pop_df))) as [geometry_ Hg];
    [|rewrite Hg; simpl; eauto].
  apply mapR_Ok_Forall2, Forall2_fmap_l in Hx.
  apply mapR_Ok_Forall2, Forall2_fmap_l in Hy.
  clear Hnum. revert in_y Hy.
  induction Hx as [|r b1 l in_x Hr1 _ IH]; intros in_y Hy.
  - inversion Hy. constructor.
  - inversion Hy as [|r' b2 l' in_y' Hr2 Hy']; subst. simpl.
    destruct (b1 && b2) eqn:Hb; [|apply IH, Hy'].
    constructor; [|apply IH, Hy'].
    apply andb_prop in Hb as [-> ->]. simpl in Hr1, Hr2.
    destruct (attrs r !! "longitude") as [[lon|]|]; simpl in Hr1;
      try discriminate.
    destruct (attrs r !! "latitude") as [[lat|]|]; simpl in Hr2;
      try discriminate.
    simpl. eauto.
Qed.

(** C3: with (minx, miny, maxx, maxy) the bounds of the polygon
    collection, [filter_population] returns, on numeric positions, the
    rows with minx ≤ longitude ≤ maxx and miny ≤ latitude ≤ maxy, in
    their order and each with the point (longitude, latitude) as
    geometry: a row is kept exactly when it is within the bounds. *)
Theorem filter_population_bounds pop_df polygon_gdf box :
  total_bounds polygon_gdf = Some box ->
  (numeric_positions pop_df ->
   exists out, filter_population pop_df polygon_gdf = Ok out) /\
  (forall out, filter_population pop_df polygon_gdf = Ok out ->
     Forall2 located (filter (within_bounds box) (rows pop_df)) (rows out) /\
     (forall r, r ∈ rows pop_df ->
        (exists r', r' ∈ rows out /\ located r r') <-> within_bounds box r)).
Proof.
  intros Hbox. split; [apply filter_population_total|].
  intros out Hout.
  pose proof (filter_population_rows _ _ _ _ Hbox Hout) as Hrows.
  split; [exact Hrows|].
  intros r Hr. split.
  - intros (r' & Hr' & _ & Hattrs & _).
    destruct (proj1 (list_elem_of_lookup _ _) Hr') as [i Hi].
    destruct (Forall2_lookup_r _ _ _ _ _ Hrows Hi) as (r0 & Hr0 & _ & Hattrs0 & _).
    apply list_elem_of_lookup_2, list_elem_of_filter in Hr0 as [Hin0 _].
    eapply within_bounds_attrs; [|exact Hin0]. congruence.
  - intros Hin.
    assert (r ∈ filter (within_bounds box) (rows pop_df)) as Hkept
      by (apply list_elem_of_filter; auto).
    destruct (proj1 (list_elem_of_lookup _ _) Hkept) as [i Hi].
    destruct (Forall2_lookup_l _ _ _ _ _ Hrows Hi) as (r' & Hr' & Hloc).
    exists r'. split; [eapply list_elem_of_lookup_2, Hr' | exact Hloc].
Qed.

(** ** gen_hexagons *)

Section gen_hexagons_properties.
Variable polyfill : Geometry -> Z -> result (list string).
Variable h3_to_geo : string -> Q * Q.
Variable h3_to_geo_boundary : string -> list (Q * Q).

Local Abbreviation centroid := (hexagon_centroid h3_to_geo).
Local Abbreviation boundary := (hexagon_polygon h3_to_geo_boundary).

(** The three accumulators stay aligned: the centroids and polygons
    are those of the identifiers, in the same order. *)
Lemma add_hexagons_aligned hexagons ids :
  foldl (add_hexagon h3_to_geo h3_to_geo_boundary)
        (centroid <$> ids, boundary <$> ids, ids) hexagons =
  (centroid <$> (ids ++ hexagons), boundary <$> (ids ++ hexagons),
   ids ++ hexagons).
Proof.
  revert ids. induction hexagons as [|h hexagons IH]; intros ids; simpl.
  - rewrite app_nil_r. reflexivity.
  - replace ((centroid <$> ids) ++ [centroid h]) with (centroid <$> (ids ++ [h]))
      by (rewrite fmap_app; reflexivity).
    replace ((boundary <$> ids) ++ [boundary h]) with (boundary <$> (ids ++ [h]))
      by (rewrite fmap_app; reflexivity).
    rewrite IH, <- app_assoc. reflexivity.
Qed.

Lemma polyfill_rows_aligned resolution city_poly ids cs ps ids' :
  polyfill_rows polyfill h3_to_geo h3_to_geo_boundary resolution city_poly
                (centroid <$> ids, boundary <$> ids, ids) = Ok (cs, ps, ids') ->
  cs = centroid <$> ids' /\ ps = boundary <$> ids'.
Proof.
  revert ids. induction city_poly as [|geo city_poly IH]; intros ids; simpl.
  - intros [= <- <- <-]. auto.
  - destruct geo as [g|]; simpl; [|discriminate].
    destruct (polyfill g resolution) as [hexagons|e]; simpl; [|discriminate].
    rewrite add_hexagons_aligned. apply IH.
Qed.

Lemma frame_of_cell_rows (shape : string -> Geometry) ids :
  rows (frame_of ids (shape <$> ids)) = cell_row shape <$> imap pair ids.
Proof.
  unfold frame_of. simpl.
  assert (forall (k : nat),
            imap (fun i '(d, g) => mkRow (Z.of_nat (k + i)) (Some g) {[ "0" := Str d ]})
                 (zip ids (shape <$> ids)) =
            cell_row shape <$> imap (fun i h => (k + i, h)%nat) ids) as H.
  { induction ids as [|h ids IH]; intros k; [reflexivity|].
    simpl. rewrite Nat.add_0_r. f_equal.
    etransitivity; [|etransitivity; [apply (IH (S k))|]].
    - apply imap_ext. intros i [d g] _. simpl. repeat f_equal. lia.
    - f_equal. apply imap_ext. intros i h0 _. simpl. f_equal. lia. }
  apply (H 0%nat).
Qed.

Lemma same_cells_cell_row (shape : string -> Geometry) p q :
  same_cells (cell_row shape p) (cell_row shape q) = bool_decide (p.2 = q.2).
Proof.
  unfold same_cells, cell_row. simpl.
  apply bool_decide_ext. split.
  - intros [_ Hattrs].
    assert (({["0" := Str p.2]} : gmap string Cell) !! "0" =
            ({["0" := Str q.2]} : gmap string Cell) !! "0") as H
      by (rewrite Hattrs; reflexivity).
    rewrite !lookup_singleton_eq in H. congruence.
  - intros ->. auto.
Qed.

Lemma drop_duplicates_cell_rows (shape : string -> Geometry) seen todo :
  drop_duplicates_rows (cell_row shape <$> seen) (cell_row shape <$> todo) =
  cell_row shape <$> first_occurrences (seen.*2) todo.
Proof.
  revert seen. induction todo as [|p todo IH]; intros seen; [reflexivity|].
  rewrite fmap_cons. cbn [drop_duplicates_rows first_occurrences].
  assert (existsb (same_cells (cell_row shape p)) (cell_row shape <$> seen) =
          bool_decide (p.2 ∈ seen.*2)) as ->.
  { induction seen as [|q seen IHseen]; [reflexivity|].
    rewrite !fmap_cons. cbn [existsb]. rewrite same_cells_cell_row, IHseen.
    destruct (decide (p.2 = q.2)) as [Heq|Hne].
    - rewrite (bool_decide_eq_true_2 _ Heq).
      rewrite (bool_decide_eq_true_2 (p.2 ∈ q.2 :: seen.*2)); [reflexivity|].
      rewrite Heq. left.
    - rewrite (bool_decide_eq_false_2 _ Hne). simpl.
      apply bool_decide_ext. rewrite elem_of_cons. tauto. }
  destruct (bool_decide (p.2 ∈ seen.*2)).
  - apply IH.
  - rewrite fmap_cons. f_equal. apply (IH (p :: seen)).
Qed.

Lemma first_occurrences_NoDup seen todo :
  NoDup ((first_occurrences seen todo).*2) /\
  (forall h, h ∈ (first_occurrences seen todo).*2 <-> h ∈ todo.*2 /\ h ∉ seen).
Proof.
  revert seen. induction todo as [|p todo IH]; intros seen; simpl.
  - split; [constructor|]. intros h. split; [inversion 1 | intros [H _]; inversion H].
  - destruct (decide (p.2 ∈ seen)) as [Hin|Hnin].
    + rewrite (bool_decide_eq_true_2 _ Hin).
      destruct (IH seen) as [Hnd Hmem]. split; [assumption|].
      intros h. rewrite Hmem, elem_of_cons. split; [tauto|].
      intros [[-> | H] Hn]; tauto.
    + rewrite (bool_decide_eq_false_2 _ Hnin).
      destruct (IH (p.2 :: seen)) as [Hnd Hmem]. split.
      * rewrite fmap_cons. constructor; [|assumption].
        rewrite Hmem, elem_of_cons. tauto.
      * intros h. rewrite fmap_cons, !elem_of_cons, Hmem, elem_of_cons.
        destruct (decide (h = p.2)) as [->|Hne]; tauto.
Qed.

Lemma hex_ids_cell_rows (shape : string -> Geometry) (l : list (nat * string)) :
  (fun r => attrs r !! "0") <$> (cell_row shape <$> l) =
  (fun h => Some (Str h)) <$> l.*2.
Proof.
  rewrite <- !list_fmap_compose.
  apply list_fmap_ext. intros i p _. simpl. apply lookup_singleton_eq.
Qed.

Lemma labels_cell_rows (shape : string -> Geometry) (l : list (nat * string)) :
  index <$> (cell_row shape <$> l) = Z.of_nat <$> l.*1.
Proof. rewrite <- !list_fmap_compose. reflexivity. Qed.

(** C4: the cell identifiers of the hexagon output are pairwise
    distinct, and the centroid output carries the same identifiers, on
    rows with the same labels and in the same order, so that cells and
    centroids correspond one to one. *)
Theorem gen_hexagons_identifiers resolution city city_hexagons city_centroids :
  gen_hexagons polyfill h3_to_geo h3_to_geo_boundary resolution city =
    Ok (city_hexagons, city_centroids) ->
  NoDup (hex_ids city_hexagons) /\
  hex_ids city_centroids = hex_ids city_hexagons /\
  labels city_centroids = labels city_hexagons /\
  (forall id, id ∈ hex_ids city_centroids <-> id ∈ hex_ids city_hexagons).
Proof.
  unfold gen_hexagons.
  destruct (polyfill_rows _ _ _ _ _ _) as [[[cs ps] ids]|e] eqn:Hfill;
    simpl; [|discriminate].
  apply (polyfill_rows_aligned _ _ []) in Hfill as [-> ->].
  intros [= <- <-]. unfold drop_duplicates, hex_ids, labels. cbn [rows].
  pose proof (frame_of_cell_rows boundary ids) as Hb.
  pose proof (frame_of_cell_rows centroid ids) as Hc.
  unfold frame_of in Hb, Hc. cbn [rows] in Hb, Hc. rewrite Hb, Hc.
  rewrite (drop_duplicates_cell_rows boundary []).
  rewrite (drop_duplicates_cell_rows centroid []).
  rewrite !hex_ids_cell_rows, !labels_cell_rows.
  split; [|split; [reflexivity|split; [reflexivity|tauto]]].
  apply NoDup_fmap_2; [intros ? ? [=]; congruence|].
  apply first_occurrences_NoDup.
Qed.

(** The tiler returns when every row has a geometry and the library
    fills each of the exploded polygons. *)
Lemma gen_hexagons_returns resolution city :
  Forall (fun geo => exists g hexagons,
            geo = Some g /\ polyfill g resolution = Ok hexagons)
         (explode city) ->
  exists city_hexagons city_centroids,
    gen_hexagons polyfill h3_to_geo h3_to_geo_boundary resolution city =
      Ok (city_hexagons, city_centroids).
Proof.
  intros Hfill. unfold gen_hexagons.
  assert (forall acc, exists acc',
            polyfill_rows polyfill h3_to_geo h3_to_geo_boundary resolution
                          (explode city) acc = Ok acc') as Hrows.
  { induction Hfill as [|geo l (g & hexagons & -> & Hg) _ IH]; intros acc;
      simpl; [eauto|].
    rewrite Hg. simpl. apply IH. }
  destruct (Hrows ([], [], [])) as [[[cs ps] ids] ->]. simpl. eauto.
Qed.
End gen_hexagons_properties.

(** ** The store *)

Lemma world_eta (w : World) : mkWorld (heap w) (stdout w) = w.
Proof. destruct w. reflexivity. Qed.

Lemma for_each_cons {A} (x : A) (l : list A) (body : A -> M unit) w :
  for_each (x :: l) body w =
  match body x w with
  | (Ok _, w') => for_each l body w'
  | (Err e, w') => (Err e, w')
  end.
Proof. reflexivity. Qed.

Lemma bind_run {A B} (c : M A) (k : A -> M B) w :
  (c ≫= k) w =
  match c w with
  | (Ok a, w') => k a w'
  | (Err e, w') => (Err e, w')
  end.
Proof. reflexivity. Qed.

Lemma deref_run r w df : heap w !! r = Some df -> deref r w = (Ok df, w).
Proof. unfold deref. intros ->. reflexivity. Qed.

Lemma lift_bind_run {A B} (r : result A) (k : A -> M B) w :
  (lift r ≫= k) w = match r with Ok a => k a w | Err e => (Err e, w) end.
Proof. destruct r; reflexivity. Qed.

Lemma for_each_modify {A} (g : ref) (f : A -> Frame -> Frame) (l : list A) :
  forall w df,
    heap w !! g = Some df ->
    for_each l (fun x => modify g (fun d => Ok (f x d))) w =
    (Ok tt, mkWorld (<[g := foldl (fun d x => f x d) df l]> (heap w)) (stdout w)).
Proof.
  induction l as [|x l IH]; intros w df Hg; simpl.
  - rewrite (insert_id _ _ _ Hg), world_eta. reflexivity.
  - unfold mbind, M_bind. unfold modify at 1. rewrite Hg.
    rewrite (IH _ (f x df)) by apply lookup_insert_eq.
    simpl. rewrite insert_insert_eq. reflexivity.
Qed.

(** ** Writing cells *)

Lemma set_cell_lookup key v r c :
  attrs (set_cell key v r) !! c = if bool_decide (c = key) then v else attrs r !! c.
Proof.
  unfold set_cell. simpl. case_bool_decide as Hc.
  - subst c. destruct v; [apply lookup_insert_eq | apply lookup_delete_eq].
  - destruct v; [apply lookup_insert_ne | apply lookup_delete_ne]; congruence.
Qed.

Lemma write_cells_spec m stats r :
  index (write_cells m stats r) = index r /\
  geometry (write_cells m stats r) = geometry r /\
  forall c, attrs (write_cells m stats r) !! c =
            if bool_decide (c ∈ stats) then m !! c else attrs r !! c.
Proof.
  unfold write_cells. revert r. induction stats as [|s stats IH]; intros r; simpl.
  - auto.
  - destruct (IH (set_cell s (m !! s) r)) as (Hi & Hg & Ha).
    split; [exact Hi|]. split; [exact Hg|].
    intros c. rewrite Ha, set_cell_lookup.
    destruct (decide (c = s)) as [->|Hne].
    + rewrite (bool_decide_eq_true_2 (s ∈ s :: stats)) by left.
      rewrite (bool_decide_eq_true_2 (s = s)) by reflexivity.
      case_bool_decide; reflexivity.
    + rewrite (bool_decide_eq_false_2 (c = s)) by assumption.
      assert (bool_decide (c ∈ stats) = bool_decide (c ∈ s :: stats)) as ->;
        [|reflexivity].
      apply bool_decide_ext. rewrite elem_of_cons. tauto.
Qed.

Lemma rows_write_stats label m stats df :
  rows (write_stats label m stats df) =
  (fun r => if bool_decide (index r = label) then write_cells m stats r else r)
    <$> rows df.
Proof.
  unfold write_stats, write_cells. revert df.
  induction stats as [|s stats IH]; intros df; simpl.
  - rewrite <- (list_fmap_id (rows df)) at 1. apply list_fmap_ext.
    intros i r _. case_bool_decide; reflexivity.
  - rewrite IH. unfold loc_set. simpl. rewrite <- list_fmap_compose.
    apply list_fmap_ext. intros i r _. simpl.
    destruct (decide (index r = label)) as [Heq|Hne].
    + rewrite (bool_decide_eq_true_2 _ Heq). simpl.
      rewrite (bool_decide_eq_true_2 _ Heq). reflexivity.
    + rewrite (bool_decide_eq_false_2 _ Hne).
      rewrite (bool_decide_eq_false_2 _ Hne). reflexivity.
Qed.

(** ** osmnx_graph_download *)

Lemma cells_lookup (m : gmap string Stat) stat :
  cells m !! stat =
  match m !! stat with Some (Scalar c) => Some c | _ => None end.
Proof.
  unfold cells. rewrite lookup_omap.
  destruct (m !! stat) as [[c|err]|]; reflexivity.
Qed.

Lemma raised_None m stats : raised m stats = None -> written m stats = stats.
Proof.
  induction stats as [|stat stats IH]; [reflexivity|]. simpl.
  destruct (m !! stat) as [[c|err]|]; try discriminate;
    intros H; rewrite (IH H); reflexivity.
Qed.

Lemma written_sub m stats stat : stat ∈ written m stats -> stat ∈ stats.
Proof.
  induction stats as [|s stats IH]; simpl; [trivial|].
  destruct (m !! s) as [[c|err]|]; rewrite ?elem_of_cons;
    try (intros [->|H]; [left; reflexivity|right; apply IH, H]).
  inversion 1.
Qed.

(** One loop of writes: it stops at the first write that raises, with the
    writes before it made. *)
Lemma for_each_write (g : ref) (label : Z) (m : gmap string Stat)
    (stats : list string) :
  forall w df,
    heap w !! g = Some df ->
    for_each stats (fun stat => modify g (loc_write label stat (m !! stat))) w =
    (match raised m stats with None => Ok tt | Some err => Err err end,
     mkWorld (<[g := write_stats label (cells m) (written m stats) df]> (heap w))
             (stdout w)).
Proof.
  induction stats as [|stat stats IH]; intros w df Hg.
  - simpl. rewrite (insert_id _ _ _ Hg), world_eta. reflexivity.
  - rewrite for_each_cons. unfold modify at 1. rewrite Hg.
    cbn [written raised]. pose proof (cells_lookup m stat) as Hcell.
    destruct (m !! stat) as [[c|err]|]; cbn [loc_write].
    + rewrite (IH _ (loc_set label stat (Some c) df)) by apply lookup_insert_eq.
      cbn [heap stdout]. rewrite insert_insert_eq.
      unfold write_stats. cbn [foldl]. rewrite Hcell. reflexivity.
    + unfold write_stats. cbn [foldl].
      rewrite (insert_id _ _ _ Hg), world_eta. reflexivity.
    + rewrite (IH _ (loc_set label stat None df)) by apply lookup_insert_eq.
      cbn [heap stdout]. rewrite insert_insert_eq.
      unfold write_stats. cbn [foldl]. rewrite Hcell. reflexivity.
Qed.

Section osmnx_properties.
Variable Graph : Type.
Variable ox_graph_from_polygon : Geometry -> string -> result Graph.
Variable ox_basic_stats : Graph -> result (gmap string Stat).
Variable ox_extended_stats :
  Graph -> bool -> bool -> bool -> bool -> bool -> result (gmap string Stat).
Variables (net_type : string) (basic_stats extended_stats : list string).
Variables (connectivity anc ecc bc cc : bool).

Local Abbreviation stats_of :=
  (row_stats Graph ox_graph_from_polygon ox_basic_stats ox_extended_stats
             net_type connectivity anc ecc bc cc).
Local Abbreviation basics := (basic_written basic_stats).
Local Abbreviation extendeds := (extended_written basic_stats extended_stats).
Local Abbreviation write_err := (write_error basic_stats extended_stats).
Local Abbreviation error_of :=
  (row_error Graph ox_graph_from_polygon ox_basic_stats ox_extended_stats
             net_type basic_stats extended_stats connectivity anc ecc bc cc).
Local Abbreviation stamped :=
  (stamp Graph ox_graph_from_polygon ox_basic_stats ox_extended_stats
         net_type basic_stats extended_stats connectivity anc ecc bc cc).
Local Abbreviation batched :=
  (batch Graph ox_graph_from_polygon ox_basic_stats ox_extended_stats
         net_type basic_stats extended_stats connectivity anc ecc bc cc).
Local Abbreviation failed :=
  (failures Graph ox_graph_from_polygon ox_basic_stats ox_extended_stats
            net_type basic_stats extended_stats connectivity anc ecc bc cc).
Local Abbreviation outcome :=
  (row_outcome Graph ox_graph_from_polygon ox_basic_stats ox_extended_stats
               net_type basic_stats extended_stats connectivity anc ecc bc cc).
Local Abbreviation good :=
  (succeeds Graph ox_graph_from_polygon ox_basic_stats ox_extended_stats
            net_type connectivity anc ecc bc cc).
Local Abbreviation complete :=
  (completes Graph ox_graph_from_polygon ox_basic_stats ox_extended_stats
             net_type basic_stats extended_stats connectivity anc ecc bc cc).
Local Abbreviation download :=
  (osmnx_graph_download Graph ox_graph_from_polygon ox_basic_stats
                        ox_extended_stats).

(** The [try] block raises before it has written anything when the
    library raises; otherwise it makes the writes of the row as far as
    they go and raises with the first of them that does. *)
Lemma annotate_row_run gdf label row w cur :
  heap w !! gdf = Some cur ->
  annotate_row Graph ox_graph_from_polygon ox_basic_stats ox_extended_stats
               gdf net_type basic_stats extended_stats
               connectivity anc ecc bc cc label row w =
  match stats_of row with
  | Ok stats =>
      (match write_err stats with None => Ok tt | Some err => Err err end,
       mkWorld (<[gdf := write_stats label (cells stats.2) (extendeds stats)
                           (write_stats label (cells stats.1) (basics stats)
                                        cur)]> (heap w))
               (stdout w))
  | Err err => (Err err, w)
  end.
Proof.
  intros Hcur. unfold annotate_row, row_stats. run_binds.
  destruct (row_geometry row) as [g|e]; [|reflexivity].
  destruct (ox_graph_from_polygon g net_type) as [graph|e]; [|reflexivity].
  destruct (ox_basic_stats graph) as [b|e]; [|reflexivity].
  destruct (ox_extended_stats graph connectivity anc ecc bc cc) as [x|e];
    [|reflexivity].
  unfold basic_written, extended_written, write_error. cbn [fst snd].
  rewrite (for_each_write gdf label b basic_stats w cur Hcur).
  destruct (raised b basic_stats) as [err|]; [reflexivity|].
  rewrite (for_each_write gdf label x extended_stats _ _ (lookup_insert_eq _ _ _)).
  cbn [heap stdout]. rewrite insert_insert_eq. reflexivity.
Qed.

Lemma batched_cons t todo cur :
  batched (t :: todo) cur =
  batched todo
    match stats_of t with
    | Ok stats =>
        write_stats (index t) (cells stats.2) (extendeds stats)
          (write_stats (index t) (cells stats.1) (basics stats) cur)
    | Err _ => cur
    end.
Proof. reflexivity. Qed.

Lemma failed_cons t todo :
  failed (t :: todo) =
  match error_of t with
  | None => failed todo
  | Some err => OnRecord (index t) err :: failed todo
  end.
Proof. unfold failures. simpl. destruct (error_of t); reflexivity. Qed.

(** The loop never raises: a row that raises adds one line to the output
    and leaves the frame with the writes made before the exception. *)
Lemma rows_loop_run gdf todo :
  forall w cur,
    heap w !! gdf = Some cur ->
    for_each todo (fun row =>
        let index := index row in
        try_except
          (annotate_row Graph ox_graph_from_polygon ox_basic_stats
                        ox_extended_stats gdf net_type basic_stats
                        extended_stats connectivity anc ecc bc cc index row)
          (fun err => print (OnRecord index err))) w =
    (Ok tt, mkWorld (<[gdf := batched todo cur]> (heap w))
                    (stdout w ++ failed todo)).
Proof.
  induction todo as [|t todo IH]; intros w cur Hcur.
  - simpl. rewrite (insert_id _ _ _ Hcur), app_nil_r, world_eta. reflexivity.
  - rewrite batched_cons, failed_cons.
    cbn [for_each]. run_binds. unfold try_except at 1.
    rewrite (annotate_row_run _ _ _ _ _ Hcur). unfold row_error.
    destruct (stats_of t) as [stats|err] eqn:Hstats.
    + destruct (write_err stats) as [err|].
      * unfold print. rewrite (IH _ _ (lookup_insert_eq _ _ _)).
        cbn [heap stdout]. rewrite insert_insert_eq, <- app_assoc. reflexivity.
      * rewrite (IH _ _ (lookup_insert_eq _ _ _)).
        cbn [heap stdout]. rewrite insert_insert_eq. reflexivity.
    + unfold print. rewrite (IH _ cur) by exact Hcur.
      cbn [heap stdout]. rewrite <- app_assoc. reflexivity.
Qed.

Lemma osmnx_graph_download_run gdf w df :
  heap w !! gdf = Some df ->
  download gdf net_type basic_stats extended_stats connectivity anc ecc bc cc w =
  (Ok gdf, mkWorld (<[gdf := batched (rows df) df]> (heap w))
                   (stdout w ++ failed (rows df))).
Proof.
  intros Hdf. unfold osmnx_graph_download. run_binds.
  unfold deref at 1. rewrite Hdf.
  rewrite (rows_loop_run _ _ _ _ Hdf). reflexivity.
Qed.

Lemma stamped_index t r : index (stamped t r) = index r.
Proof.
  unfold stamp, row_written. destruct (stats_of t) as [stats|e]; [|reflexivity].
  destruct (write_cells_spec (cells stats.2) (extendeds stats)
              (write_cells (cells stats.1) (basics stats) r)) as (-> & _).
  apply write_cells_spec.
Qed.

Lemma rows_batch todo :
  forall cur,
    rows (batched todo cur) =
    (fun r => foldl (fun r t => if bool_decide (index r = index t)
                                then stamped t r else r) r todo) <$> rows cur.
Proof.
  induction todo as [|t todo IH]; intros cur.
  - simpl. symmetry. apply list_fmap_id.
  - rewrite batched_cons, IH. cbn [foldl].
    assert (rows match stats_of t with
                 | Ok stats =>
                     write_stats (index t) (cells stats.2) (extendeds stats)
                       (write_stats (index t) (cells stats.1) (basics stats) cur)
                 | Err _ => cur
                 end =
            (fun r => if bool_decide (index r = index t) then stamped t r else r)
              <$> rows cur) as ->.
    { unfold stamp, row_written. destruct (stats_of t) as [stats|e].
      - rewrite !rows_write_stats, <- list_fmap_compose.
        apply list_fmap_ext. intros i r _. simpl.
        destruct (decide (index r = index t)) as [Heq|Hne].
        + rewrite (bool_decide_eq_true_2 _ Heq).
          destruct (write_cells_spec (cells stats.1) (basics stats) r) as (Hi & _).
          rewrite bool_decide_eq_true_2 by congruence. reflexivity.
        + rewrite (bool_decide_eq_false_2 _ Hne).
          rewrite (bool_decide_eq_false_2 _ Hne). reflexivity.
      - rewrite <- (list_fmap_id (rows cur)) at 1. apply list_fmap_ext.
        intros i r _. simpl. case_bool_decide; reflexivity. }
    rewrite <- list_fmap_compose. reflexivity.
Qed.

Lemma stamps_elsewhere todo r :
  index r ∉ index <$> todo ->
  foldl (fun r t => if bool_decide (index r = index t) then stamped t r else r)
        r todo = r.
Proof.
  induction todo as [|t todo IH]; intros Hnot; [reflexivity|].
  simpl. rewrite fmap_cons, not_elem_of_cons in Hnot. destruct Hnot as [Hne Hnot].
  rewrite (bool_decide_eq_false_2 _ Hne). apply IH, Hnot.
Qed.

Lemma stamps_own todo r :
  NoDup (index <$> todo) -> r ∈ todo ->
  foldl (fun r t => if bool_decide (index r = index t) then stamped t r else r)
        r todo = stamped r r.
Proof.
  induction todo as [|t todo IH]; intros Hnd Hin; [inversion Hin|].
  rewrite fmap_cons in Hnd. apply NoDup_cons in Hnd as [Hfresh Hnd].
  simpl. apply elem_of_cons in Hin as [->|Hin].
  - rewrite bool_decide_eq_true_2 by reflexivity.
    apply stamps_elsewhere. rewrite stamped_index. exact Hfresh.
  - rewrite bool_decide_eq_false_2.
    + apply IH; assumption.
    + intros Heq. apply Hfresh. rewrite <- Heq.
      apply list_elem_of_fmap_2, Hin.
Qed.

Lemma rows_batch_own df :
  NoDup (labels df) ->
  rows (batched (rows df) df) = (fun r => stamped r r) <$> rows df.
Proof.
  intros Hnd. rewrite rows_batch. apply list_fmap_ext.
  intros i r Hr. apply stamps_own; [exact Hnd|].
  eapply list_elem_of_lookup_2, Hr.
Qed.

Lemma write_error_None stats :
  write_err stats = None ->
  basics stats = basic_stats /\ extendeds stats = extended_stats.
Proof.
  unfold write_error, basic_written, extended_written.
  destruct (raised stats.1 basic_stats) as [err|] eqn:Hb; [discriminate|].
  intros Hx. split; apply raised_None; assumption.
Qed.

Lemma outcome_stamped r : outcome r (stamped r r).
Proof.
  unfold row_outcome, stamp. destruct (stats_of r) as [stats|e]; [|reflexivity].
  destruct (write_err stats) as [err|] eqn:Herr; [reflexivity|].
  unfold row_written. destruct (write_error_None _ Herr) as [-> ->].
  destruct (write_cells_spec (cells stats.2) extended_stats
              (write_cells (cells stats.1) basic_stats r)) as (Hi & Hg & Ha).
  destruct (write_cells_spec (cells stats.1) basic_stats r) as (Hi' & Hg' & Ha').
  split; [congruence|]. split; [congruence|].
  intros stat. rewrite Ha, Ha'. reflexivity.
Qed.

Lemma failures_complete (l : list Row) : failed (List.filter complete l) = [].
Proof.
  induction l as [|r l IH]; [reflexivity|].
  simpl. unfold completes at 1.
  destruct (error_of r) as [err|] eqn:Hr; [exact IH|].
  rewrite failed_cons, Hr. exact IH.
Qed.

Lemma NoDup_labels_filter (f : Row -> bool) (l : list Row) :
  NoDup (index <$> l) -> NoDup (index <$> List.filter f l).
Proof.
  induction l as [|r l IH]; [trivial|].
  rewrite fmap_cons. intros [Hfresh Hnd]%NoDup_cons. simpl.
  destruct (f r); [|apply IH, Hnd].
  rewrite fmap_cons. apply NoDup_cons. split; [|apply IH, Hnd].
  intros Hin. apply Hfresh.
  apply list_elem_of_fmap in Hin as (r' & -> & Hr').
  apply list_elem_of_fmap_2.
  apply list_elem_of_In, filter_In in Hr' as [Hr' _].
  apply list_elem_of_In, Hr'.
Qed.

Lemma kept_rows_only (g : Row -> bool) (f : Row -> Row) (l : list Row) :
  (fun p => p.2) <$> List.filter (fun p => g p.1) (zip l (f <$> l)) =
  f <$> List.filter g l.
Proof.
  induction l as [|r l IH]; [reflexivity|].
  rewrite fmap_cons. cbn [zip zip_with List.filter fst].
  destruct (g r); [rewrite !fmap_cons; f_equal|]; exact IH.
Qed.


(** The annotator hands back the reference it was given, and the frame
    behind every other reference is as before. *)
Lemma osmnx_graph_download_in_place gdf w df :
  heap w !! gdf = Some df ->
  let out := download gdf net_type basic_stats extended_stats
                      connectivity anc ecc bc cc w in
  out.1 = Ok gdf /\
  heap out.2 !! gdf = Some (batched (rows df) df) /\
  forall r, r <> gdf -> heap out.2 !! r = heap w !! r.
Proof.
  intros Hdf. simpl. rewrite (osmnx_graph_download_run _ _ _ Hdf). simpl.
  split; [reflexivity|]. split; [apply lookup_insert_eq|].
  intros r Hne. apply lookup_insert_ne. congruence.
Qed.
End osmnx_properties.

(** ** merge_shape_hex *)

Lemma sorted_set_elem_of (x : Z) (l : list Z) : x ∈ sorted_set l <-> x ∈ l.
Proof.
  assert (forall y l', x ∈ insert_sorted y l' <-> x = y \/ x ∈ l') as Hins.
  { intros y l'. induction l' as [|z l' IH]; simpl.
    - rewrite elem_of_cons. tauto.
    - destruct (Z.ltb_spec y z); [rewrite !elem_of_cons; tauto|].
      destruct (Z.eqb_spec y z) as [->|Hne].
      + rewrite !elem_of_cons. tauto.
      + rewrite !elem_of_cons, IH. tauto. }
  unfold sorted_set. induction l as [|y l IH]; simpl.
  - reflexivity.
  - rewrite Hins, IH, elem_of_cons. reflexivity.
Qed.

Lemma sorted_set_NoDup (l : list Z) : NoDup (sorted_set l).
Proof.
  assert (forall y l', Sorted Z.lt l' -> Sorted Z.lt (insert_sorted y l')) as Hins.
  { intros y l' Hs. induction Hs as [|z l' Hs IH Hhd]; simpl.
    - repeat constructor.
    - destruct (Z.ltb_spec y z).
      + constructor; [constructor; assumption|]. constructor. assumption.
      + destruct (Z.eqb_spec y z) as [->|Hne]; [constructor; assumption|].
        constructor; [assumption|].
        destruct l' as [|z' l']; simpl.
        * constructor. lia.
        * inversion Hhd; subst.
          destruct (Z.ltb_spec y z'); [constructor; lia|].
          destruct (Z.eqb_spec y z'); constructor; lia. }
  assert (Sorted Z.lt (sorted_set l)) as Hs.
  { unfold sorted_set. induction l; simpl; [constructor|]. apply Hins. assumption. }
  revert Hs. generalize (sorted_set l). clear. intros l Hs.
  apply Sorted_StronglySorted in Hs; [|intros ? ? ?; lia].
  induction Hs as [|x l _ IH Hall]; constructor; [|exact IH].
  intros Hin. rewrite Forall_forall in Hall.
  apply Hall in Hin. lia.
Qed.

Lemma position_of_Ok df label p :
  position_of df label = Ok p ->
  exists r, rows df !! p = Some r /\ index r = label.
Proof.
  unfold position_of.
  destruct (filter _ _) as [|[q r] [|? ?]] eqn:Hf; simpl; try discriminate.
  intros [= <-].
  assert ((q, r) ∈ filter (fun p : nat * Row => index p.2 = label)
                          (imap pair (rows df))) as Hin
    by (rewrite Hf; left).
  apply list_elem_of_filter in Hin as [Hlabel Hin]. simpl in Hlabel.
  apply elem_of_lookup_imap in Hin as (i & r' & [= -> ->] & Hi).
  eauto.
Qed.

Lemma position_of_labels df df' label :
  labels df' = labels df -> position_of df' label = position_of df label.
Proof.
  unfold labels, position_of. intros Hl.
  assert (forall (l l' : list Row) k,
            index <$> l' = index <$> l ->
            (fun p => p.1) <$> filter (fun p : nat * Row => index p.2 = label)
                                      (imap (fun i r => (k + i, r)%nat) l') =
            (fun p => p.1) <$> filter (fun p : nat * Row => index p.2 = label)
                                      (imap (fun i r => (k + i, r)%nat) l)) as H.
  { intros l. induction l as [|r l IH]; intros [|r' l'] k; try discriminate;
      [reflexivity|].
    rewrite !fmap_cons. intros [= Hr Hrest]. simpl.
    rewrite !filter_cons. simpl. rewrite Hr.
    assert (forall (m : list Row),
              imap ((fun i r0 => ((k + i)%nat, r0)) ∘ S) m =
              imap (fun i r0 => ((S k + i)%nat, r0)) m) as Hshift.
    { intros m. apply imap_ext. intros i x _. simpl. f_equal. lia. }
    rewrite !Hshift.
    destruct (decide (index r = label)); [rewrite !fmap_cons; f_equal|];
      apply IH, Hrest. }
  assert ((fun p => p.1) <$> filter (fun p : nat * Row => index p.2 = label)
                                    (imap pair (rows df')) =
          (fun p => p.1) <$> filter (fun p : nat * Row => index p.2 = label)
                                    (imap pair (rows df))) as ->
    by exact (H (rows df) (rows df') 0%nat Hl).
  reflexivity.
Qed.

Lemma position_of_unique df label p q r :
  position_of df label = Ok p ->
  rows df !! q = Some r -> index r = label -> q = p.
Proof.
  unfold position_of.
  destruct (filter _ _) as [|[p0 r0] [|? ?]] eqn:Hf; simpl; try discriminate.
  intros [= <-] Hq Hlabel.
  assert ((q, r) ∈ filter (fun p : nat * Row => index p.2 = label)
                          (imap pair (rows df))) as Hin.
  { apply list_elem_of_filter. split; [exact Hlabel|].
    apply elem_of_lookup_imap. eauto. }
  rewrite Hf in Hin. apply list_elem_of_singleton in Hin. congruence.
Qed.

Lemma same_but_refl keys r : same_but keys r r.
Proof. unfold same_but. auto. Qed.

Lemma same_but_trans keys r1 r2 r3 :
  same_but keys r1 r2 -> same_but keys r2 r3 -> same_but keys r1 r3.
Proof.
  intros (Hi & Hg & Ha) (Hi' & Hg' & Ha').
  split; [congruence|]. split; [congruence|].
  intros c Hc. rewrite Ha', Ha; auto.
Qed.

Lemma same_but_weaken keys keys' r r' :
  (forall c, c ∈ keys -> c ∈ keys') -> same_but keys r r' -> same_but keys' r r'.
Proof.
  intros Hsub (Hi & Hg & Ha). split; [exact Hi|]. split; [exact Hg|].
  intros c Hc. apply Ha. intros Hin. apply Hc, Hsub, Hin.
Qed.

Lemma same_but_set_cell key v r : same_but [key] r (set_cell key v r).
Proof.
  split; [reflexivity|]. split; [reflexivity|].
  intros c Hc. rewrite set_cell_lookup.
  rewrite bool_decide_eq_false_2; [reflexivity|].
  intros ->. apply Hc. left.
Qed.

Section assign.
Variable key : string.

Local Abbreviation assign_all :=
  (foldl (fun (rs : list Row) '(p, v) => alter (set_cell key v) p rs)).

Lemma assign_same_but (tv : list (nat * option Cell)) :
  forall rs, Forall2 (same_but [key]) rs (assign_all rs tv).
Proof.
  induction tv as [|[p v] tv IH]; intros rs; simpl.
  - apply Forall_Forall2_diag, Forall_forall. intros r _. apply same_but_refl.
  - eapply Forall2_trans; [apply same_but_trans| |apply IH].
    apply Forall2_alter_r.
    + apply Forall_Forall2_diag, Forall_forall. intros r _. apply same_but_refl.
    + intros r r' Hr Hr' _. assert (r' = r) as -> by congruence.
      apply same_but_set_cell.
Qed.

Lemma assign_elsewhere (tv : list (nat * option Cell)) q :
  q ∉ tv.*1 -> forall rs, assign_all rs tv !! q = rs !! q.
Proof.
  induction tv as [|[p v] tv IH]; intros Hq rs; simpl; [reflexivity|].
  rewrite fmap_cons, not_elem_of_cons in Hq. destruct Hq as [Hne Hq].
  rewrite (IH Hq). apply list_lookup_alter_ne. simpl in Hne. congruence.
Qed.

Lemma assign_value (tv : list (nat * option Cell)) q v :
  NoDup tv.*1 -> (q, v) ∈ tv ->
  forall rs r, rs !! q = Some r ->
    exists r', assign_all rs tv !! q = Some r' /\ attrs r' !! key = v.
Proof.
  induction tv as [|[p v0] tv IH]; intros Hnd Hin rs r Hr; [inversion Hin|].
  rewrite fmap_cons in Hnd. apply NoDup_cons in Hnd as [Hfresh Hnd].
  simpl. apply elem_of_cons in Hin as [[= -> ->]|Hin].
  - rewrite (assign_elsewhere _ _ Hfresh).
    rewrite list_lookup_alter_eq, Hr. simpl.
    eexists. split; [reflexivity|].
    rewrite set_cell_lookup, bool_decide_eq_true_2; reflexivity.
  - assert (q <> p) as Hne.
    { intros ->. apply Hfresh. simpl.
      change p with ((p, v).1). apply list_elem_of_fmap_2, Hin. }
    apply (IH Hnd Hin _ r).
    rewrite list_lookup_alter_ne by congruence. exact Hr.
Qed.
End assign.

Lemma elem_of_with_column cols key c :
  c ∈ with_column cols key <-> c ∈ cols \/ c = key.
Proof.
  unfold with_column. case_bool_decide as Hkey.
  - split; [auto|]. intros [H| ->]; assumption.
  - rewrite elem_of_app, list_elem_of_singleton. reflexivity.
Qed.

(** One write of a column: labels and geometries stay, only the cells of
    the column may change, and only on rows that the indexer names; with
    distinct labels, the row named by the [i]-th label holds the [i]-th
    value. *)
Lemma loc_assign_Ok lbls key vals df df' :
  loc_assign lbls key vals df = Ok df' ->
  (forall c, c ∈ columns df' <-> c ∈ columns df \/ c = key) /\
  crs df' = crs df /\
  Forall2 (fun r r' => same_but [key] r r' /\ (index r ∉ lbls -> r' = r))
          (rows df) (rows df') /\
  (NoDup lbls -> length vals = length lbls ->
   forall q r r' i,
     rows df !! q = Some r -> rows df' !! q = Some r' ->
     lbls !! i = Some (index r) ->
     exists v, vals !! i = Some v /\ attrs r' !! key = v).
Proof.
  unfold loc_assign.
  destruct (mapR (position_of df) lbls) as [targets|e] eqn:Htargets;
    simpl; [|discriminate].
  intros [= <-]. simpl. apply mapR_Ok_Forall2 in Htargets.
  split; [apply elem_of_with_column|]. split; [reflexivity|].
  pose proof (assign_same_but key (zip targets vals) (rows df)) as Hsame.
  split.
  - apply Forall2_same_length_lookup. split.
    + eapply Forall2_length, Hsame.
    + intros q r r' Hr Hr'. split.
      * eapply Forall2_lookup_lr; eassumption.
      * intros Hnot.
        rewrite assign_elsewhere in Hr'; [congruence|].
        intros Hq. apply list_elem_of_fmap in Hq as ([p v] & -> & Hpv).
        apply elem_of_zip_l in Hpv. simpl in Hr.
        apply list_elem_of_lookup in Hpv as [i Hi].
        destruct (Forall2_lookup_r _ _ _ _ _ Htargets Hi) as (l & Hl & Hpos).
        apply position_of_Ok in Hpos as (r0 & Hr0 & Hlabel).
        apply Hnot. assert (r0 = r) as -> by congruence.
        rewrite Hlabel. eapply list_elem_of_lookup_2, Hl.
  - intros Hnd Hlen q r r' i Hr Hr' Hi.
    destruct (Forall2_lookup_l _ _ _ _ _ Htargets Hi) as (p & Hp & Hpos).
    assert (q = p) as -> by (eapply position_of_unique; eauto).
    assert (length targets = length lbls) as Hlt
      by (symmetry; eapply Forall2_length, Htargets).
    destruct (lookup_lt_is_Some_2 vals i) as [v Hv].
    { rewrite Hlen. eapply lookup_lt_Some, Hi. }
    exists v. split; [exact Hv|].
    assert (NoDup targets) as Hndt.
    { apply NoDup_alt. intros i1 i2 p0 H1 H2.
      destruct (Forall2_lookup_r _ _ _ _ _ Htargets H1) as (l1 & Hl1 & Hp1).
      destruct (Forall2_lookup_r _ _ _ _ _ Htargets H2) as (l2 & Hl2 & Hp2).
      apply position_of_Ok in Hp1 as (r1 & Hr1 & <-).
      apply position_of_Ok in Hp2 as (r2 & Hr2 & <-).
      assert (r1 = r2) as -> by congruence.
      eapply NoDup_lookup; eauto. }
    destruct (assign_value key (zip targets vals) p v) with (rs := rows df) (r := r)
      as (r0 & Hr0 & Hval).
    + rewrite fst_zip by lia. exact Hndt.
    + apply (list_elem_of_lookup_2 _ i).
      rewrite lookup_zip_with, Hp. simpl. rewrite Hv. reflexivity.
    + exact Hr.
    + congruence.
Qed.

Lemma rows_labels (l l' : list Row) :
  Forall2 (fun r r' => index r' = index r) l l' -> index <$> l' = index <$> l.
Proof.
  induction 1 as [|r r' l l' Hi _ IH]; [reflexivity|].
  rewrite !fmap_cons. congruence.
Qed.

Lemma loc_assign_labels lbls key vals df df' :
  loc_assign lbls key vals df = Ok df' -> labels df' = labels df.
Proof.
  intros H. apply loc_assign_Ok in H as (_ & _ & H & _).
  apply rows_labels. eapply Forall2_impl; [exact H|].
  intros r r' [(Hi & _) _]. exact Hi.
Qed.

(** The write-back over all keys: labels and geometries stay, only the
    columns named by the keys may change, and only on rows whose label is
    a group of [hex_merge]. *)
Lemma write_back_Ok hex_merge keys :
  forall df df',
    write_back hex_merge keys df = Ok df' ->
    (forall c, c ∈ columns df' <-> c ∈ columns df \/ c ∈ keys) /\
    Forall2 (fun r r' => same_but keys r r' /\
                         (index r ∉ gindex hex_merge -> r' = r))
            (rows df) (rows df').
Proof.
  induction keys as [|key keys IH]; intros df df'; simpl.
  - intros [= <-]. split.
    + intros c. rewrite elem_of_nil. tauto.
    + apply Forall_Forall2_diag, Forall_forall. intros r _.
      split; [apply same_but_refl | reflexivity].
  - destruct (gcolumn hex_merge key) as [vals|e]; simpl; [|discriminate].
    destruct (loc_assign _ key vals df) as [df1|e] eqn:H1; simpl; [|discriminate].
    intros H2. apply loc_assign_Ok in H1 as (Hc1 & _ & Hs1 & _).
    apply IH in H2 as (Hc2 & Hs2).
    split.
    + intros c. rewrite Hc2, Hc1, elem_of_cons. tauto.
    + eapply Forall2_trans; [|exact Hs1|exact Hs2].
      simpl. intros r r1 r2 [Hsame1 Hkeep1] [Hsame2 Hkeep2]. split.
      * eapply same_but_trans; eapply same_but_weaken; try eassumption.
        -- intros c Hc. apply list_elem_of_singleton in Hc as ->. left.
        -- intros c Hc. right. exact Hc.
      * intros Hnot. rewrite <- (Hkeep1 Hnot). apply Hkeep2.
        destruct Hsame1 as (-> & _). exact Hnot.
Qed.

Lemma write_back_value hex_merge keys :
  NoDup keys -> NoDup (gindex hex_merge) ->
  (forall key vals, key ∈ keys -> gcolumn hex_merge key = Ok vals ->
                    length vals = length (gindex hex_merge)) ->
  forall df df',
    write_back hex_merge keys df = Ok df' ->
    forall key q r r' i,
      key ∈ keys ->
      rows df !! q = Some r -> rows df' !! q = Some r' ->
      gindex hex_merge !! i = Some (index r) ->
      exists vals v, gcolumn hex_merge key = Ok vals /\ vals !! i = Some v /\
                     attrs r' !! key = v.
Proof.
  intros Hkeys Hnd. induction keys as [|key0 keys IH]; intros Hlen df df';
    simpl; [intros _ key q r r' i Hin; inversion Hin|].
  apply NoDup_cons in Hkeys as [Hfresh Hkeys].
  destruct (gcolumn hex_merge key0) as [vals0|e] eqn:Hcol; simpl; [|discriminate].
  destruct (loc_assign _ key0 vals0 df) as [df1|e] eqn:H1; simpl; [|discriminate].
  intros H2 key q r r' i Hkey Hr Hr' Hi.
  pose proof (loc_assign_Ok _ _ _ _ _ H1) as (_ & _ & Hs1 & Hv1).
  pose proof (write_back_Ok _ _ _ _ H2) as (_ & Hs2).
  destruct (Forall2_lookup_l _ _ _ _ _ Hs1 Hr) as (r1 & Hr1 & (Hi1 & _) & _).
  apply elem_of_cons in Hkey as [->|Hkey].
  - destruct (Hv1 Hnd (Hlen _ _ (list_elem_of_here _ _) Hcol) q r r1 i Hr Hr1 Hi)
      as (v & Hv & Hval).
    exists vals0, v. split; [exact Hcol|]. split; [exact Hv|].
    destruct (Forall2_lookup_lr _ _ _ _ _ _ Hs2 Hr1 Hr') as [(_ & _ & Hsame) _].
    rewrite (Hsame _ Hfresh). exact Hval.
  - apply (IH Hkeys (fun k v Hk => Hlen k v (list_elem_of_further _ _ _ Hk))
              df1 df' H2 key q r1 r' i Hkey Hr1 Hr').
    rewrite Hi1. exact Hi.
Qed.

Section merge_properties.
Variable sjoin : Frame -> Frame -> string -> string -> result Joined.
Variable reducer : string -> option Reducer.

Local Abbreviation merge := (merge_shape_hex sjoin reducer).
Local Abbreviation aggregate := (groupby_agg reducer).

(** The label [l] is the group of some joined row. *)
Lemma elem_of_group_keys joined l :
  l ∈ group_keys joined <-> Some l ∈ (jrows joined).*1.
Proof.
  unfold group_keys. rewrite sorted_set_elem_of, list_elem_of_omap.
  rewrite list_elem_of_fmap. split.
  - intros (p & Hp & Hl). exists p. auto.
  - intros (p & Hl & Hp). exists p. auto.
Qed.

(** What the aggregation answers: one column per entry of the map, in
    order, computed by the reducer that the engine knows under the name. *)
Lemma groupby_agg_Ok joined agg hex_merge :
  aggregate joined agg = Ok hex_merge ->
  has_index_right joined = true /\
  gindex hex_merge = group_keys joined /\
  Forall2 (fun entry col =>
             col.1 = entry.1 /\ entry.1 ∈ jcolumns joined /\
             exists f, reducer entry.2 = Some f /\
               mapR (fun k => f ((fun r => attrs r !! entry.1) <$> group joined k))
                    (group_keys joined) = Ok col.2)
          agg (gcolumns hex_merge).
Proof.
  unfold groupby_agg. destruct (has_index_right joined); [|discriminate].
  destruct (mapR _ agg) as [cols|e] eqn:Hcols; simpl; [|discriminate].
  intros [= <-]. simpl. split; [reflexivity|]. split; [reflexivity|].
  apply mapR_Ok_Forall2 in Hcols.
  eapply Forall2_impl; [exact Hcols|].
  intros [key fname] [key' vals]. unfold agg_column. simpl.
  case_bool_decide as Hkey; simpl; [|discriminate].
  destruct (reducer fname) as [f|]; simpl; [|discriminate].
  destruct (mapR _ _) as [vals0|e] eqn:Hvals; simpl; [|discriminate].
  intros [= <- <-]. eauto.
Qed.

(** A name that the engine does not know makes the aggregation raise. *)
Lemma groupby_agg_unknown joined agg key fname :
  (key, fname) ∈ agg -> reducer fname = None ->
  exists e, aggregate joined agg = Err e.
Proof.
  intros Hin Hnone.
  destruct (aggregate joined agg) as [hex_merge|e] eqn:Hagg; [|eauto].
  apply groupby_agg_Ok in Hagg as (_ & _ & Hcols).
  apply list_elem_of_lookup in Hin as [i Hi].
  destruct (Forall2_lookup_l _ _ _ _ _ Hcols Hi) as (col & _ & _ & _ & f & Hf & _).
  simpl in Hf. congruence.
Qed.

Lemma write_loop_run ret hex_merge keys :
  forall w df,
    heap w !! ret = Some df ->
    exists df'',
      for_each keys (fun key =>
          values ← lift (gcolumn hex_merge key);
          modify ret (loc_assign (gindex hex_merge) key values)) w =
      (match write_back hex_merge keys df with
       | Ok _ => Ok tt
       | Err e => Err e
       end,
       mkWorld (<[ret := df'']> (heap w)) (stdout w)) /\
      forall df', write_back hex_merge keys df = Ok df' -> df'' = df'.
Proof.
  induction keys as [|key keys IH]; intros w df Hdf.
  - exists df. simpl. rewrite (insert_id _ _ _ Hdf), world_eta.
    split; [reflexivity|]. intros df' [= <-]. reflexivity.
  - rewrite for_each_cons, lift_bind_run. cbn [write_back].
    destruct (gcolumn hex_merge key) as [vals|e]; cbn [mbind result_bind rbind].
    + unfold modify at 1. rewrite Hdf.
      destruct (loc_assign (gindex hex_merge) key vals df) as [df1|e] eqn:H1.
      * destruct (IH (mkWorld (<[ret := df1]> (heap w)) (stdout w)) df1
                     (lookup_insert_eq _ _ _)) as (df'' & Hrun & Hdf'').
        exists df''. rewrite Hrun. cbn [heap stdout]. rewrite insert_insert_eq.
        split; [reflexivity | exact Hdf''].
      * exists df. rewrite (insert_id _ _ _ Hdf), world_eta.
        split; [reflexivity | discriminate].
    + exists df. rewrite (insert_id _ _ _ Hdf), world_eta.
      split; [reflexivity | discriminate].
Qed.

(** The course of [merge_shape_hex]: it raises what the join or the
    aggregation raise, before anything is written; otherwise it writes on
    a new object only. *)
Lemma merge_shape_hex_run w hex shape how op agg hex_df shape_df :
  heap w !! hex = Some hex_df ->
  heap w !! shape = Some shape_df ->
  match sjoin shape_df hex_df how op with
  | Err e => merge hex shape how op agg w = (Err e, w)
  | Ok joined =>
      match aggregate joined agg with
      | Err e => merge hex shape how op agg w = (Err e, w)
      | Ok hex_merge =>
          exists df'',
            merge hex shape how op agg w =
              (match write_back hex_merge agg.*1 hex_df with
               | Ok _ => Ok (fresh (dom (heap w)))
               | Err e => Err e
               end,
               mkWorld (<[fresh (dom (heap w)) := df'']> (heap w)) (stdout w)) /\
            forall df', write_back hex_merge agg.*1 hex_df = Ok df' -> df'' = df'
      end
  end.
Proof.
  intros Hhex Hshape. unfold merge_shape_hex.
  rewrite bind_run, (deref_run _ _ _ Hshape).
  rewrite bind_run, (deref_run _ _ _ Hhex).
  rewrite lift_bind_run.
  destruct (sjoin shape_df hex_df how op) as [joined|e]; [|reflexivity].
  rewrite lift_bind_run.
  destruct (aggregate joined agg) as [hex_merge|e]; [|reflexivity].
  rewrite bind_run. unfold copy at 1.
  rewrite bind_run, (deref_run _ _ _ Hhex). unfold alloc at 1.
  set (ret := fresh (dom (heap w))).
  destruct (write_loop_run ret hex_merge agg.*1
              (mkWorld (<[ret := hex_df]> (heap w)) (stdout w)) hex_df
              (lookup_insert_eq _ _ _)) as (df'' & Hrun & Hdf'').
  exists df''. rewrite bind_run, Hrun. cbn [heap stdout].
  rewrite insert_insert_eq.
  split; [|exact Hdf''].
  destruct (write_back hex_merge agg.*1 hex_df); reflexivity.
Qed.
(** When the aggregation and the write-back return. *)
Lemma groupby_agg_returns joined agg :
  has_index_right joined = true ->
  (forall key fname,
     (key, fname) ∈ agg ->
     key ∈ jcolumns joined /\
     exists f, reducer fname = Some f /\
       forall k, k ∈ group_keys joined ->
         exists v, f ((fun r => attrs r !! key) <$> group joined k) = Ok v) ->
  exists hex_merge, aggregate joined agg = Ok hex_merge.
Proof.
  intros Hright Hagg. unfold groupby_agg. rewrite Hright.
  destruct (mapR_total
              (fun '(key, fname) =>
                 vals ← agg_column reducer joined (group_keys joined) key fname;
                 Ok (key, vals)) agg) as [cols Hcols].
  - apply Forall_forall. intros [key fname] Hin.
    destruct (Hagg key fname Hin) as (Hkey & f & Hf & Hgroups).
    unfold agg_column. rewrite (bool_decide_eq_true_2 _ Hkey), Hf.
    destruct (mapR_total
                (fun k => f ((fun r => attrs r !! key) <$> group joined k))
                (group_keys joined)) as [vals Hvals].
    + apply Forall_forall. exact Hgroups.
    + rewrite Hvals. simpl. eauto.
  - rewrite Hcols. simpl. eauto.
Qed.

Lemma write_back_returns hex_merge keys :
  (forall key, key ∈ keys -> exists vals, gcolumn hex_merge key = Ok vals) ->
  forall df,
    (forall l, l ∈ gindex hex_merge -> exists p, position_of df l = Ok p) ->
    exists df', write_back hex_merge keys df = Ok df'.
Proof.
  induction keys as [|key keys IH]; intros Hcols df Hpos; simpl; [eauto|].
  destruct (Hcols key (list_elem_of_here _ _)) as [vals ->]. simpl.
  destruct (loc_assign (gindex hex_merge) key vals df) as [df1|e] eqn:H1.
  - simpl. apply IH.
    + intros key' Hkey'. apply Hcols. right. exact Hkey'.
    + intros l Hl. rewrite (position_of_labels df df1).
      * apply Hpos, Hl.
      * eapply loc_assign_labels, H1.
  - exfalso. unfold loc_assign in H1.
    destruct (mapR_total (position_of df) (gindex hex_merge)) as [targets Ht].
    + apply Forall_forall. exact Hpos.
    + rewrite Ht in H1. discriminate.
Qed.

(** The call returns when the join returns a frame with the column
    index_right and the columns to aggregate, the engine knows every
    reducer name and its reducers return on the groups, and every group
    is the label of one row of [hex]. *)
Lemma merge_shape_hex_returns w hex shape how op agg hex_df shape_df joined :
  heap w !! hex = Some hex_df ->
  heap w !! shape = Some shape_df ->
  sjoin shape_df hex_df how op = Ok joined ->
  has_index_right joined = true ->
  (forall key fname,
     (key, fname) ∈ agg ->
     key ∈ jcolumns joined /\
     exists f, reducer fname = Some f /\
       forall k, k ∈ group_keys joined ->
         exists v, f ((fun r => attrs r !! key) <$> group joined k) = Ok v) ->
  (forall l, l ∈ group_keys joined -> exists p, position_of hex_df l = Ok p) ->
  exists ret w', merge hex shape how op agg w = (Ok ret, w').
Proof.
  intros Hhex Hshape Hjoin Hright Hagg Hpos.
  pose proof (merge_shape_hex_run w hex shape how op agg _ _ Hhex Hshape) as H.
  rewrite Hjoin in H.
  destruct (groupby_agg_returns joined agg Hright Hagg) as [hex_merge Hmerge].
  rewrite Hmerge in H. destruct H as (df'' & H & _).
  pose proof (groupby_agg_Ok _ _ _ Hmerge) as (_ & Hindex & Hcols).
  destruct (write_back_returns hex_merge agg.*1) with (df := hex_df)
    as [df' Hwrite].
  - intros key Hkey.
    assert ((gcolumns hex_merge).*1 = agg.*1) as Hnames.
    { clear -Hcols. induction Hcols as [|? ? ? ? [Hc _] _ IH]; [reflexivity|].
      rewrite !fmap_cons. congruence. }
    rewrite <- Hnames in Hkey.
    apply list_elem_of_fmap in Hkey as (col & -> & Hcol).
    destruct (list_find_elem_of (fun p : string * list (option Cell) => p.1 = col.1)
                                (gcolumns hex_merge) col Hcol eq_refl)
      as [[j [key' vals]] Hfind].
    unfold gcolumn. rewrite Hfind. eauto.
  - rewrite Hindex. exact Hpos.
  - rewrite Hwrite in H. eauto.
Qed.
End merge_properties.

Lemma gcolumn_Ok hex_merge key vals :
  gcolumn hex_merge key = Ok vals ->
  exists j, gcolumns hex_merge !! j = Some (key, vals) /\
            forall j' col, gcolumns hex_merge !! j' = Some col -> (j' < j)%nat ->
                           col.1 <> key.
Proof.
  unfold gcolumn.
  destruct (list_find _ _) as [[j [key' vals']]|] eqn:Hfind; [|discriminate].
  intros [= <-]. apply list_find_Some in Hfind as (Hj & Hkey & Hfirst).
  simpl in Hkey. subst key'. eauto.
Qed.

Section merge_claims.
Variable sjoin : Frame -> Frame -> string -> string -> result Joined.
Variable reducer : string -> option Reducer.

Local Abbreviation merge := (merge_shape_hex sjoin reducer).
Local Abbreviation aggregate := (groupby_agg reducer).

(** What a successful call has done. *)
Lemma merge_shape_hex_Ok w hex shape how op agg hex_df shape_df ret w' :
  heap w !! hex = Some hex_df ->
  heap w !! shape = Some shape_df ->
  merge hex shape how op agg w = (Ok ret, w') ->
  exists joined hex_merge ret_df,
    sjoin shape_df hex_df how op = Ok joined /\
    aggregate joined agg = Ok hex_merge /\
    write_back hex_merge agg.*1 hex_df = Ok ret_df /\
    ret = fresh (dom (heap w)) /\
    w' = mkWorld (<[ret := ret_df]> (heap w)) (stdout w).
Proof.
  intros Hhex Hshape Hrun.
  pose proof (merge_shape_hex_run sjoin reducer w hex shape how op agg
                                  _ _ Hhex Hshape) as H.
  destruct (sjoin shape_df hex_df how op) as [joined|e] eqn:Hjoin; [|congruence].
  destruct (aggregate joined agg) as [hex_merge|e] eqn:Hagg; [|congruence].
  destruct H as (df'' & H & Hdf''). rewrite H in Hrun.
  destruct (write_back hex_merge agg.*1 hex_df) as [ret_df|e] eqn:Hwrite;
    [|congruence].
  injection Hrun as <- <-. rewrite (Hdf'' ret_df eq_refl).
  exists joined, hex_merge, ret_df. repeat split; assumption.
Qed.


(** C1, amended: [merge_shape_hex] does not look at the reducer names
    itself.  A name that the engine does not know makes the call raise,
    before anything has been written; when the call returns, every name
    of the aggregation map, in {sum, min, max} or not, is one that the
    engine knows, and (the keys of the map being distinct) the cells
    written for a group are what the engine's reducer of that name
    computes from the joined rows of the group; and the call does return
    when the engine knows every name, its reducers return on the groups,
    the joined frame has the columns asked for and every group is the
    label of one row of [hex]. *)
Theorem merge_shape_hex_reducer_names w hex shape how op agg hex_df shape_df :
  heap w !! hex = Some hex_df ->
  heap w !! shape = Some shape_df ->
  (forall key fname,
     (key, fname) ∈ agg -> reducer fname = None ->
     exists e, merge hex shape how op agg w = (Err e, w)) /\
  (forall ret w',
     merge hex shape how op agg w = (Ok ret, w') ->
     exists joined ret_df,
       sjoin shape_df hex_df how op = Ok joined /\
       heap w' !! ret = Some ret_df /\
       forall key fname,
         (key, fname) ∈ agg ->
         exists f, reducer fname = Some f /\
           (NoDup agg.*1 ->
            forall r', r' ∈ rows ret_df -> index r' ∈ group_keys joined ->
              f ((fun r => attrs r !! key) <$> group joined (index r')) =
                Ok (attrs r' !! key))) /\
  (forall joined,
     sjoin shape_df hex_df how op = Ok joined ->
     has_index_right joined = true ->
     (forall key fname,
        (key, fname) ∈ agg ->
        key ∈ jcolumns joined /\
        exists f, reducer fname = Some f /\
          forall k, k ∈ group_keys joined ->
            exists v, f ((fun r => attrs r !! key) <$> group joined k) = Ok v) ->
     (forall l, l ∈ group_keys joined -> exists p, position_of hex_df l = Ok p) ->
     exists ret w', merge hex shape how op agg w = (Ok ret, w')).
Proof.
  intros Hhex Hshape. split; [|split].
  2:{ shelve. }
  2:{ intros joined. apply merge_shape_hex_returns; assumption. }
  Unshelve.
  - intros key fname Hin Hnone.
    pose proof (merge_shape_hex_run sjoin reducer w hex shape how op agg
                                    _ _ Hhex Hshape) as H.
    destruct (sjoin shape_df hex_df how op) as [joined|e]; [|eauto].
    destruct (groupby_agg_unknown reducer joined agg key fname Hin Hnone)
      as [e He].
    rewrite He in H. eauto.
  - intros ret w' Hrun.
    destruct (merge_shape_hex_Ok _ _ _ _ _ _ _ _ _ _ Hhex Hshape Hrun)
      as (joined & hex_merge & ret_df & Hjoin & Hagg & Hwrite & -> & ->).
    exists joined, ret_df. split; [exact Hjoin|].
    split; [apply lookup_insert_eq|].
    apply groupby_agg_Ok in Hagg as (_ & Hindex & Hcols).
    intros key fname Hin.
    apply list_elem_of_lookup in Hin as [j Hj].
    destruct (Forall2_lookup_l _ _ _ _ _ Hcols Hj)
      as ([key' vals] & Hcol & Hkey' & _ & f & Hf & Hvals).
    simpl in Hkey', Hf, Hvals. subst key'.
    exists f. split; [exact Hf|].
    intros Hnd r' Hr' Hgroup.
    assert ((gcolumns hex_merge).*1 = agg.*1) as Hnames.
    { clear -Hcols. induction Hcols as [|? ? ? ? [Hc _] _ IH]; [reflexivity|].
      rewrite !fmap_cons. congruence. }
    assert (forall key0 vals0, gcolumn hex_merge key0 = Ok vals0 ->
                               length vals0 = length (gindex hex_merge)) as Hlen.
    { intros key0 vals0 H0. apply gcolumn_Ok in H0 as (j0 & Hj0 & _).
      destruct (Forall2_lookup_r _ _ _ _ _ Hcols Hj0)
        as (entry & _ & _ & _ & f0 & _ & Hv0).
      rewrite Hindex. eapply mapR_length, Hv0. }
    apply list_elem_of_lookup in Hr' as [q Hq].
    pose proof (write_back_Ok _ _ _ _ Hwrite) as (_ & Hrows).
    destruct (Forall2_lookup_r _ _ _ _ _ Hrows Hq) as (r & Hr & (Hi & _) & _).
    rewrite <- Hindex in Hgroup.
    apply list_elem_of_lookup in Hgroup as [i Hi'].
    destruct (write_back_value hex_merge agg.*1 Hnd) with
      (df := hex_df) (df' := ret_df) (key := key) (q := q) (r := r) (r' := r') (i := i)
      as (vals1 & v & Hcol1 & Hv & Hcell).
    + rewrite Hindex. apply sorted_set_NoDup.
    + intros key0 vals0 _. apply Hlen.
    + exact Hwrite.
    + change key with ((key, fname).1). eapply list_elem_of_fmap_2'; [|reflexivity].
      eapply list_elem_of_lookup_2, Hj.
    + exact Hr.
    + exact Hq.
    + rewrite <- Hi. exact Hi'.
    + assert (vals1 = vals) as ->.
      { apply gcolumn_Ok in Hcol1 as (j1 & Hj1 & _).
        assert (j1 = j) as ->; [|congruence].
        rewrite <- Hnames in Hnd.
        eapply (NoDup_lookup _ _ _ key Hnd).
        - rewrite list_lookup_fmap, Hj1. reflexivity.
        - rewrite list_lookup_fmap, Hcol. reflexivity. }
      apply mapR_Ok_Forall2 in Hvals. rewrite <- Hindex in Hvals.
      destruct (Forall2_lookup_l _ _ _ _ _ Hvals Hi') as (v' & Hv' & Hred).
      rewrite Hcell. simpl in Hred. congruence.
Qed.

(** [merge_shape_hex] writes on its copy only: the object behind every
    reference of the caller is as before, and the reference it returns is
    a new one. *)
Lemma merge_shape_hex_copies w hex shape how op agg hex_df shape_df :
  heap w !! hex = Some hex_df ->
  heap w !! shape = Some shape_df ->
  let out := merge hex shape how op agg w in
  (forall r, r ∈ dom (heap w) -> heap out.2 !! r = heap w !! r) /\
  (forall ret, out.1 = Ok ret ->
     (ret ∉ dom (heap w)) /\ is_Some (heap out.2 !! ret)).
Proof.
  intros Hhex Hshape. simpl.
  pose proof (merge_shape_hex_run sjoin reducer w hex shape how op agg
                                  _ _ Hhex Hshape) as H.
  destruct (sjoin shape_df hex_df how op) as [joined|e].
  2:{ rewrite H. simpl. split; [reflexivity | discriminate]. }
  destruct (aggregate joined agg) as [hex_merge|e].
  2:{ rewrite H. simpl. split; [reflexivity | discriminate]. }
  destruct H as (df'' & -> & _). simpl. split.
  - intros r Hr. apply lookup_insert_ne. intros <-.
    apply (is_fresh (dom (heap w))). exact Hr.
  - intros ret Hret.
    destruct (write_back hex_merge agg.*1 hex_df); [|discriminate].
    injection Hret as <-. split; [apply is_fresh|].
    rewrite lookup_insert_eq. eauto.
Qed.
End merge_claims.

(** ** Where the datasets live *)

(** C9, amended: [merge_shape_hex] leaves every dataset of the caller
    as it is and answers with a new dataset; [osmnx_graph_download]
    writes into the dataset it is given, answers with that same dataset,
    and leaves every other dataset as it is. *)
Theorem datasets_by_reference
    (sjoin : Frame -> Frame -> string -> string -> result Joined)
    (reducer : string -> option Reducer)
    (Graph : Type)
    (ox_graph_from_polygon : Geometry -> string -> result Graph)
    (ox_basic_stats : Graph -> result (gmap string Stat))
    (ox_extended_stats :
       Graph -> bool -> bool -> bool -> bool -> bool -> result (gmap string Stat))
    (w : World) :
  (forall hex shape how op agg hex_df shape_df,
     heap w !! hex = Some hex_df ->
     heap w !! shape = Some shape_df ->
     let out := merge_shape_hex sjoin reducer hex shape how op agg w in
     (forall r, r ∈ dom (heap w) -> heap out.2 !! r = heap w !! r) /\
     (forall ret, out.1 = Ok ret ->
        (ret ∉ dom (heap w)) /\ is_Some (heap out.2 !! ret))) /\
  (forall gdf net_type basic_stats extended_stats connectivity anc ecc bc cc df,
     heap w !! gdf = Some df ->
     let out := osmnx_graph_download Graph ox_graph_from_polygon ox_basic_stats
                  ox_extended_stats gdf net_type basic_stats extended_stats
                  connectivity anc ecc bc cc w in
     out.1 = Ok gdf /\
     heap out.2 !! gdf =
       Some (batch Graph ox_graph_from_polygon ox_basic_stats ox_extended_stats
                   net_type basic_stats extended_stats connectivity anc ecc bc cc
                   (rows df) df) /\
     (forall r, r <> gdf -> heap out.2 !! r = heap w !! r)).
Proof.
  split.
  - intros. apply merge_shape_hex_copies with (hex_df := hex_df) (shape_df := shape_df);
      assumption.
  - intros. apply osmnx_graph_download_in_place. assumption.
Qed.

(** ** The statements on the sample data *)

Lemma filter_population_bounds_witness :
  exists out,
    filter_population sample.population sample.hexagons = Ok out /\
    Forall2 located
      (filter (within_bounds (0%Q, 0%Q, 5%Q, 1%Q)) (rows sample.population))
      (rows out) /\
    (forall r, r ∈ rows sample.population ->
       (exists r', r' ∈ rows out /\ located r r') <->
       within_bounds (0%Q, 0%Q, 5%Q, 1%Q) r).
Proof.
  destruct (filter_population_bounds sample.population sample.hexagons
              (0%Q, 0%Q, 5%Q, 1%Q) eq_refl) as [Hreturns Hrows].
  destruct Hreturns as [out Hout].
  - split; [apply (bool_decide_unpack _); vm_compute; exact I|].
    split; [apply (bool_decide_unpack _); vm_compute; exact I|].
    repeat constructor; intros s H; vm_compute in H; discriminate.
  - exists out. split; [exact Hout|]. apply Hrows, Hout.
Defined.

Example filter_population_sample :
  (fun out => index <$> rows out)
    <$> match filter_population sample.population sample.hexagons with
        | Ok out => Some out
        | Err _ => None
        end = Some [0; 1; 2].
Proof. vm_compute. reflexivity. Qed.

Lemma gen_hexagons_identifiers_witness :
  NoDup (hex_ids sample.tiled.1) /\
  hex_ids sample.tiled.2 = hex_ids sample.tiled.1 /\
  labels sample.tiled.2 = labels sample.tiled.1 /\
  (forall id, id ∈ hex_ids sample.tiled.2 <-> id ∈ hex_ids sample.tiled.1).
Proof.
  apply (gen_hexagons_identifiers sample.polyfill sample.h3_to_geo
           sample.h3_to_geo_boundary 8 sample.overlapping).
  vm_compute. reflexivity.
Defined.

(** The cell b lies in both strips and comes out once. *)
Example gen_hexagons_sample :
  hex_ids sample.tiled.1 = [Some (Str "a"); Some (Str "b"); Some (Str "c")] /\
  labels sample.tiled.1 = [0; 1; 3].
Proof. vm_compute. split; reflexivity. Qed.


(** The batch of three areas whose second polygon is empty: one line of
    output for row 1, which keeps its cells; rows 0 and 2 annotated. *)
Example osmnx_graph_download_sample :
  sample.annotated_city.1 = Ok sample.gdf /\
  stdout sample.annotated_city.2 =
    [OnRecord 1 (LibraryError "EmptyOverpassResponse")] /\
  (fun df => (fun r => (index r, attrs r !! "n", attrs r !! "node_connectivity"))
               <$> rows df)
    <$> heap sample.annotated_city.2 !! sample.gdf =
  Some [(0, Some (Num 5), Some (Num 1)); (1, None, None);
        (2, Some (Num 5), Some (Num 1))].
Proof. vm_compute. repeat split; reflexivity. Qed.

(** The same batch asked for a statistic that is a dict, between two that
    are numbers: the write of the dict raises in rows 0 and 2, which are
    reported and keep the number written before it; the number after it
    and the extended statistic are never written. *)
Example osmnx_graph_download_partial :
  sample.annotated_counts.1 = Ok sample.gdf /\
  (fun '(OnRecord label _) => label) <$> stdout sample.annotated_counts.2 =
    [0; 1; 2] /\
  (fun df => (fun r => (index r, attrs r !! "n", attrs r !! "m",
                        attrs r !! "node_connectivity")) <$> rows df)
    <$> heap sample.annotated_counts.2 !! sample.gdf =
  Some [(0, Some (Num 5), None, None); (1, None, None, None);
        (2, Some (Num 5), None, None)].
Proof. vm_compute. repeat split; reflexivity. Qed.


(** C9, as stated, fails: after the call of the annotator the dataset
    that the caller passed in holds the annotations. *)
Lemma osmnx_graph_download_mutates_input :
  heap sample.city !! sample.gdf = Some sample.areas /\
  sample.annotated_city.1 = Ok sample.gdf /\
  heap sample.annotated_city.2 !! sample.gdf <> Some sample.areas /\
  columns <$> heap sample.annotated_city.2 !! sample.gdf =
    Some ["name"; "n"; "m"; "node_connectivity"].
Proof.
  split; [reflexivity|]. split; [reflexivity|]. split.
  - intros H. apply (f_equal (fmap columns)) in H. vm_compute in H. discriminate.
  - vm_compute. reflexivity.
Qed.

Lemma datasets_by_reference_witness :
  (let out := sample.merged sample.hexagons [("population", "sum")] in
   (forall r, r ∈ dom (heap (sample.world sample.hexagons)) ->
      heap out.2 !! r = heap (sample.world sample.hexagons) !! r) /\
   (forall ret, out.1 = Ok ret ->
      (ret ∉ dom (heap (sample.world sample.hexagons))) /\
      is_Some (heap out.2 !! ret))) /\
  (let out := sample.annotated_city in
   out.1 = Ok sample.gdf /\
   heap out.2 !! sample.gdf =
     Some (batch nat reference.graph_from_polygon reference.basic_stats
                 reference.extended_stats "drive" ["n"; "m"]
                 ["node_connectivity"] true false false false false
                 (rows sample.areas) sample.areas) /\
   (forall r, r <> sample.gdf -> heap out.2 !! r = heap sample.city !! r)).
Proof.
  split.
  - apply (proj1 (datasets_by_reference reference.sjoin reference.pandas_reducer
                    nat reference.graph_from_polygon reference.basic_stats
                    reference.extended_stats (sample.world sample.hexagons))
                 sample.hex sample.shape "inner" "within"
                 [("population", "sum")] sample.hexagons sample.points);
      reflexivity.
  - apply (proj2 (datasets_by_reference reference.sjoin reference.pandas_reducer
                    nat reference.graph_from_polygon reference.basic_stats
                    reference.extended_stats sample.city)
                 sample.gdf "drive" ["n"; "m"] ["node_connectivity"]
                 true false false false false sample.areas).
    reflexivity.
Defined.

(** C1, as stated, fails: the reducer name mean is not one of sum, min
    and max, and the call returns the means of the two cells that hold
    points. *)
Lemma merge_shape_hex_accepts_mean :
  ("mean" ∉ ["sum"; "min"; "max"]) /\
  (sample.merged sample.hexagons [("population", "mean")]).1 = Ok 3%positive /\
  (fun df => (fun r => (index r, attrs r !! "population")) <$> rows df)
    <$> heap (sample.merged sample.hexagons [("population", "mean")]).2
        !! 3%positive =
  Some [(0, Some (Num 15)); (2, Some (Num 5)); (5, None)].
Proof.
  split; [|split].
  - apply (bool_decide_unpack _). vm_compute. exact I.
  - vm_compute. reflexivity.
  - vm_compute. reflexivity.
Qed.

Lemma merge_shape_hex_reducer_names_witness :
  (forall key fname,
     (key, fname) ∈ [("population", "mean")] ->
     reference.pandas_reducer fname = None ->
     exists e, sample.merged sample.hexagons [("population", "mean")] =
               (Err e, sample.world sample.hexagons)) /\
  (forall ret w',
     sample.merged sample.hexagons [("population", "mean")] = (Ok ret, w') ->
     exists joined ret_df,
       reference.sjoin sample.points sample.hexagons "inner" "within" = Ok joined /\
       heap w' !! ret = Some ret_df /\
       forall key fname,
         (key, fname) ∈ [("population", "mean")] ->
         exists f, reference.pandas_reducer fname = Some f /\
           (NoDup [("population", "mean")].*1 ->
            forall r', r' ∈ rows ret_df -> index r' ∈ group_keys joined ->
              f ((fun r => attrs r !! key) <$> group joined (index r')) =
                Ok (attrs r' !! key))) /\
  (exists ret w',
     sample.merged sample.hexagons [("population", "mean")] = (Ok ret, w')).
Proof.
  destruct (merge_shape_hex_reducer_names
              reference.sjoin reference.pandas_reducer
              (sample.world sample.hexagons) sample.hex sample.shape
              "inner" "within" [("population", "mean")]
              sample.hexagons sample.points eq_refl eq_refl)
    as (Hunknown & Hknown & Hreturns).
  split; [exact Hunknown|]. split; [exact Hknown|].
  apply (Hreturns sample.joined).
  - reflexivity.
  - reflexivity.
  - intros key fname Hin. apply list_elem_of_singleton in Hin.
    injection Hin as -> ->.
    split; [apply (bool_decide_unpack _); vm_compute; exact I|].
    eexists. split; [reflexivity|].
    intros k Hk.
    assert (k = 0 \/ k = 2) as [-> | ->].
    { change (group_keys sample.joined) with [0; 2] in Hk.
      apply elem_of_cons in Hk as [->|Hk]; [auto|].
      apply list_elem_of_singleton in Hk. auto. }
    + eexists. vm_compute. reflexivity.
    + eexists. vm_compute. reflexivity.
  - intros l Hl.
    assert (l = 0 \/ l = 2) as [-> | ->].
    { change (group_keys sample.joined) with [0; 2] in Hl.
      apply elem_of_cons in Hl as [->|Hl]; [auto|].
      apply list_elem_of_singleton in Hl. auto. }
    + eexists. vm_compute. reflexivity.
    + eexists. vm_compute. reflexivity.
Defined.



(** The aggregation of the specification: the cell with points 10 and 20
    sums to 30, the cell with the point 5 to 5, the third is unset. *)
Example merge_shape_hex_sample :
  (fun df => (fun r => (index r, attrs r !! "population")) <$> rows df)
    <$> heap (sample.merged sample.hexagons [("population", "sum")]).2
        !! 3%positive =
  Some [(0, Some (Num 30)); (2, Some (Num 5)); (5, None)].
Proof. vm_compute. reflexivity. Qed.

(** ** nn_search *)

Section nn_search_properties.
Variable radians : Q -> Q.
Variable Tree : Type.
Variable BallTree : list (Q * Q) -> string -> result Tree.
Variable query : Tree -> list (Q * Q) -> result (list Q * list nat).

Local Abbreviation search := (nn_search radians Tree BallTree query).
Local Abbreviation rad := (np_radians radians).

Lemma nn_search_haversine_Ok tree_features query_features dist ind :
  search tree_features query_features "haversine" = Ok (dist, ind) <->
  exists tree rdist,
    BallTree (rad tree_features) "haversine" = Ok tree /\
    query tree (rad query_features) = Ok (rdist, ind) /\
    dist = (fun r => r * 6371000 / 1000)%Q <$> rdist.
Proof.
  unfold nn_search. cbn [String.eqb Ascii.eqb Bool.eqb].
  destruct (BallTree (rad tree_features) "haversine") as [tree|e]; simpl.
  - destruct (query tree (rad query_features)) as [[rdist ind']|e] eqn:Hquery;
      simpl.
    + split.
      * intros [= <- <-]. exists tree, rdist. auto.
      * intros (tree' & rdist' & [= <-] & Hquery' & ->).
        rewrite Hquery in Hquery'. injection Hquery' as <- <-. reflexivity.
    + split; [discriminate|].
      intros (tree' & rdist' & [= <-] & Hquery' & _). congruence.
  - split; [discriminate|]. intros (tree' & rdist' & [=] & _).
Qed.

Lemma np_radians_lookup features i p :
  rad features !! i = Some p <->
  exists p0, features !! i = Some p0 /\ p = (radians p0.1, radians p0.2).
Proof.
  unfold np_radians. rewrite list_lookup_fmap.
  destruct (features !! i) as [[lat lon]|]; simpl.
  - split.
    + intros [= <-]. eauto.
    + intros (p0 & [= <-] & ->). reflexivity.
  - split; [discriminate|]. intros (p0 & [=] & _).
Qed.

(** C8: under the metric haversine [nn_search] builds the search
    structure over the reference points in radians, asks it with the
    query points in radians and hands back its positions with its
    distances times 6371; under any other metric it builds and asks with
    the coordinates as they are and hands back the answer of the
    structure.  When the structure answers nearest neighbours under a
    distance that is never negative and is zero from a point to itself,
    a query point that is one of the reference points, and the only one
    at distance zero from it, gets the distance 0 and the position of
    that reference point. *)
Theorem nn_search_metric tree_features query_features :
  (forall dist ind,
     search tree_features query_features "haversine" = Ok (dist, ind) <->
     exists tree rdist,
       BallTree (rad tree_features) "haversine" = Ok tree /\
       query tree (rad query_features) = Ok (rdist, ind) /\
       dist = (fun r => r * 6371000 / 1000)%Q <$> rdist) /\
  (forall r, r * 6371000 / 1000 == r * 6371)%Q /\
  (forall metric,
     metric <> "haversine" ->
     search tree_features query_features metric =
       (tree ← BallTree tree_features metric; query tree query_features)) /\
  (forall (d : Q * Q -> Q * Q -> Q) tree rdist ind,
     (forall p q, 0 <= d p q)%Q ->
     (forall p, d p p == 0)%Q ->
     BallTree (rad tree_features) "haversine" = Ok tree ->
     query tree (rad query_features) = Ok (rdist, ind) ->
     nearest d (rad tree_features) (rad query_features) rdist ind ->
     exists dist,
       search tree_features query_features "haversine" = Ok (dist, ind) /\
       forall k q,
         query_features !! k = Some q ->
         q ∈ tree_features ->
         (forall p, p ∈ tree_features ->
                    (d (radians p.1, radians p.2) (radians q.1, radians q.2)
                     == 0)%Q ->
                    p = q) ->
         exists km i,
           dist !! k = Some km /\ (km == 0)%Q /\
           ind !! k = Some i /\ tree_features !! i = Some q).
Proof.
  split; [intros dist ind; apply nn_search_haversine_Ok|].
  split; [intros r; field|].
  split.
  - intros metric Hmetric. apply String.eqb_neq in Hmetric.
    unfold nn_search. rewrite Hmetric.
    destruct (BallTree tree_features metric) as [tree|e]; simpl; [|reflexivity].
    destruct (query tree query_features) as [[dist ind]|e]; reflexivity.
  - intros d tree rdist ind Hpos Hself Htree Hquery Hnearest.
    exists ((fun r => r * 6371000 / 1000)%Q <$> rdist). split.
    { apply nn_search_haversine_Ok. eauto. }
    intros k q Hk Hq Honly.
    assert (rad query_features !! k = Some (radians q.1, radians q.2)) as Hrk.
    { apply np_radians_lookup. eauto. }
    destruct (Hnearest _ _ Hrk) as (p & i & dk & Hi & Hdk & Hp & Hd & Hmin).
    apply np_radians_lookup in Hp as (p0 & Hp0 & ->).
    assert ((radians q.1, radians q.2) ∈ rad tree_features) as Hin.
    { apply list_elem_of_lookup in Hq as [j Hj].
      apply (list_elem_of_lookup_2 _ j), np_radians_lookup. eauto. }
    assert (d (radians p0.1, radians p0.2) (radians q.1, radians q.2) == 0)%Q
      as Hzero.
    { apply Qle_antisym; [|apply Hpos].
      rewrite <- (Hself (radians q.1, radians q.2)). apply Hmin, Hin. }
    exists (dk * 6371000 / 1000)%Q, i.
    split; [rewrite list_lookup_fmap, Hdk; reflexivity|].
    split; [rewrite Hd, Hzero; reflexivity|].
    split; [exact Hi|].
    rewrite Hp0. f_equal. apply Honly; [|exact Hzero].
    eapply list_elem_of_lookup_2, Hp0.
Qed.
End nn_search_properties.

Lemma distance_nonneg p q : (0 <= reference.distance p q)%Q.
Proof.
  unfold reference.distance.
  apply (Qplus_le_compat 0 _ 0); apply Qabs_nonneg.
Qed.

Lemma distance_self p : (reference.distance p p == 0)%Q.
Proof.
  unfold reference.distance.
  assert (forall x, Qabs (x - x) == 0)%Q as H.
  { intros x. rewrite (Qabs_wd (x - x) 0) by ring. reflexivity. }
  rewrite !H. reflexivity.
Qed.

Lemma nn_search_metric_witness :
  exists dist,
    nn_search reference.radians (list (Q * Q)) reference.ball_tree
              reference.tree_query sample.stations sample.homes "haversine" =
      Ok (dist, [1%nat]) /\
    exists km i,
      dist !! 0%nat = Some km /\ (km == 0)%Q /\
      [1%nat] !! 0%nat = Some i /\
      sample.stations !! i = Some (-121 # 10, -771 # 10)%Q.
Proof.
  destruct (proj2 (proj2 (proj2 (nn_search_metric reference.radians
                                   (list (Q * Q)) reference.ball_tree
                                   reference.tree_query
                                   sample.stations sample.homes)))
              reference.distance
              (np_radians reference.radians sample.stations)
              [reference.distance
                 (reference.radians (-121 # 10), reference.radians (-771 # 10))
                 (reference.radians (-121 # 10), reference.radians (-771 # 10))]
              [1%nat]
              distance_nonneg distance_self eq_refl)
    as (dist & Hdist & Hsame).
  - vm_compute. reflexivity.
  - intros k q Hk. destruct k as [|k]; [|destruct k; discriminate].
    injection Hk as <-.
    exists (reference.radians (-121 # 10), reference.radians (-771 # 10)), 1%nat,
           (reference.distance
              (reference.radians (-121 # 10), reference.radians (-771 # 10))
              (reference.radians (-121 # 10), reference.radians (-771 # 10))).
    split; [reflexivity|]. split; [reflexivity|]. split; [reflexivity|].
    split; [reflexivity|].
    intros p' Hp'. rewrite distance_self. apply distance_nonneg.
  - exists dist. split; [exact Hdist|].
    apply (Hsame 0%nat (-121 # 10, -771 # 10)%Q); [reflexivity| |].
    + apply (bool_decide_unpack _). vm_compute. exact I.
    + intros p Hp Hzero.
      apply elem_of_cons in Hp as [->|Hp];
        [vm_compute in Hzero; discriminate|].
      apply list_elem_of_singleton in Hp. exact Hp.
Defined.

(** * Further properties *)

(** ** create_duration_labels *)

(** X1: the function returns exactly on the series that are not empty;
    in particular the position of the ceiling among the sorted edges is
    always found. *)
Theorem create_duration_labels_returns durations :
  (exists bins labels, create_duration_labels durations = Ok (bins, labels)) <->
  durations <> [].
Proof.
  split.
  - intros (bins & labels & Hrun) ->. discriminate.
  - apply create_duration_labels_total.
Qed.

Lemma create_duration_labels_cases durations max_raw bins labels :
  series_max durations = Some max_raw ->
  create_duration_labels durations = Ok (bins, labels) ->
  let m := Qceiling max_raw in
  (m <= 0 /\ bins = [0]) \/
  (0 < m <= 15 /\ bins = [0; 15]) \/
  (15 < m <= 30 /\ bins = [0; 15; 30]) \/
  (30 < m <= 45 /\ bins = [0; 15; 30; 45]) \/
  (45 < m <= 60 /\ bins = [0; 15; 30; 45; 60]) \/
  (60 < m <= 90 /\ bins = [0; 15; 30; 45; 60; 90]) \/
  (90 < m <= 120 /\ bins = default_bins) \/
  (120 < m /\ bins = default_bins ++ [m]).
Proof.
  intros Hmax Hrun. rewrite (create_duration_labels_eq _ _ Hmax) in Hrun.
  injection Hrun as <- _. simpl.
  unfold edges_below, default_bins. simpl.
  case_ints; intuition lia.
Qed.

(** X2: the edges that come back start at 0 and increase strictly, as a
    histogram needs them. *)
Theorem create_duration_labels_increasing durations bins labels :
  create_duration_labels durations = Ok (bins, labels) ->
  head bins = Some 0 /\ Sorted Z.lt bins.
Proof.
  intros Hrun.
  destruct (series_max durations) as [max_raw|] eqn:Hmax.
  2:{ unfold create_duration_labels in Hrun. rewrite Hmax in Hrun. discriminate. }
  destruct (create_duration_labels_cases _ _ _ _ Hmax Hrun)
    as [[H ->]|[[H ->]|[[H ->]|[[H ->]|[[H ->]|[[H ->]|[[H ->]|[H ->]]]]]]]];
    (split; [reflexivity|]); unfold default_bins; simpl;
    repeat (constructor; try lia).
Qed.

Lemma create_duration_labels_increasing_witness :
  head [0; 15; 30; 45; 60; 90; 120; 151] = Some 0 /\
  Sorted Z.lt [0; 15; 30; 45; 60; 90; 120; 151].
Proof.
  apply (create_duration_labels_increasing [20%Q; (1501 # 10)%Q]
           _ default_labels).
  reflexivity.
Defined.

(** X3: the edges cover the series: no duration exceeds the last edge. *)
Theorem create_duration_labels_covers durations bins labels :
  create_duration_labels durations = Ok (bins, labels) ->
  exists top, last bins = Some top /\
              Forall (fun d => (d <= inject_Z top)%Q) durations.
Proof.
  intros Hrun.
  destruct (series_max durations) as [max_raw|] eqn:Hmax.
  2:{ unfold create_duration_labels in Hrun. rewrite Hmax in Hrun. discriminate. }
  destruct (series_max_spec _ _ Hmax) as [_ Hall].
  assert (forall top, Qceiling max_raw <= top ->
            Forall (fun d => (d <= inject_Z top)%Q) durations) as Hcover.
  { intros top Htop. eapply Forall_impl; [exact Hall|].
    intros d Hd. simpl in Hd.
    eapply Qle_trans; [exact Hd|].
    eapply Qle_trans; [apply Qle_ceiling|].
    rewrite <- Zle_Qle. exact Htop. }
  destruct (create_duration_labels_cases _ _ _ _ Hmax Hrun)
    as [[H ->]|[[H ->]|[[H ->]|[[H ->]|[[H ->]|[[H ->]|[[H ->]|[H ->]]]]]]]];
    eexists; (split; [reflexivity|]); apply Hcover; lia.
Qed.

Lemma create_duration_labels_covers_witness :
  exists top, last [0; 15; 30; 45; 60] = Some top /\
              Forall (fun d => (d <= inject_Z top)%Q) [50%Q; 20%Q].
Proof.
  apply (create_duration_labels_covers [50%Q; 20%Q] _
           ["De 0 a 15"; "De 15 a 30"; "De 30 a 45"; "De 45 a 60"]%string).
  reflexivity.
Defined.

(** X4: whenever the maximum exceeds 120, exactly one edge is added after
    the default ones, the ceiling of the maximum, and all seven labels
    come back, the last one naming the added bin. *)
Theorem create_duration_labels_extends durations max_raw :
  series_max durations = Some max_raw ->
  (120 < max_raw)%Q ->
  create_duration_labels durations =
    Ok (default_bins ++ [Qceiling max_raw], default_labels).
Proof.
  intros Hmax Hbig. rewrite (create_duration_labels_eq _ _ Hmax).
  apply (Qceiling_gt_Z _ 120) in Hbig.
  unfold edges_below, default_bins, default_labels. simpl.
  case_ints.
Qed.

Lemma create_duration_labels_extends_witness :
  create_duration_labels [(2413 # 10)%Q; 7%Q] =
    Ok (default_bins ++ [242], default_labels).
Proof.
  apply (create_duration_labels_extends [(2413 # 10)%Q; 7%Q] (2413 # 10)%Q).
  - reflexivity.
  - unfold Qlt. simpl. lia.
Defined.

(** ** swap_xy *)

Lemma swap_xy_coords_swapped z cs cs' :
  swap_xy_coords z cs = Ok cs' -> cs' = swapped <$> cs.
Proof.
  unfold swap_xy_coords. rewrite mapR_Ok_Forall2.
  induction 1 as [|c c' cs cs' Hc _ IH]; [reflexivity|].
  rewrite fmap_cons, <- IH. f_equal.
  destruct z, c; simpl in Hc; try discriminate; injection Hc as <-; reflexivity.
Qed.

Lemma is_empty_coords geom : is_empty geom = true -> all_coords geom = [].
Proof. unfold is_empty. destruct (all_coords geom); [reflexivity | discriminate]. Qed.

Lemma swap_xy_empty geom geom' :
  is_empty geom = true -> swap_xy geom = Ok geom' ->
  geom_type geom' = geom_type geom /\
  all_coords geom' = swapped <$> all_coords geom.
Proof.
  intros Hempty Hrun.
  assert (geom' = geom) as ->.
  { destruct geom; simpl in Hrun; rewrite Hempty in Hrun; congruence. }
  split; [reflexivity|]. rewrite (is_empty_coords _ Hempty). reflexivity.
Qed.

(** X5: a successful swap keeps the class of the geometry and the number
    and order of its coordinates, exchanges the first two components of
    every coordinate and keeps the third. *)
Theorem swap_xy_coordinates geom :
  forall geom', swap_xy geom = Ok geom' ->
    geom_type geom' = geom_type geom /\
    all_coords geom' = swapped <$> all_coords geom.
Proof.
  induction geom as [cls cs|shell holes|cls parts IH] using Geometry_induction;
    intros geom' Hrun.
  - destruct (is_empty (Coords cls cs)) eqn:Hempty;
      [eapply swap_xy_empty; eassumption|].
    simpl in Hrun. rewrite Hempty in Hrun.
    destruct (bool_decide (cls ∈ coords_types)).
    + simpl in Hrun.
      destruct (swap_xy_coords _ cs) as [cs'|e] eqn:Hswap; [|discriminate].
      simpl in Hrun. injection Hrun as <-. split; [reflexivity|].
      simpl. eapply swap_xy_coords_swapped, Hswap.
    + destruct (String.eqb cls "Polygon"); [discriminate|].
      destruct (_ || _); discriminate.
  - destruct (is_empty (Polygon shell holes)) eqn:Hempty;
      [eapply swap_xy_empty; eassumption|].
    simpl in Hrun. rewrite Hempty in Hrun. simpl in Hrun.
    destruct (swap_xy_coords _ shell) as [shell'|e] eqn:Hshell; [|discriminate].
    simpl in Hrun.
    destruct (mapR _ holes) as [holes'|e] eqn:Hholes; [|discriminate].
    simpl in Hrun. injection Hrun as <-. split; [reflexivity|]. simpl.
    rewrite fmap_app. f_equal; [eapply swap_xy_coords_swapped, Hshell|].
    apply mapR_Ok_Forall2 in Hholes. clear -Hholes.
    induction Hholes as [|h h' hs hs' Hh _ IHh]; [reflexivity|].
    simpl. rewrite fmap_app. f_equal; [|exact IHh].
    eapply swap_xy_coords_swapped, Hh.
  - destruct (is_empty (Collection cls parts)) eqn:Hempty;
      [eapply swap_xy_empty; eassumption|].
    simpl in Hrun. rewrite Hempty in Hrun.
    destruct (bool_decide (cls ∈ coords_types)); [discriminate|].
    destruct (String.eqb cls "Polygon"); [discriminate|].
    destruct (String.prefix "Multi" cls || String.eqb cls "GeometryCollection");
      [|discriminate].
    destruct (mapR swap_xy parts) as [parts'|e] eqn:Hparts; [|discriminate].
    simpl in Hrun. injection Hrun as <-. split; [reflexivity|]. simpl.
    apply mapR_Ok_Forall2 in Hparts. clear Hempty.
    induction Hparts as [|g g' gs gs' Hg _ IHg]; [reflexivity|].
    inversion IH as [|? ? IHhead IHrest]; subst.
    simpl. rewrite fmap_app. f_equal.
    + apply IHhead, Hg.
    + apply IHg, IHrest.
Qed.

Lemma swap_xy_coordinates_witness :
  geom_type (Polygon [XY 0 0; XY 0 4; XY 5 4; XY 0 0]
                     [[XY 1 1; XY 1 2; XY 3 2; XY 1 1]]) =
    geom_type (Polygon [XY 0 0; XY 4 0; XY 4 5; XY 0 0]
                       [[XY 1 1; XY 2 1; XY 2 3; XY 1 1]]) /\
  all_coords (Polygon [XY 0 0; XY 0 4; XY 5 4; XY 0 0]
                      [[XY 1 1; XY 1 2; XY 3 2; XY 1 1]]) =
    swapped <$> all_coords (Polygon [XY 0 0; XY 4 0; XY 4 5; XY 0 0]
                                    [[XY 1 1; XY 2 1; XY 2 3; XY 1 1]]).
Proof.
  apply (swap_xy_coordinates
           (Polygon [XY 0 0; XY 4 0; XY 4 5; XY 0 0]
                    [[XY 1 1; XY 2 1; XY 2 3; XY 1 1]])).
  reflexivity.
Defined.

Lemma append_assoc (a b c : string) : (a +:+ b) +:+ c = a +:+ (b +:+ c).
Proof.
  induction a as [|x a IH]; [reflexivity|].
  change (String x ((a +:+ b) +:+ c) = String x (a +:+ (b +:+ c))).
  f_equal. exact IH.
Qed.

(** X6: an empty geometry is handed back as it is, whatever its class; a
    geometry that is not empty and whose class is none of the recognised
    ones raises [ValueError], the message naming the class between
    single quotes. *)
Theorem swap_xy_unrecognised geom :
  (is_empty geom = true -> swap_xy geom = Ok geom) /\
  (is_empty geom = false ->
   is_name (geom_type geom) = true ->
   geom_type geom ∉ coords_types ->
   geom_type geom <> "Polygon" ->
   String.prefix "Multi" (geom_type geom) = false ->
   geom_type geom <> "GeometryCollection" ->
   swap_xy geom =
     Err (ValueError ("Type '" +:+ geom_type geom +:+ "' not recognized"))).
Proof.
  split.
  - intros Hempty. destruct geom; simpl; rewrite Hempty; reflexivity.
  - intros Hempty _ Hcoords Hpoly Hmulti Hcoll.
    apply String.eqb_neq in Hpoly, Hcoll.
    assert (forall name,
              "Type " +:+ repr name +:+ " not recognized" =
              "Type '" +:+ name +:+ "' not recognized") as Hmessage.
    { intros name. unfold repr.
      change ("Type '" +:+ (name +:+ "'") +:+ " not recognized" =
              "Type '" +:+ name +:+ "' not recognized").
      rewrite append_assoc. reflexivity. }
    destruct geom as [cls cs|shell holes|cls parts]; simpl in *.
    + rewrite Hempty, (bool_decide_eq_false_2 _ Hcoords), Hpoly, Hmulti, Hcoll.
      simpl. rewrite Hmessage. reflexivity.
    + discriminate.
    + rewrite Hempty, (bool_decide_eq_false_2 _ Hcoords), Hpoly, Hmulti, Hcoll.
      simpl. rewrite Hmessage. reflexivity.
Qed.

Lemma swap_xy_unrecognised_witness :
  swap_xy (Coords "Circle" []) = Ok (Coords "Circle" []) /\
  swap_xy (Collection "FeatureGroup" [Coords "Point" [XY 1 2]]) =
    Err (ValueError "Type 'FeatureGroup' not recognized").
Proof.
  split.
  - apply (proj1 (swap_xy_unrecognised (Coords "Circle" []))). reflexivity.
  - apply (proj2 (swap_xy_unrecognised
                    (Collection "FeatureGroup" [Coords "Point" [XY 1 2]]))).
    + reflexivity.
    + reflexivity.
    + apply (bool_decide_unpack _). vm_compute. exact I.
    + discriminate.
    + reflexivity.
    + discriminate.
Defined.

(** ** filter_population *)

Lemma between_numeric c l r b :
  between c l r = Ok b -> forall s, c <> Some (Str s).
Proof.
  destruct c as [[q|s]|]; simpl; intros H s'; [discriminate | discriminate H | discriminate].
Qed.

Lemma column_values_numeric key l r (rs : list Row) m :
  mapR (fun c => between c l r) ((fun x => attrs x !! key) <$> rs) = Ok m ->
  Forall (fun x => forall s, attrs x !! key <> Some (Str s)) rs.
Proof.
  intros H. apply mapR_Ok_Forall2, Forall2_fmap_l in H.
  induction H as [|x b rs m Hx _ IH]; constructor; [|exact IH].
  simpl in Hx. eapply between_numeric, Hx.
Qed.

Lemma filter_population_Ok pop_df polygon_gdf out :
  filter_population pop_df polygon_gdf = Ok out ->
  numeric_positions pop_df /\
  columns out = columns pop_df /\ crs out = Some "EPSG:4326".
Proof.
  unfold filter_population, column.
  destruct (decide ("longitude" ∈ columns pop_df)) as [Hlon|Hlon];
    [rewrite (bool_decide_eq_true_2 _ Hlon)
    |rewrite (bool_decide_eq_false_2 _ Hlon); discriminate].
  simpl.
  destruct (mapR _ _) as [in_x|e] eqn:Hx; [|discriminate]. simpl.
  destruct (decide ("latitude" ∈ columns pop_df)) as [Hlat|Hlat];
    [rewrite (bool_decide_eq_true_2 _ Hlat)
    |rewrite (bool_decide_eq_false_2 _ Hlat); discriminate].
  simpl.
  destruct (mapR _ ((fun r => attrs r !! "latitude") <$> rows pop_df))
    as [in_y|e] eqn:Hy; [|discriminate]. simpl.
  destruct (mapR _ (select _ _)) as [geometry_|e] eqn:Hg; [|discriminate]. simpl.
  intros [= <-]. simpl. split; [|auto].
  split; [assumption|]. split; [assumption|].
  apply column_values_numeric in Hx, Hy.
  rewrite Forall_forall in Hx, Hy. apply Forall_forall. auto.
Qed.

Lemma filter_all {A} (P : A -> Prop) `{!forall a, Decision (P a)} (l : list A) :
  Forall P l -> filter P l = l.
Proof.
  induction 1 as [|a l Ha _ IH]; [reflexivity|].
  rewrite (filter_cons_True _ _ _ Ha), IH. reflexivity.
Qed.

Lemma located_fixed r r' : located r r -> located r r' -> r' = r.
Proof.
  intros (_ & _ & lon & lat & Hlon & Hlat & Hg)
         (Hi & Ha & lon' & lat' & Hlon' & Hlat' & Hg').
  destruct r, r'. simpl in *. subst. f_equal. congruence.
Qed.

Lemma located_self r r' : located r r' -> located r' r'.
Proof.
  intros (Hi & Ha & lon & lat & Hlon & Hlat & Hg).
  split; [reflexivity|]. split; [reflexivity|].
  exists lon, lat. rewrite Ha. auto.
Qed.

Lemma located_numeric (l : list Row) :
  Forall (fun r => located r r) l ->
  Forall (fun r => (forall s, attrs r !! "longitude" <> Some (Str s)) /\
                   (forall s, attrs r !! "latitude" <> Some (Str s))) l.
Proof.
  intros H. eapply Forall_impl; [exact H|].
  intros r (_ & _ & lon & lat & Hlon & Hlat & _).
  rewrite Hlon, Hlat. split; intros s; discriminate.
Qed.

Lemma filter_population_no_bounds pop_df polygon_gdf out :
  total_bounds polygon_gdf = None ->
  filter_population pop_df polygon_gdf = Ok out ->
  rows out = [].
Proof.
  intros Hbox. unfold filter_population. rewrite Hbox. simpl. unfold column.
  destruct (bool_decide ("longitude" ∈ columns pop_df)); [|discriminate]. simpl.
  destruct (mapR _ _) as [in_x|e] eqn:Hx; [|discriminate]. simpl.
  destruct (bool_decide ("latitude" ∈ columns pop_df)); [|discriminate]. simpl.
  destruct (mapR _ ((fun r => attrs r !! "latitude") <$> rows pop_df))
    as [in_y|e] eqn:Hy; [|discriminate]. simpl.
  assert (select (zip_with andb in_x in_y) (rows pop_df) = []) as ->.
  { apply mapR_Ok_Forall2, Forall2_fmap_l in Hx. clear -Hx. revert in_y.
    induction Hx as [|r b l m Hr _ IH]; intros in_y; [reflexivity|].
    destruct in_y as [|b' in_y]; [reflexivity|].
    assert (b = false) as ->.
    { simpl in Hr. destruct (attrs r !! "longitude") as [[?|?]|];
        simpl in Hr; congruence. }
    simpl. apply IH. }
  simpl. intros [= <-]. reflexivity.
Qed.

Lemma filter_population_points pop_df polygon_gdf out :
  filter_population pop_df polygon_gdf = Ok out ->
  Forall (fun r => located r r) (rows out) /\
  forall box, total_bounds polygon_gdf = Some box ->
              Forall (within_bounds box) (rows out).
Proof.
  intros Hout. destruct (total_bounds polygon_gdf) as [box|] eqn:Hbox.
  - pose proof (filter_population_rows _ _ _ _ Hbox Hout) as Hrows.
    split.
    + apply Forall_forall. intros r' Hr'.
      apply list_elem_of_lookup in Hr' as [i Hi].
      destruct (Forall2_lookup_r _ _ _ _ _ Hrows Hi) as (r & _ & Hloc).
      eapply located_self, Hloc.
    + intros box' [= <-]. apply Forall_forall. intros r' Hr'.
      apply list_elem_of_lookup in Hr' as [i Hi].
      destruct (Forall2_lookup_r _ _ _ _ _ Hrows Hi) as (r & Hr & _ & Hattrs & _).
      apply list_elem_of_lookup_2, list_elem_of_filter in Hr as [Hin _].
      eapply within_bounds_attrs; [|exact Hin]. congruence.
  - rewrite (filter_population_no_bounds _ _ _ Hbox Hout).
    split; [constructor|]. intros box [=].
Qed.

(** X7: [filter_population] returns exactly when both position columns
    exist and hold no text; a missing column is reported by its name, the
    longitude being looked up first. *)
Theorem filter_population_returns pop_df polygon_gdf :
  ((exists out, filter_population pop_df polygon_gdf = Ok out) <->
   numeric_positions pop_df) /\
  ("longitude" ∉ columns pop_df ->
   filter_population pop_df polygon_gdf = Err (KeyError "longitude")).
Proof.
  split; [split|].
  - intros [out Hout]. apply (filter_population_Ok _ _ _ Hout).
  - apply filter_population_total.
  - intros Hlon. unfold filter_population, column.
    rewrite (bool_decide_eq_false_2 _ Hlon). reflexivity.
Qed.

Lemma filter_population_returns_witness :
  (exists out, filter_population sample.population sample.hexagons = Ok out) /\
  filter_population (mkFrame ["latitude"] None []) sample.hexagons =
    Err (KeyError "longitude").
Proof.
  split.
  - apply (proj1 (filter_population_returns sample.population sample.hexagons)).
    split; [apply (bool_decide_unpack _); vm_compute; exact I|].
    split; [apply (bool_decide_unpack _); vm_compute; exact I|].
    repeat constructor; intros s H; vm_compute in H; discriminate.
  - apply (proj2 (filter_population_returns (mkFrame ["latitude"] None [])
                    sample.hexagons)).
    apply (bool_decide_unpack _). vm_compute. exact I.
Defined.

(** X8: filtering is idempotent: what [filter_population] returns is
    handed back unchanged, geometry included, when it is filtered again
    to the same polygons. *)
Theorem filter_population_idempotent pop_df polygon_gdf out :
  filter_population pop_df polygon_gdf = Ok out ->
  filter_population out polygon_gdf = Ok out.
Proof.
  intros Hout.
  destruct (filter_population_Ok _ _ _ Hout) as ((Hlon & Hlat & _) & Hcols & Hcrs).
  destruct (filter_population_points _ _ _ Hout) as [Hloc Hin].
  destruct (filter_population_total out polygon_gdf) as [out2 Hout2].
  { split; [rewrite Hcols; assumption|]. split; [rewrite Hcols; assumption|].
    apply located_numeric, Hloc. }
  rewrite Hout2. f_equal.
  destruct (filter_population_Ok _ _ _ Hout2) as (_ & Hcols2 & Hcrs2).
  assert (rows out2 = rows out) as Hrows.
  { destruct (total_bounds polygon_gdf) as [box|] eqn:Hbox.
    - pose proof (filter_population_rows _ _ _ _ Hbox Hout2) as H.
      rewrite (filter_all _ _ (Hin box eq_refl)) in H.
      clear -H Hloc. induction H as [|r r' l l' Hr _ IH]; [reflexivity|].
      inversion Hloc as [|? ? Hself Hrest]; subst.
      rewrite (located_fixed _ _ Hself Hr), (IH Hrest). reflexivity.
    - rewrite (filter_population_no_bounds _ _ _ Hbox Hout2).
      rewrite (filter_population_no_bounds _ _ _ Hbox Hout). reflexivity. }
  destruct out, out2; simpl in *; congruence.
Qed.

Lemma filter_population_idempotent_witness :
  exists out,
    filter_population sample.population sample.hexagons = Ok out /\
    filter_population out sample.hexagons = Ok out.
Proof.
  eexists. split; [vm_compute; reflexivity|].
  apply (filter_population_idempotent sample.population).
  vm_compute. reflexivity.
Defined.

(** X9: when the polygon collection has no coordinates at all, its bounds
    are undefined and no measurement is kept. *)
Theorem filter_population_empty_bounds pop_df polygon_gdf out :
  total_bounds polygon_gdf = None ->
  filter_population pop_df polygon_gdf = Ok out ->
  rows out = [] /\ columns out = columns pop_df.
Proof.
  intros Hbox Hout. split.
  - eapply filter_population_no_bounds; eassumption.
  - apply (filter_population_Ok _ _ _ Hout).
Qed.

Lemma filter_population_empty_bounds_witness :
  exists out,
    filter_population sample.population
      (mkFrame [] None [mkRow 0 (Some (Polygon [] [])) ∅; mkRow 1 None ∅]) = Ok out /\
    rows out = [] /\ columns out = columns sample.population.
Proof.
  eexists. split; [vm_compute; reflexivity|].
  apply (filter_population_empty_bounds sample.population
           (mkFrame [] None [mkRow 0 (Some (Polygon [] [])) ∅; mkRow 1 None ∅])).
  - reflexivity.
  - vm_compute. reflexivity.
Defined.

(** ** remove_features *)

Lemma filter_negb_decide {A} (P : A -> Prop) `{!forall a, Decision (P a)}
    (l : list A) :
  List.filter (fun a => negb (bool_decide (P a))) l = filter (fun a => ~ P a) l.
Proof.
  induction l as [|a l IH]; [reflexivity|].
  simpl. rewrite filter_cons, IH.
  destruct (decide (P a)) as [Ha|Ha].
  - rewrite (bool_decide_eq_true_2 _ Ha). simpl.
    rewrite decide_False by tauto. reflexivity.
  - rewrite (bool_decide_eq_false_2 _ Ha). simpl.
    rewrite decide_True by assumption. reflexivity.
Qed.

Lemma remove_features_Ok gdf bounds out :
  remove_features gdf bounds = Ok out ->
  numeric_positions gdf /\
  columns out = columns gdf /\ crs out = crs gdf /\
  rows out =
    filter (fun r => index r ∉ index <$> filter (in_box bounds) (rows gdf))
           (rows gdf).
Proof.
  destruct bounds as [[[miny maxy] minx] maxx].
  unfold remove_features, column.
  destruct (decide ("latitude" ∈ columns gdf)) as [Hlat|Hlat];
    [rewrite (bool_decide_eq_true_2 _ Hlat)
    |rewrite (bool_decide_eq_false_2 _ Hlat); discriminate].
  simpl.
  destruct (mapR _ _) as [in_y|e] eqn:Hy; [|discriminate]. simpl.
  destruct (decide ("longitude" ∈ columns gdf)) as [Hlon|Hlon];
    [rewrite (bool_decide_eq_true_2 _ Hlon)
    |rewrite (bool_decide_eq_false_2 _ Hlon); discriminate].
  simpl.
  destruct (mapR _ ((fun r => attrs r !! "longitude") <$> rows gdf))
    as [in_x|e] eqn:Hx; [|discriminate]. simpl.
  intros [= <-]. simpl.
  split.
  { split; [assumption|]. split; [assumption|].
    apply column_values_numeric in Hx, Hy.
    rewrite Forall_forall in Hx, Hy. apply Forall_forall. auto. }
  split; [reflexivity|]. split; [reflexivity|].
  apply mapR_Ok_Forall2, Forall2_fmap_l in Hx.
  apply mapR_Ok_Forall2, Forall2_fmap_l in Hy.
  assert (select (zip_with andb in_y in_x) (rows gdf) =
          filter (in_box (miny, maxy, minx, maxx)) (rows gdf)) as ->.
  { apply (select_zip_filter _ _ _ _ _ _ Hy Hx).
    intros r b1 b2 H1 H2. simpl in H1, H2.
    apply between_Ok in H1, H2. rewrite andb_true_iff, H1, H2.
    unfold in_box, within_bounds. split.
    - intros [(lat & -> & ? & ?) (lon & -> & ? & ?)]. auto.
    - destruct (attrs r !! "longitude") as [[lon|]|]; try tauto.
      destruct (attrs r !! "latitude") as [[lat|]|]; try tauto.
      intros (? & ? & ? & ?). split; eauto. }
  apply (filter_negb_decide
           (fun r => index r ∈ index <$> filter (in_box (miny, maxy, minx, maxx))
                                                (rows gdf))).
Qed.

Lemma remove_features_total gdf bounds :
  numeric_positions gdf -> exists out, remove_features gdf bounds = Ok out.
Proof.
  intros (Hlon & Hlat & Hnum). destruct bounds as [[[miny maxy] minx] maxx].
  unfold remove_features, column.
  rewrite !bool_decide_eq_true_2 by assumption. simpl.
  destruct (mapR_total (fun c => between c (Some miny) (Some maxy))
              ((fun r => attrs r !! "latitude") <$> rows gdf)) as [in_y Hy].
  { apply Forall_fmap. eapply Forall_impl; [exact Hnum|].
    intros r [_ Hr]. apply between_total, Hr. }
  rewrite Hy. simpl.
  destruct (mapR_total (fun c => between c (Some minx) (Some maxx))
              ((fun r => attrs r !! "longitude") <$> rows gdf)) as [in_x Hx].
  { apply Forall_fmap. eapply Forall_impl; [exact Hnum|].
    intros r [Hr _]. apply between_total, Hr. }
  rewrite Hx. simpl. eauto.
Qed.

Lemma in_box_attrs bounds r1 r2 :
  attrs r1 = attrs r2 -> in_box bounds r1 -> in_box bounds r2.
Proof.
  destruct bounds as [[[miny maxy] minx] maxx]. apply within_bounds_attrs.
Qed.

Lemma filter_iff_in {A} (P Q : A -> Prop) `{!forall a, Decision (P a)}
    `{!forall a, Decision (Q a)} (l : list A) :
  (forall a, a ∈ l -> (P a <-> Q a)) -> filter P l = filter Q l.
Proof.
  induction l as [|a l IH]; intros Hiff; [reflexivity|].
  rewrite !filter_cons, IH by (intros b Hb; apply Hiff; right; exact Hb).
  destruct (decide (P a)) as [Hp|Hp]; destruct (decide (Q a)) as [Hq|Hq];
    try reflexivity.
  - destruct Hq. apply (Hiff a); [left|exact Hp].
  - destruct Hp. apply (Hiff a); [left|exact Hq].
Qed.

Lemma filter_none {A} (P : A -> Prop) `{!forall a, Decision (P a)} (l : list A) :
  Forall (fun a => ~ P a) l -> filter P l = [].
Proof.
  induction 1 as [|a l Ha _ IH]; [reflexivity|].
  rewrite (filter_cons_False _ _ _ Ha), IH. reflexivity.
Qed.

Lemma NoDup_fmap_eq {A B} (f : A -> B) (l : list A) x y :
  NoDup (f <$> l) -> x ∈ l -> y ∈ l -> f x = f y -> x = y.
Proof.
  induction l as [|a l IH]; [inversion 2|].
  rewrite fmap_cons, NoDup_cons, !elem_of_cons.
  intros [Ha Hnd] [->|Hx] [->|Hy] Heq; auto.
  - destruct Ha. rewrite Heq. apply list_elem_of_fmap_2, Hy.
  - destruct Ha. rewrite <- Heq. apply list_elem_of_fmap_2, Hx.
Qed.

Lemma remove_features_rows gdf bounds out :
  remove_features gdf bounds = Ok out ->
  forall r, r ∈ rows out <->
    r ∈ rows gdf /\
    forall r', r' ∈ rows gdf -> index r' = index r -> ~ in_box bounds r'.
Proof.
  intros Hout r. destruct (remove_features_Ok _ _ _ Hout) as (_ & _ & _ & ->).
  rewrite list_elem_of_filter, list_elem_of_fmap. split.
  - intros [Hnone Hr]. split; [exact Hr|].
    intros r' Hr' Hlabel Hin. apply Hnone. exists r'.
    split; [congruence|]. apply list_elem_of_filter. auto.
  - intros [Hr Hnone]. split; [|exact Hr].
    intros (r' & Hlabel & Hr'). apply list_elem_of_filter in Hr' as [Hin Hr'].
    apply (Hnone r' Hr'); congruence.
Qed.

(** X10: [remove_features] drops by label: it keeps, in their order, the
    rows none of whose namesakes (the rows with the same index label,
    the row itself included) lies within the box; columns and reference
    system are those of the input. *)
Theorem remove_features_drops_labels gdf bounds out :
  remove_features gdf bounds = Ok out ->
  columns out = columns gdf /\ crs out = crs gdf /\
  sublist (rows out) (rows gdf) /\
  forall r, r ∈ rows out <->
    r ∈ rows gdf /\
    forall r', r' ∈ rows gdf -> index r' = index r -> ~ in_box bounds r'.
Proof.
  intros Hout.
  destruct (remove_features_Ok _ _ _ Hout) as (_ & Hcols & Hcrs & Hrows).
  split; [exact Hcols|]. split; [exact Hcrs|]. split.
  - rewrite Hrows. apply sublist_filter.
  - apply remove_features_rows, Hout.
Qed.

Lemma remove_features_drops_labels_witness :
  exists out,
    remove_features sample.stacked (0%Q, 1%Q, 0%Q, 1%Q) = Ok out /\
    columns out = columns sample.stacked /\ crs out = crs sample.stacked /\
    sublist (rows out) (rows sample.stacked) /\
    forall r, r ∈ rows out <->
      r ∈ rows sample.stacked /\
      forall r', r' ∈ rows sample.stacked -> index r' = index r ->
                 ~ in_box (0%Q, 1%Q, 0%Q, 1%Q) r'.
Proof.
  eexists. split; [vm_compute; reflexivity|].
  apply (remove_features_drops_labels sample.stacked (0%Q, 1%Q, 0%Q, 1%Q)).
  vm_compute. reflexivity.
Defined.

(** On the stacked tables the measurement at (9, 9) goes with its
    namesake in the box. *)
Example remove_features_sample :
  (fun out => (fun r => (index r, attrs r !! "longitude")) <$> rows out)
    <$> match remove_features sample.stacked (0%Q, 1%Q, 0%Q, 1%Q) with
        | Ok out => Some out
        | Err _ => None
        end = Some [(1, Some (Num (5 # 2))); (1, Some (Num 8))].
Proof. vm_compute. reflexivity. Qed.

(** X11: when the index labels are pairwise distinct, [remove_features]
    keeps exactly the rows that do not lie within the box, the bounds
    included in the box. *)
Theorem remove_features_outside gdf bounds out :
  NoDup (labels gdf) ->
  remove_features gdf bounds = Ok out ->
  rows out = filter (fun r => ~ in_box bounds r) (rows gdf).
Proof.
  intros Hnd Hout. destruct (remove_features_Ok _ _ _ Hout) as (_ & _ & _ & ->).
  apply filter_iff_in. intros r Hr. rewrite list_elem_of_fmap. split.
  - intros Hnone Hin. apply Hnone. exists r. split; [reflexivity|].
    apply list_elem_of_filter. auto.
  - intros Hout' (r' & Hlabel & Hr'). apply list_elem_of_filter in Hr' as [Hin Hr'].
    apply Hout'. rewrite (NoDup_fmap_eq index (rows gdf) r r' Hnd Hr Hr' Hlabel).
    exact Hin.
Qed.

Lemma remove_features_outside_witness :
  exists out,
    remove_features sample.points (0%Q, 1%Q, 0%Q, 1%Q) = Ok out /\
    rows out =
      filter (fun r => ~ in_box (0%Q, 1%Q, 0%Q, 1%Q) r) (rows sample.points).
Proof.
  eexists. split; [vm_compute; reflexivity|].
  apply (remove_features_outside sample.points (0%Q, 1%Q, 0%Q, 1%Q)).
  - apply (bool_decide_unpack _). vm_compute. exact I.
  - vm_compute. reflexivity.
Defined.

(** X12: [remove_features] returns exactly when both position columns
    exist and hold no text; here the latitude is looked up first. *)
Theorem remove_features_returns gdf bounds :
  ((exists out, remove_features gdf bounds = Ok out) <-> numeric_positions gdf) /\
  ("latitude" ∉ columns gdf ->
   remove_features gdf bounds = Err (KeyError "latitude")).
Proof.
  split; [split|].
  - intros [out Hout]. apply (remove_features_Ok _ _ _ Hout).
  - apply remove_features_total.
  - intros Hlat. destruct bounds as [[[miny maxy] minx] maxx].
    unfold remove_features, column.
    rewrite (bool_decide_eq_false_2 _ Hlat). reflexivity.
Qed.

Lemma remove_features_returns_witness :
  (exists out, remove_features sample.stacked (0%Q, 1%Q, 0%Q, 1%Q) = Ok out) /\
  remove_features (mkFrame [] None []) (0%Q, 1%Q, 0%Q, 1%Q) =
    Err (KeyError "latitude").
Proof.
  split.
  - apply (proj1 (remove_features_returns sample.stacked (0%Q, 1%Q, 0%Q, 1%Q))).
    split; [apply (bool_decide_unpack _); vm_compute; exact I|].
    split; [apply (bool_decide_unpack _); vm_compute; exact I|].
    repeat constructor; intros s H; vm_compute in H; discriminate.
  - apply (proj2 (remove_features_returns (mkFrame [] None [])
                    (0%Q, 1%Q, 0%Q, 1%Q))).
    apply (bool_decide_unpack _). vm_compute. exact I.
Defined.

Lemma numeric_positions_sub df df' :
  columns df' = columns df ->
  (forall r, r ∈ rows df' -> r ∈ rows df) ->
  numeric_positions df -> numeric_positions df'.
Proof.
  intros Hcols Hsub (Hlon & Hlat & Hnum).
  split; [rewrite Hcols; exact Hlon|]. split; [rewrite Hcols; exact Hlat|].
  rewrite Forall_forall in Hnum. apply Forall_forall. auto.
Qed.

(** X13: removing is idempotent: a second removal with the same box
    returns the frame the first one returned. *)
Theorem remove_features_idempotent gdf bounds out :
  remove_features gdf bounds = Ok out ->
  remove_features out bounds = Ok out.
Proof.
  intros Hout.
  destruct (remove_features_Ok _ _ _ Hout) as (Hnum & Hcols & Hcrs & _).
  pose proof (remove_features_rows _ _ _ Hout) as Hrows.
  destruct (remove_features_total out bounds) as [out2 Hout2].
  { apply (numeric_positions_sub gdf); [exact Hcols| |exact Hnum].
    intros r Hr. apply Hrows, Hr. }
  rewrite Hout2. f_equal.
  destruct (remove_features_Ok _ _ _ Hout2) as (_ & Hcols2 & Hcrs2 & Hrows2).
  assert (filter (in_box bounds) (rows out) = []) as Hnone.
  { apply filter_none, Forall_forall. intros r Hr Hin.
    apply Hrows in Hr as [Hr Hfree]. apply (Hfree r Hr eq_refl Hin). }
  rewrite Hnone in Hrows2.
  rewrite filter_all in Hrows2 by (apply Forall_forall; intros r _; inversion 1).
  destruct out, out2; simpl in *; congruence.
Qed.

Lemma remove_features_idempotent_witness :
  exists out,
    remove_features sample.stacked (0%Q, 1%Q, 0%Q, 1%Q) = Ok out /\
    remove_features out (0%Q, 1%Q, 0%Q, 1%Q) = Ok out.
Proof.
  eexists. split; [vm_compute; reflexivity|].
  apply (remove_features_idempotent sample.stacked).
  vm_compute. reflexivity.
Defined.

(** X14: the two filters compose as the documentation of
    [remove_features] has it: on what [filter_population] returns,
    [remove_features] always returns, and every row that is left is a
    point built from its own longitude and latitude, lies within the
    bounds of the polygons and lies outside the box. *)
Theorem remove_features_after_filter pop_df polygon_gdf gdf bounds :
  filter_population pop_df polygon_gdf = Ok gdf ->
  exists out,
    remove_features gdf bounds = Ok out /\
    crs out = Some "EPSG:4326" /\
    Forall (fun r => located r r /\ ~ in_box bounds r /\
                     forall box, total_bounds polygon_gdf = Some box ->
                                 within_bounds box r)
           (rows out).
Proof.
  intros Hgdf.
  destruct (filter_population_Ok _ _ _ Hgdf) as ((Hlon & Hlat & _) & Hcols & Hcrs).
  destruct (filter_population_points _ _ _ Hgdf) as [Hloc Hin].
  destruct (remove_features_total gdf bounds) as [out Hout].
  { split; [rewrite Hcols; assumption|]. split; [rewrite Hcols; assumption|].
    apply located_numeric, Hloc. }
  exists out. split; [exact Hout|].
  destruct (remove_features_Ok _ _ _ Hout) as (_ & _ & Hcrs' & _).
  split; [congruence|].
  pose proof (remove_features_rows _ _ _ Hout) as Hrows.
  rewrite Forall_forall in Hloc. apply Forall_forall. intros r Hr.
  apply Hrows in Hr as [Hr Hfree].
  split; [apply Hloc, Hr|]. split; [apply (Hfree r Hr eq_refl)|].
  intros box Hbox. specialize (Hin box Hbox).
  rewrite Forall_forall in Hin. apply Hin, Hr.
Qed.

Lemma remove_features_after_filter_witness :
  exists out,
    remove_features sample.filtered (0%Q, 1%Q, 2%Q, 3%Q) = Ok out /\
    crs out = Some "EPSG:4326" /\
    Forall (fun r => located r r /\ ~ in_box (0%Q, 1%Q, 2%Q, 3%Q) r /\
                     forall box, total_bounds sample.hexagons = Some box ->
                                 within_bounds box r)
           (rows out).
Proof.
  apply (remove_features_after_filter sample.population sample.hexagons
           sample.filtered (0%Q, 1%Q, 2%Q, 3%Q)).
  vm_compute. reflexivity.
Defined.

(** Of the three measurements within the cells, the one in cell b is
    removed. *)
Example remove_features_after_filter_sample :
  (fun out => labels out)
    <$> match remove_features sample.filtered (0%Q, 1%Q, 2%Q, 3%Q) with
        | Ok out => Some out
        | Err _ => None
        end = Some [0; 1].
Proof. vm_compute. reflexivity. Qed.

(** ** gen_hexagons *)

Lemma first_occurrences_sublist seen todo :
  sublist (first_occurrences seen todo) todo.
Proof.
  revert seen. induction todo as [|p todo IH]; intros seen; simpl.
  - constructor.
  - destruct (bool_decide (p.2 ∈ seen)).
    + apply sublist_cons, IH.
    + apply sublist_skip, IH.
Qed.

Lemma positions_fst {A} (l : list A) : (imap pair l).*1 = seq 0 (length l).
Proof.
  rewrite fmap_imap.
  rewrite (imap_ext _ (fun j _ => j)) by reflexivity.
  rewrite (imap_seq_0 l (fun j => j)). apply list_fmap_id.
Qed.

Lemma positions_snd {A} (l : list A) : (imap pair l).*2 = l.
Proof.
  rewrite fmap_imap.
  assert (forall (f : nat -> A -> A), (forall i a, f i a = a) -> imap f l = l) as H.
  { induction l as [|a l IH]; intros f Hf; [reflexivity|].
    rewrite imap_cons, Hf, IH; [reflexivity|]. intros i b. apply Hf. }
  apply H. reflexivity.
Qed.

Section gen_hexagons_further.
Variable polyfill : Geometry -> Z -> result (list string).
Variable h3_to_geo : string -> Q * Q.
Variable h3_to_geo_boundary : string -> list (Q * Q).

Local Abbreviation centroid := (hexagon_centroid h3_to_geo).
Local Abbreviation boundary := (hexagon_polygon h3_to_geo_boundary).
Local Abbreviation tile := (gen_hexagons polyfill h3_to_geo h3_to_geo_boundary).

(** What the library answers for one exploded row. *)
Local Abbreviation fills_with resolution :=
  (fun (geo : option Geometry) (hexagons : list string) =>
     exists g, geo = Some g /\ polyfill g resolution = Ok hexagons).

Lemma polyfill_rows_fills resolution city_poly ids cs ps ids' :
  polyfill_rows polyfill h3_to_geo h3_to_geo_boundary resolution city_poly
                (centroid <$> ids, boundary <$> ids, ids) = Ok (cs, ps, ids') ->
  exists fills,
    Forall2 (fills_with resolution) city_poly fills /\
    ids' = ids ++ concat fills.
Proof.
  revert ids. induction city_poly as [|geo city_poly IH]; intros ids; simpl.
  - intros [= _ _ <-]. exists []. split; [constructor|].
    rewrite app_nil_r. reflexivity.
  - destruct geo as [g|]; simpl; [|discriminate].
    destruct (polyfill g resolution) as [hexagons|e] eqn:Hg; simpl; [|discriminate].
    rewrite add_hexagons_aligned. intros Hrest.
    destruct (IH _ Hrest) as (fills & Hfills & ->).
    exists (hexagons :: fills). split.
    + constructor; [eauto|exact Hfills].
    + simpl. rewrite app_assoc. reflexivity.
Qed.

Lemma gen_hexagons_Ok resolution city city_hexagons city_centroids :
  tile resolution city = Ok (city_hexagons, city_centroids) ->
  exists fills,
    Forall2 (fills_with resolution) (explode city) fills /\
    city_hexagons =
      mkFrame ["0"] (Some "EPSG:4326")
        (cell_row boundary <$> first_occurrences [] (imap pair (concat fills))) /\
    city_centroids =
      mkFrame ["0"] (Some "EPSG:4326")
        (cell_row centroid <$> first_occurrences [] (imap pair (concat fills))).
Proof.
  unfold gen_hexagons.
  destruct (polyfill_rows _ _ _ _ _ _) as [[[cs ps] ids]|e] eqn:Hfill;
    simpl; [|discriminate].
  destruct (polyfill_rows_fills _ _ [] _ _ _ Hfill) as (fills & Hfills & Hids).
  apply (polyfill_rows_aligned _ _ _ _ _ []) in Hfill as [-> ->].
  simpl in Hids. subst ids.
  intros [= <- <-]. exists fills. split; [exact Hfills|].
  unfold drop_duplicates. cbn [rows columns].
  pose proof (frame_of_cell_rows boundary (concat fills)) as Hb.
  pose proof (frame_of_cell_rows centroid (concat fills)) as Hc.
  unfold frame_of in Hb, Hc |- *. cbn [rows columns] in Hb, Hc |- *.
  rewrite Hb, Hc.
  rewrite (drop_duplicates_cell_rows boundary []).
  rewrite (drop_duplicates_cell_rows centroid []).
  split; reflexivity.
Qed.
(** X15: the identifiers of the hexagon output are exactly the cells that
    the library answers for some polygon of the exploded city, and every
    row carries an identifier. *)
Theorem gen_hexagons_cells resolution city city_hexagons city_centroids :
  tile resolution city = Ok (city_hexagons, city_centroids) ->
  (forall id, id ∈ hex_ids city_hexagons -> exists h, id = Some (Str h)) /\
  (forall h, Some (Str h) ∈ hex_ids city_hexagons <->
     exists g hexagons,
       Some g ∈ explode city /\ polyfill g resolution = Ok hexagons /\
       h ∈ hexagons).
Proof.
  intros Hrun.
  destruct (gen_hexagons_Ok _ _ _ _ Hrun) as (fills & Hfills & -> & _).
  unfold hex_ids. cbn [rows]. rewrite hex_ids_cell_rows.
  split.
  - intros id Hid. apply list_elem_of_fmap in Hid as (h & -> & _). eauto.
  - intros h. rewrite list_elem_of_fmap.
    assert (h ∈ (first_occurrences [] (imap pair (concat fills))).*2 <->
            h ∈ concat fills) as Hkept.
    { rewrite (proj2 (first_occurrences_NoDup h3_to_geo h3_to_geo_boundary [] _)),
        positions_snd.
      split; [tauto|]. intros H. split; [exact H|]. inversion 1. }
    split.
    + intros (h' & [= <-] & Hh). apply Hkept in Hh.
      apply list_elem_of_In, in_concat in Hh as (hexagons & Hin & Hh).
      apply list_elem_of_In, list_elem_of_lookup in Hin as [i Hi].
      destruct (Forall2_lookup_r _ _ _ _ _ Hfills Hi) as (geo & Hgeo & g & -> & Hg).
      exists g, hexagons. split; [eapply list_elem_of_lookup_2, Hgeo|].
      split; [exact Hg|]. apply list_elem_of_In, Hh.
    + intros (g & hexagons & Hgeo & Hg & Hh).
      exists h. split; [reflexivity|]. apply Hkept.
      apply list_elem_of_lookup in Hgeo as [i Hi].
      destruct (Forall2_lookup_l _ _ _ _ _ Hfills Hi) as (hexagons' & Hi' & g' & [= <-] & Hg').
      assert (hexagons' = hexagons) as -> by congruence.
      apply list_elem_of_In, in_concat. exists hexagons.
      split; [eapply list_elem_of_In, list_elem_of_lookup_2, Hi'|].
      apply list_elem_of_In, Hh.
Qed.

(** X16: both outputs are in EPSG:4326, their index labels are pairwise
    distinct, and row by row they describe the same cell under the same
    label: the hexagon row holds the boundary of the cell and the
    centroid row its centre, each with the (lat, lon) pairs of the
    library turned into (lon, lat) coordinates. *)
Theorem gen_hexagons_geometry resolution city city_hexagons city_centroids :
  tile resolution city = Ok (city_hexagons, city_centroids) ->
  crs city_hexagons = Some "EPSG:4326" /\
  crs city_centroids = Some "EPSG:4326" /\
  NoDup (labels city_hexagons) /\
  Forall2 (fun r c =>
             index c = index r /\
             exists h,
               attrs r !! "0" = Some (Str h) /\ attrs c !! "0" = Some (Str h) /\
               geometry r =
                 Some (Polygon ((fun '(lat, lon) => XY lon lat)
                                  <$> h3_to_geo_boundary h) []) /\
               geometry c =
                 Some (Coords "Point" [XY (h3_to_geo h).2 (h3_to_geo h).1]))
          (rows city_hexagons) (rows city_centroids).
Proof.
  intros Hrun.
  destruct (gen_hexagons_Ok _ _ _ _ Hrun) as (fills & Hfills & -> & ->).
  split; [reflexivity|]. split; [reflexivity|]. split.
  - unfold labels. cbn [rows]. rewrite labels_cell_rows.
    apply NoDup_fmap_2; [intros ? ? ?; lia|].
    eapply sublist_NoDup;
      [|apply (fmap_sublist fst), first_occurrences_sublist].
    rewrite positions_fst. apply NoDup_seq.
  - cbn [rows]. apply Forall2_fmap, Forall_Forall2_diag, Forall_forall.
    intros [i h] _. split; [reflexivity|]. exists h.
    unfold cell_row. cbn [attrs geometry fst snd].
    rewrite !lookup_singleton_eq.
    split; [reflexivity|]. split; [reflexivity|]. split; [reflexivity|].
    unfold hexagon_centroid. destruct (h3_to_geo h). reflexivity.
Qed.

(** X17: [gen_hexagons] returns exactly when every row of the exploded
    city has a geometry and the library fills each of them. *)
Theorem gen_hexagons_returns_iff resolution city :
  (exists outputs, tile resolution city = Ok outputs) <->
  Forall (fun geo => exists g hexagons,
            geo = Some g /\ polyfill g resolution = Ok hexagons)
         (explode city).
Proof.
  split.
  - intros [[city_hexagons city_centroids] Hrun].
    destruct (gen_hexagons_Ok _ _ _ _ Hrun) as (fills & Hfills & _).
    clear Hrun. induction Hfills as [|geo hexagons l fills (g & -> & Hg) _ IH];
      constructor; eauto.
  - intros Hfill.
    destruct (gen_hexagons_returns polyfill h3_to_geo h3_to_geo_boundary
                _ _ Hfill) as (city_hexagons & city_centroids & Hrun).
    eauto.
Qed.
End gen_hexagons_further.

Lemma gen_hexagons_cells_witness :
  (forall id, id ∈ hex_ids sample.tiled.1 -> exists h, id = Some (Str h)) /\
  (forall h, Some (Str h) ∈ hex_ids sample.tiled.1 <->
     exists g hexagons,
       Some g ∈ explode sample.overlapping /\
       sample.polyfill g 8 = Ok hexagons /\ h ∈ hexagons).
Proof.
  apply (gen_hexagons_cells sample.polyfill sample.h3_to_geo
           sample.h3_to_geo_boundary 8 sample.overlapping _ sample.tiled.2).
  vm_compute. reflexivity.
Defined.

Lemma gen_hexagons_geometry_witness :
  crs sample.tiled.1 = Some "EPSG:4326" /\
  crs sample.tiled.2 = Some "EPSG:4326" /\
  NoDup (labels sample.tiled.1) /\
  Forall2 (fun r c =>
             index c = index r /\
             exists h,
               attrs r !! "0" = Some (Str h) /\ attrs c !! "0" = Some (Str h) /\
               geometry r =
                 Some (Polygon ((fun '(lat, lon) => XY lon lat)
                                  <$> sample.h3_to_geo_boundary h) []) /\
               geometry c =
                 Some (Coords "Point" [XY (sample.h3_to_geo h).2
                                          (sample.h3_to_geo h).1]))
          (rows sample.tiled.1) (rows sample.tiled.2).
Proof.
  apply (gen_hexagons_geometry sample.polyfill sample.h3_to_geo
           sample.h3_to_geo_boundary 8 sample.overlapping).
  vm_compute. reflexivity.
Defined.

(** ** osmnx_graph_download *)

Lemma columns_write_stats label m stats df :
  crs (write_stats label m stats df) = crs df /\
  forall c, c ∈ columns (write_stats label m stats df) <->
            c ∈ columns df \/ c ∈ stats.
Proof.
  unfold write_stats. revert df.
  induction stats as [|s stats IH]; intros df; simpl.
  - split; [reflexivity|]. intros c. split; [auto|].
    intros [H|H]; [exact H|inversion H].
  - destruct (IH (loc_set label s (m !! s) df)) as [Hcrs Hcols].
    split; [rewrite Hcrs; reflexivity|].
    intros c. rewrite Hcols. unfold loc_set. cbn [columns].
    rewrite elem_of_with_column, elem_of_cons. tauto.
Qed.

Section osmnx_further.
Variable Graph : Type.
Variable ox_graph_from_polygon : Geometry -> string -> result Graph.
Variable ox_basic_stats : Graph -> result (gmap string Stat).
Variable ox_extended_stats :
  Graph -> bool -> bool -> bool -> bool -> bool -> result (gmap string Stat).
Variables (net_type : string) (basic_stats extended_stats : list string).
Variables (connectivity anc ecc bc cc : bool).

Local Abbreviation stats_of :=
  (row_stats Graph ox_graph_from_polygon ox_basic_stats ox_extended_stats
             net_type connectivity anc ecc bc cc).
Local Abbreviation basics := (basic_written basic_stats).
Local Abbreviation extendeds := (extended_written basic_stats extended_stats).
Local Abbreviation write_err := (write_error basic_stats extended_stats).
Local Abbreviation error_of :=
  (row_error Graph ox_graph_from_polygon ox_basic_stats ox_extended_stats
             net_type basic_stats extended_stats connectivity anc ecc bc cc).
Local Abbreviation stamped :=
  (stamp Graph ox_graph_from_polygon ox_basic_stats ox_extended_stats
         net_type basic_stats extended_stats connectivity anc ecc bc cc).
Local Abbreviation batched :=
  (batch Graph ox_graph_from_polygon ox_basic_stats ox_extended_stats
         net_type basic_stats extended_stats connectivity anc ecc bc cc).
Local Abbreviation failed :=
  (failures Graph ox_graph_from_polygon ox_basic_stats ox_extended_stats
            net_type basic_stats extended_stats connectivity anc ecc bc cc).
Local Abbreviation good :=
  (succeeds Graph ox_graph_from_polygon ox_basic_stats ox_extended_stats
            net_type connectivity anc ecc bc cc).
Local Abbreviation complete :=
  (completes Graph ox_graph_from_polygon ox_basic_stats ox_extended_stats
             net_type basic_stats extended_stats connectivity anc ecc bc cc).
Local Abbreviation download :=
  (osmnx_graph_download Graph ox_graph_from_polygon ox_basic_stats
                        ox_extended_stats).
Local Abbreviation asked := (requested basic_stats extended_stats).
Local Abbreviation stamps :=
  (foldl (fun r t => if bool_decide (index r = index t) then stamped t r else r)).

Lemma stamped_Ok t stats r :
  stats_of t = Ok stats ->
  write_err stats = None ->
  index (stamped t r) = index r /\ geometry (stamped t r) = geometry r /\
  forall c, attrs (stamped t r) !! c =
            if bool_decide (c ∈ extended_stats) then cells stats.2 !! c
            else if bool_decide (c ∈ basic_stats) then cells stats.1 !! c
            else attrs r !! c.
Proof.
  intros Ht Herr. unfold stamp, row_written. rewrite Ht.
  destruct (write_error_None _ _ _ Herr) as [-> ->].
  destruct (write_cells_spec (cells stats.2) extended_stats
              (write_cells (cells stats.1) basic_stats r)) as (Hi & Hg & Ha).
  destruct (write_cells_spec (cells stats.1) basic_stats r) as (Hi' & Hg' & Ha').
  split; [congruence|]. split; [congruence|].
  intros c. rewrite Ha, Ha'. reflexivity.
Qed.

Lemma stamped_Err t e r : stats_of t = Err e -> stamped t r = r.
Proof. intros Ht. unfold stamp. rewrite Ht. reflexivity. Qed.

Lemma basics_sub stats c : c ∈ basics stats -> c ∈ basic_stats.
Proof. apply written_sub. Qed.

Lemma extendeds_sub stats c : c ∈ extendeds stats -> c ∈ extended_stats.
Proof.
  unfold extended_written. destruct (raised stats.1 basic_stats).
  - inversion 1.
  - apply written_sub.
Qed.

Lemma stamped_same_but t r :
  same_but (basic_stats ++ extended_stats) r (stamped t r).
Proof.
  unfold stamp, row_written. destruct (stats_of t) as [stats|e] eqn:Ht;
    [|apply same_but_refl].
  destruct (write_cells_spec (cells stats.2) (extendeds stats)
              (write_cells (cells stats.1) (basics stats) r)) as (Hi & Hg & Ha).
  destruct (write_cells_spec (cells stats.1) (basics stats) r) as (Hi' & Hg' & Ha').
  split; [congruence|]. split; [congruence|].
  intros c Hc. rewrite Ha, Ha'. rewrite elem_of_app in Hc.
  rewrite !bool_decide_eq_false_2; [reflexivity| |].
  - intros H. apply Hc. left. eapply basics_sub, H.
  - intros H. apply Hc. right. eapply extendeds_sub, H.
Qed.

Lemma stamps_same_but todo :
  forall r, same_but (basic_stats ++ extended_stats) r (stamps r todo).
Proof.
  induction todo as [|t todo IH]; intros r; [apply same_but_refl|].
  cbn [foldl]. eapply same_but_trans; [|apply IH].
  case_bool_decide; [apply stamped_same_but | apply same_but_refl].
Qed.

Lemma columns_batch todo :
  forall cur,
    crs (batched todo cur) = crs cur /\
    (forall c, c ∈ columns cur -> c ∈ columns (batched todo cur)) /\
    (forall c, c ∈ columns (batched todo cur) -> c ∈ columns cur \/ asked c).
Proof.
  induction todo as [|t todo IH]; intros cur.
  - simpl. auto.
  - rewrite batched_cons. destruct (IH
      match stats_of t with
      | Ok stats =>
          write_stats (index t) (cells stats.2) (extendeds stats)
            (write_stats (index t) (cells stats.1) (basics stats) cur)
      | Err _ => cur
      end) as (Hcrs & Hkeeps & Hadds).
    destruct (stats_of t) as [stats|e]; [|auto].
    destruct (columns_write_stats (index t) (cells stats.2) (extendeds stats)
                (write_stats (index t) (cells stats.1) (basics stats) cur))
      as [Hcrs2 Hcols2].
    destruct (columns_write_stats (index t) (cells stats.1) (basics stats) cur)
      as [Hcrs1 Hcols1].
    split; [congruence|]. split.
    + intros c Hc. apply Hkeeps, Hcols2. left. apply Hcols1. left. exact Hc.
    + intros c Hc. apply Hadds in Hc as [Hc|Hc]; [|right; exact Hc].
      apply Hcols2 in Hc as [Hc|Hc].
      * apply Hcols1 in Hc as [Hc|Hc]; [left; exact Hc|].
        right. left. eapply basics_sub, Hc.
      * right. right. eapply extendeds_sub, Hc.
Qed.

Lemma failed_labels todo :
  (fun '(OnRecord label _) => label) <$> failed todo =
  index <$> List.filter (fun r => negb (complete r)) todo.
Proof.
  induction todo as [|t todo IH]; [reflexivity|].
  rewrite failed_cons. cbn [List.filter]. unfold completes at 1.
  destruct (error_of t) as [err|]; cbn [negb].
  - rewrite !fmap_cons, IH. reflexivity.
  - exact IH.
Qed.

Lemma batched_all_fail todo cur :
  Forall (fun t => good t = false) todo -> batched todo cur = cur.
Proof.
  induction 1 as [|t todo Ht _ IH]; [reflexivity|].
  rewrite batched_cons. unfold succeeds in Ht.
  destruct (stats_of t); [discriminate|exact IH].
Qed.

Lemma failed_all_fail todo :
  Forall (fun t => good t = false) todo -> length (failed todo) = length todo.
Proof.
  induction 1 as [|t todo Ht _ IH]; [reflexivity|].
  rewrite failed_cons. unfold succeeds in Ht. unfold row_error.
  destruct (stats_of t); [discriminate|]. simpl. f_equal. exact IH.
Qed.

Lemma stamps_skip after :
  forall r,
    Forall (fun t => index t = index r -> good t = false) after ->
    stamps r after = r.
Proof.
  induction after as [|t after IH]; intros r Hfail; [reflexivity|].
  apply Forall_cons in Hfail as [Ht Hfail]. cbn [foldl].
  case_bool_decide as Hlabel; [|apply IH, Hfail].
  unfold succeeds in Ht. specialize (Ht (eq_sym Hlabel)).
  destruct (stats_of t) as [stats|e] eqn:Hstats; [discriminate|].
  rewrite (stamped_Err _ _ _ Hstats). apply IH, Hfail.
Qed.

Lemma stamps_last before t after stats r :
  stats_of t = Ok stats ->
  write_err stats = None ->
  index r = index t ->
  Forall (fun t' => index t' = index t -> good t' = false) after ->
  forall stat, asked stat ->
    attrs (stamps r (before ++ t :: after)) !! stat =
      if bool_decide (stat ∈ extended_stats) then cells stats.2 !! stat
      else cells stats.1 !! stat.
Proof.
  intros Ht Herr Hlabel Hafter stat Hstat.
  rewrite foldl_app. cbn [foldl].
  destruct (stamps_same_but before r) as (Hi & _).
  rewrite bool_decide_eq_true_2 by congruence.
  destruct (stamped_Ok t stats (stamps r before) Ht Herr) as (Hi' & _ & Ha).
  rewrite stamps_skip.
  - rewrite Ha. case_bool_decide as Hext; [reflexivity|].
    destruct Hstat as [Hb|He]; [|tauto].
    rewrite bool_decide_eq_true_2 by assumption. reflexivity.
  - eapply Forall_impl; [exact Hafter|]. intros t' Hfail Ht'.
    apply Hfail. congruence.
Qed.


(** X19: when the library raises for every row, the frame is left exactly
    as it was, without the requested columns, and one line per row has
    been printed. *)
Theorem osmnx_graph_download_all_fail gdf w df :
  heap w !! gdf = Some df ->
  Forall (fun r => good r = false) (rows df) ->
  download gdf net_type basic_stats extended_stats connectivity anc ecc bc cc w =
    (Ok gdf, mkWorld (heap w) (stdout w ++ failed (rows df))) /\
  length (failed (rows df)) = length (rows df).
Proof.
  intros Hdf Hfail. split; [|apply failed_all_fail, Hfail].
  rewrite (osmnx_graph_download_run _ _ _ _ _ _ _ _ _ _ _ _ _ _ _ Hdf).
  rewrite (batched_all_fail _ _ Hfail), (insert_id _ _ _ Hdf). reflexivity.
Qed.

(** X20: among rows that share an index label the last one for which the
    library answers wins, provided none of its writes raises: every row
    with that label ends up with the statistics computed for it in each
    requested column, the extended statistic where a name is requested
    as both. *)
Theorem osmnx_graph_download_last_wins gdf w df before t after stats :
  heap w !! gdf = Some df ->
  rows df = before ++ t :: after ->
  stats_of t = Ok stats ->
  write_err stats = None ->
  Forall (fun t' => index t' = index t -> good t' = false) after ->
  exists df',
    heap (download gdf net_type basic_stats extended_stats
                   connectivity anc ecc bc cc w).2 !! gdf = Some df' /\
    forall r', r' ∈ rows df' -> index r' = index t ->
      forall stat, asked stat ->
        attrs r' !! stat =
          if bool_decide (stat ∈ extended_stats) then cells stats.2 !! stat
          else cells stats.1 !! stat.
Proof.
  intros Hdf Hrows Ht Herr Hafter. exists (batched (rows df) df).
  rewrite (osmnx_graph_download_run _ _ _ _ _ _ _ _ _ _ _ _ _ _ _ Hdf).
  split; [apply lookup_insert_eq|].
  intros r' Hr' Hlabel stat Hstat.
  rewrite rows_batch in Hr'. apply list_elem_of_fmap in Hr' as (r & -> & _).
  rewrite Hrows. apply stamps_last; try assumption.
  destruct (stamps_same_but (rows df) r) as (Hi & _). congruence.
Qed.
End osmnx_further.


Lemma osmnx_graph_download_all_fail_witness :
  osmnx_graph_download nat reference.graph_from_polygon reference.basic_stats
    reference.extended_stats sample.gdf "drive" ["n"; "m"] ["node_connectivity"]
    true false false false false sample.barren =
    (Ok sample.gdf,
     mkWorld (heap sample.barren)
             (stdout sample.barren ++
              failures nat reference.graph_from_polygon
                       reference.basic_stats reference.extended_stats
                       "drive" ["n"; "m"] ["node_connectivity"]
                       true false false false false
                       (rows sample.voids))) /\
  length (failures nat reference.graph_from_polygon reference.basic_stats
                   reference.extended_stats "drive" ["n"; "m"]
                   ["node_connectivity"] true false false false false
                   (rows sample.voids)) = length (rows sample.voids).
Proof.
  apply (osmnx_graph_download_all_fail nat reference.graph_from_polygon
           reference.basic_stats reference.extended_stats "drive"
           ["n"; "m"] ["node_connectivity"] true false false false false
           sample.gdf sample.barren sample.voids).
  - reflexivity.
  - repeat constructor.
Defined.

(** Nothing is written and both labels are reported. *)
Example osmnx_graph_download_voids :
  failures nat reference.graph_from_polygon reference.basic_stats
           reference.extended_stats "drive" ["n"; "m"] ["node_connectivity"]
           true false false false false
           (rows sample.voids) =
  [OnRecord 0 (LibraryError "EmptyOverpassResponse");
   OnRecord 1 (KeyError "geometry")].
Proof. reflexivity. Qed.

Lemma osmnx_graph_download_last_wins_witness :
  exists df',
    heap sample.annotated_twins.2 !! sample.gdf = Some df' /\
    forall r', r' ∈ rows df' -> index r' = 0 ->
      forall stat, requested ["n"; "m"] ["node_connectivity"] stat ->
        attrs r' !! stat =
          if bool_decide (stat ∈ ["node_connectivity"])
          then ({[ "node_connectivity" := Num 1 ]} : gmap string Cell) !! stat
          else ({[ "n" := Num 5; "m" := Num 10 ]} : gmap string Cell) !! stat.
Proof.
  refine (osmnx_graph_download_last_wins nat reference.graph_from_polygon
            reference.basic_stats reference.extended_stats "drive"
            ["n"; "m"] ["node_connectivity"] true false false false false
            sample.gdf (mkWorld {[ sample.gdf := sample.twins ]} []) sample.twins
            [] (mkRow 0 (Some (sample.square 0)) {[ "name" := Str "lima" ]})
            [mkRow 0 (Some (Polygon [] [])) {[ "name" := Str "callao" ]}]
            ({[ "n" := Scalar (Num 5); "m" := Scalar (Num 10);
                "streets_per_node_counts" :=
                  Composite
                    (ValueError
                       "Must have equal len keys and value when setting with an iterable") ]},
             {[ "node_connectivity" := Scalar (Num 1) ]})
            _ _ _ _ _).
  - reflexivity.
  - reflexivity.
  - vm_compute. reflexivity.
  - reflexivity.
  - repeat constructor.
Defined.

(** ** tuples_to_lists *)

Lemma py_list_as_list p p' : py_list p = Some p' -> as_list p p'.
Proof.
  unfold py_list, as_list. destruct (iter p) as [items|]; simpl; [|discriminate].
  intros [= <-]. eauto.
Qed.

Lemma py_list_fixed (ps qs : list PyVal) :
  Forall2 as_list ps qs -> mapM py_list qs = Some qs.
Proof.
  intros H. apply mapM_Some_2.
  induction H as [|p q ps qs (items & _ & ->) _ IH]; constructor; [reflexivity|exact IH].
Qed.

Lemma tuples_to_lists_feature_Some f f' :
  tuples_to_lists_feature f = Some f' ->
  feature_id f' = feature_id f /\
  feature_properties f' = feature_properties f /\
  exists g first rest points ring,
    feature_geometry f = Some g /\
    iter (coordinates g) = Some (first :: rest) /\
    iter first = Some points /\
    Forall2 as_list points ring /\
    feature_geometry f' =
      Some (mkFeatureGeometry (geometry_type g) (PList [PList ring])).
Proof.
  unfold tuples_to_lists_feature.
  destruct (feature_geometry f) as [g|]; simpl; [|discriminate].
  destruct (iter (coordinates g)) as [rings|] eqn:Hrings; simpl; [|discriminate].
  destruct (mapM py_list rings) as [t|] eqn:Ht; simpl; [|discriminate].
  apply mapM_Some_1 in Ht.
  destruct Ht as [|first first' rest t Hfirst Hrest]; simpl; [discriminate|].
  apply py_list_as_list in Hfirst as (points & Hpoints & ->). simpl.
  destruct (mapM py_list points) as [ring|] eqn:Hring; simpl; [|discriminate].
  intros [= <-]. simpl. split; [reflexivity|]. split; [reflexivity|].
  exists g, first, rest, points, ring.
  repeat split; try assumption; try reflexivity.
  apply mapM_Some_1 in Hring.
  eapply Forall2_impl; [exact Hring|]. apply py_list_as_list.
Qed.

(** X21: on success [tuples_to_lists] hands back as many features, in
    order, each with its identifier, properties and geometry type; the
    coordinates of a feature become a list holding one ring, the first
    ring of the input, whose points have become lists with the same
    components.  Any further ring, such as a hole, is dropped. *)
Theorem tuples_to_lists_first_ring json json' :
  tuples_to_lists json = Some json' ->
  Forall2 (fun f f' =>
             feature_id f' = feature_id f /\
             feature_properties f' = feature_properties f /\
             exists g first rest points ring,
               feature_geometry f = Some g /\
               iter (coordinates g) = Some (first :: rest) /\
               iter first = Some points /\
               Forall2 as_list points ring /\
               feature_geometry f' =
                 Some (mkFeatureGeometry (geometry_type g)
                                         (PList [PList ring])))
          (features json) (features json').
Proof.
  unfold tuples_to_lists.
  destruct (mapM _ _) as [features'|] eqn:Hmap; simpl; [|discriminate].
  intros [= <-]. simpl. apply mapM_Some_1 in Hmap.
  eapply Forall2_impl; [exact Hmap|]. apply tuples_to_lists_feature_Some.
Qed.

Lemma tuples_to_lists_first_ring_witness :
  exists json',
    tuples_to_lists sample.park = Some json' /\
    Forall2 (fun f f' =>
               feature_id f' = feature_id f /\
               feature_properties f' = feature_properties f /\
               exists g first rest points ring,
                 feature_geometry f = Some g /\
                 iter (coordinates g) = Some (first :: rest) /\
                 iter first = Some points /\
                 Forall2 as_list points ring /\
                 feature_geometry f' =
                   Some (mkFeatureGeometry (geometry_type g)
                                           (PList [PList ring])))
            (features sample.park) (features json').
Proof.
  eexists. split; [reflexivity|].
  apply (tuples_to_lists_first_ring sample.park). reflexivity.
Defined.

(** The hole of the park is gone and every tuple has become a list. *)
Example tuples_to_lists_sample :
  (fun json' => (fun f => coordinates <$> feature_geometry f) <$> features json')
    <$> tuples_to_lists sample.park =
  Some [Some (PList [PList [PList [PNum 0; PNum 0]; PList [PNum 4; PNum 0];
                            PList [PNum 4; PNum 4]; PList [PNum 0; PNum 0]]])].
Proof. reflexivity. Qed.

(** X22: the conversion is idempotent: converting what it returned
    returns the same collection. *)
Theorem tuples_to_lists_idempotent json json' :
  tuples_to_lists json = Some json' ->
  tuples_to_lists json' = Some json'.
Proof.
  unfold tuples_to_lists.
  destruct (mapM _ (features json)) as [features'|] eqn:Hmap; simpl; [|discriminate].
  intros [= <-]. simpl. apply mapM_Some_1 in Hmap.
  assert (mapM tuples_to_lists_feature features' = Some features') as ->;
    [|reflexivity].
  apply mapM_Some_2.
  induction Hmap as [|f f' fs fs' Hf _ IH]; constructor; [|exact IH].
  destruct (tuples_to_lists_feature_Some _ _ Hf)
    as (_ & _ & g & first & rest & points & ring & _ & _ & _ & Hring & Hg').
  unfold tuples_to_lists_feature. rewrite Hg'. simpl.
  rewrite (py_list_fixed _ _ Hring). simpl.
  destruct f' as [id props geometry']. simpl in *. congruence.
Qed.

Lemma tuples_to_lists_idempotent_witness :
  exists json',
    tuples_to_lists sample.park = Some json' /\
    tuples_to_lists json' = Some json'.
Proof.
  eexists. split; [reflexivity|].
  apply (tuples_to_lists_idempotent sample.park). reflexivity.
Defined.

(** ** shell_from_geometry *)

(** X23: [shell_from_geometry] returns exactly when every record has a
    longitude and a latitude, and then holds one pair per record, in
    order, the longitude first; otherwise the first record that lacks
    one of the two raises [KeyError] with the name of the key, the
    longitude being looked up first. *)
Theorem shell_from_geometry_pairs geometry :
  ((exists shell, shell_from_geometry geometry = Ok shell) <->
   Forall (fun record => is_Some (record !! "lon") /\ is_Some (record !! "lat"))
          geometry) /\
  (forall shell,
     shell_from_geometry geometry = Ok shell ->
     Forall2 (fun record pair =>
                exists lon lat,
                  record !! "lon" = Some lon /\ record !! "lat" = Some lat /\
                  pair = [lon; lat])
             geometry shell) /\
  (forall done record rest,
     geometry = done ++ record :: rest ->
     Forall (fun record => is_Some (record !! "lon") /\ is_Some (record !! "lat"))
            done ->
     (record !! "lon" = None ->
      shell_from_geometry geometry = Err (KeyError "lon")) /\
     (is_Some (record !! "lon") -> record !! "lat" = None ->
      shell_from_geometry geometry = Err (KeyError "lat"))).
Proof.
  unfold shell_from_geometry. split; [split|split].
  - intros [shell Hrun]. apply mapR_Ok_Forall2 in Hrun.
    induction Hrun as [|record pair l shell Hrecord _ IH]; constructor; [|exact IH].
    destruct (record !! "lon"); simpl in Hrecord; [|discriminate].
    destruct (record !! "lat"); simpl in Hrecord; [|discriminate].
    split; eauto.
  - intros Hall. apply mapR_total.
    eapply Forall_impl; [exact Hall|].
    intros record [[lon ->] [lat ->]]. simpl. eauto.
  - intros shell Hrun. apply mapR_Ok_Forall2 in Hrun.
    eapply Forall2_impl; [exact Hrun|].
    intros record pair Hrecord. cbn beta in Hrecord.
    destruct (record !! "lon") as [lon|]; simpl in Hrecord; [|discriminate].
    destruct (record !! "lat") as [lat|]; simpl in Hrecord; [|discriminate].
    injection Hrecord as <-. eauto.
  - intros done record rest -> Hdone.
    induction Hdone as [|r done [[lon Hlon] [lat Hlat]] _ IH].
    + simpl. split.
      * intros ->. reflexivity.
      * intros [lon ->] ->. reflexivity.
    + simpl. rewrite Hlon, Hlat. simpl.
      destruct IH as [IHlon IHlat]. split.
      * intros Hnone. simpl in IHlon. rewrite (IHlon Hnone). reflexivity.
      * intros Hsome Hnone. simpl in IHlat. rewrite (IHlat Hsome Hnone). reflexivity.
Qed.

Lemma shell_from_geometry_pairs_witness :
  (exists shell, shell_from_geometry sample.way = Ok shell) /\
  shell_from_geometry (sample.way ++ [{[ "lat" := 0%Q ]}]) = Err (KeyError "lon").
Proof.
  split.
  - apply (proj1 (shell_from_geometry_pairs sample.way)).
    repeat constructor; apply (bool_decide_unpack _); vm_compute; exact I.
  - apply (proj1 (proj2 (proj2 (shell_from_geometry_pairs
                                  (sample.way ++ [{[ "lat" := 0%Q ]}])))
                    sample.way {[ "lat" := 0%Q ]} [] eq_refl
                    ltac:(repeat constructor;
                          apply (bool_decide_unpack _); vm_compute; exact I))).
    reflexivity.
Defined.

(** The pairs come out longitude first. *)
Example shell_from_geometry_sample :
  shell_from_geometry sample.way =
  Ok [[(-77)%Q; (-12)%Q]; [(-771 # 10)%Q; (-121 # 10)%Q]].
Proof. reflexivity. Qed.

(** ** merge_shape_hex *)

Section merge_further.
Variable sjoin : Frame -> Frame -> string -> string -> result Joined.
Variable reducer : string -> option Reducer.

Local Abbreviation merge := (merge_shape_hex sjoin reducer).

(** X24: an exception of the spatial join comes out as it is, and a join
    whose result has no column [index_right] makes the grouping raise
    [KeyError] for that column; in both cases nothing has been copied or
    written. *)
Theorem merge_shape_hex_join_errors w hex shape how op agg hex_df shape_df :
  heap w !! hex = Some hex_df ->
  heap w !! shape = Some shape_df ->
  (forall e, sjoin shape_df hex_df how op = Err e ->
             merge hex shape how op agg w = (Err e, w)) /\
  (forall joined,
     sjoin shape_df hex_df how op = Ok joined ->
     has_index_right joined = false ->
     merge hex shape how op agg w = (Err (KeyError "index_right"), w)).
Proof.
  intros Hhex Hshape.
  pose proof (merge_shape_hex_run sjoin reducer w hex shape how op agg
                hex_df shape_df Hhex Hshape) as Hrun.
  split.
  - intros e He. rewrite He in Hrun. exact Hrun.
  - intros joined Hjoined Hnone. rewrite Hjoined in Hrun.
    unfold groupby_agg in Hrun. rewrite Hnone in Hrun. exact Hrun.
Qed.
End merge_further.

Lemma merge_shape_hex_join_errors_witness :
  merge_shape_hex reference.sjoin reference.pandas_reducer sample.hex sample.shape
    "inner" "near" [("population", "sum")] (sample.world sample.hexagons) =
    (Err (ValueError "`op` was not a recognised predicate"),
     sample.world sample.hexagons) /\
  merge_shape_hex reference.sjoin reference.pandas_reducer sample.hex sample.shape
    "right" "within" [("population", "sum")] (sample.world sample.hexagons) =
    (Err (KeyError "index_right"), sample.world sample.hexagons).
Proof.
  split.
  - apply (proj1 (merge_shape_hex_join_errors reference.sjoin
                    reference.pandas_reducer (sample.world sample.hexagons)
                    sample.hex sample.shape "inner" "near"
                    [("population", "sum")] sample.hexagons sample.points
                    eq_refl eq_refl)).
    reflexivity.
  - eapply (proj2 (merge_shape_hex_join_errors reference.sjoin
                     reference.pandas_reducer (sample.world sample.hexagons)
                     sample.hex sample.shape "right" "within"
                     [("population", "sum")] sample.hexagons sample.points
                     eq_refl eq_refl)).
    + reflexivity.
    + reflexivity.
Defined.
